(** * The article pipeline: parsers, file worker and bulk loader

    A shallow embedding of [src/data/pipeline_create_and_load.py]:
    the two article parsers ([extract_metadata_from_proquest],
    [parse_nyt_article]), the per-file worker ([process_file_worker]) and
    the transactional bulk load at the end of [load_articles_parallel].

    Text is modelled as [string], a sequence of 8-bit characters (the code
    points below 256 of a Python [str]).  Python values stored in the parsed
    dictionaries are [pyval]; the dictionaries themselves are [gmap]s keyed
    by column name. *)

From Stdlib Require Import ZArith QArith Lia List Ascii String Bool DecimalString Sorted.
From stdpp Require Import base option list gmap strings.

Local Open Scope Z_scope.
Local Open Scope stdpp_scope.

(** ** Python string primitives *)

Module Py.

Definition NL : string := String "010"%char "".

(** [str.isspace] on one character (code points below 256). *)
Definition isspace (c : ascii) : bool :=
  let n := N_of_ascii c in
  ((9 <=? n) && (n <=? 13) || (28 <=? n) && (n <=? 32)
   || (n =? 133) || (n =? 160))%N.

(** [str.isdecimal]-style digit test used by [\d]. *)
Definition isdigit (c : ascii) : bool :=
  let n := N_of_ascii c in ((48 <=? n) && (n <=? 57))%N.

(** [str.lower] on one character. *)
Definition lower_char (c : ascii) : ascii :=
  let n := N_of_ascii c in
  if ((65 <=? n) && (n <=? 90)
      || (192 <=? n) && (n <=? 222) && negb (n =? 215))%N
  then ascii_of_N (n + 32) else c.

Fixpoint lower (s : string) : string :=
  match s with
  | EmptyString => EmptyString
  | String c s' => String (lower_char c) (lower s')
  end.

Fixpoint lstrip (s : string) : string :=
  match s with
  | EmptyString => EmptyString
  | String c s' => if isspace c then lstrip s' else s
  end.

Fixpoint rstrip (s : string) : string :=
  match s with
  | EmptyString => EmptyString
  | String c s' =>
      match rstrip s' with
      | EmptyString => if isspace c then EmptyString else String c EmptyString
      | r => String c r
      end
  end.

(** [s.strip()] *)
Definition strip (s : string) : string := rstrip (lstrip s).

(** [s.startswith(p)] *)
Definition startswith (p s : string) : bool := String.prefix p s.

(** [s.endswith(p)] for a one-character [p]. *)
Fixpoint last_char (s : string) : option ascii :=
  match s with
  | EmptyString => None
  | String c EmptyString => Some c
  | String _ s' => last_char s'
  end.

(** [s[:-1]] *)
Fixpoint drop_last (s : string) : string :=
  match s with
  | EmptyString => EmptyString
  | String _ EmptyString => EmptyString
  | String c s' => String c (drop_last s')
  end.

(** Truthiness of a string: [if s:]. *)
Definition truthy (s : string) : bool :=
  match s with EmptyString => false | _ => true end.

(** [s.split(sep)] for a non-empty [sep]: the fragment up to the next
    occurrence of [sep] and the fragments after it.  [skip] counts the
    characters of a separator occurrence still to be passed over. *)
Fixpoint split_go (sep : string) (skip : nat) (s : string) : string * list string :=
  match s with
  | EmptyString => (EmptyString, [])
  | String c s' =>
      match skip with
      | S k => split_go sep k s'
      | O =>
          if String.prefix sep s
          then (EmptyString,
                let '(f, fs) := split_go sep (String.length sep - 1) s' in f :: fs)
          else let '(f, fs) := split_go sep 0 s' in (String c f, fs)
      end
  end.

Definition split_nonempty (sep s : string) : list string :=
  let '(f, fs) := split_go sep 0 s in f :: fs.

(** [s.split(sep)]; an empty separator raises [ValueError] ([None]). *)
Definition split (sep s : string) : option (list string) :=
  match sep with
  | EmptyString => None
  | _ => Some (split_nonempty sep s)
  end.

(** [s.split('\n')] *)
Definition split_lines (s : string) : list string := split_nonempty NL s.

(** The two parts of [s] around the first occurrence of character [c]. *)
Fixpoint partition_char (c : ascii) (s : string) : option (string * string) :=
  match s with
  | EmptyString => None
  | String a s' =>
      if Ascii.eqb a c then Some (EmptyString, s')
      else match partition_char c s' with
           | Some (b, r) => Some (String a b, r)
           | None => None
           end
  end.

(** [s.split(c, 1)] for a one-character separator. *)
Definition split1 (c : ascii) (s : string) : list string :=
  match partition_char c s with
  | Some (b, r) => [b; r]
  | None => [s]
  end.

(** [sep.join(l)] *)
Fixpoint join (sep : string) (l : list string) : string :=
  match l with
  | [] => EmptyString
  | [x] => x
  | x :: l' => x +:+ sep +:+ join sep l'
  end.

(** [s.replace(old, '')] for a non-empty [old]. *)
Fixpoint remove_go (old : string) (skip : nat) (s : string) : string :=
  match s with
  | EmptyString => EmptyString
  | String c s' =>
      match skip with
      | S k => remove_go old k s'
      | O => if String.prefix old s
             then remove_go old (String.length old - 1) s'
             else String c (remove_go old 0 s')
      end
  end.

Definition remove_all (old s : string) : string := remove_go old 0 s.

(** [s.strip(chars)] for a set of characters given as a predicate. *)
Fixpoint lstrip_by (p : ascii -> bool) (s : string) : string :=
  match s with
  | EmptyString => EmptyString
  | String c s' => if p c then lstrip_by p s' else s
  end.

Fixpoint rstrip_by (p : ascii -> bool) (s : string) : string :=
  match s with
  | EmptyString => EmptyString
  | String c s' =>
      match rstrip_by p s' with
      | EmptyString => if p c then EmptyString else String c EmptyString
      | r => String c r
      end
  end.

(** [s[:n]] and [s[n:]] *)
Fixpoint take (n : nat) (s : string) : string :=
  match n, s with
  | S k, String c s' => String c (take k s')
  | _, _ => EmptyString
  end.

Fixpoint drop (n : nat) (s : string) : string :=
  match n, s with
  | S k, String _ s' => drop k s'
  | _, _ => s
  end.

Fixpoint forallb_str (p : ascii -> bool) (s : string) : bool :=
  match s with
  | EmptyString => true
  | String c s' => p c && forallb_str p s'
  end.

Fixpoint mem_char (c : ascii) (s : string) : bool :=
  match s with
  | EmptyString => false
  | String a s' => Ascii.eqb a c || mem_char c s'
  end.

End Py.

(** ** Regular expressions

    The subset of Python's [re] that the parsers use, with its backtracking
    semantics: leftmost match, alternatives in order, greedy and lazy
    repetition, capture groups, lookahead, and the DOTALL, MULTILINE and
    IGNORECASE flags.  Patterns are kept as the source writes them and are
    compiled by [Re.compile]. *)

Module Re.

Record flags := Flags { DOTALL : bool; MULTILINE : bool; IGNORECASE : bool }.

Definition no_flags : flags := Flags false false false.

Inductive citem :=
| CChar (c : ascii)
| CRange (lo hi : ascii)
| CSpace
| CDigit
| CWord.

Inductive regex :=
| Eps
| Chr (c : ascii)
| Any
| CSet (neg : bool) (items : list citem)
| Bol
| Eol
| WordB
| Seq (r1 r2 : regex)
| Alt (r1 r2 : regex)
| Star (greedy : bool) (r : regex)
| Opt (greedy : bool) (r : regex)
| Group (n : nat) (r : regex)
| Look (r : regex).

(** *** Character tests *)

Definition upper_char (c : ascii) : ascii :=
  let n := N_of_ascii c in
  if ((97 <=? n) && (n <=? 122)
      || (224 <=? n) && (n <=? 254) && negb (n =? 247))%N
  then ascii_of_N (n - 32) else c.

(** [\w]: alphanumeric characters and the underscore. *)
Definition isword (c : ascii) : bool :=
  let n := N_of_ascii c in
  ((48 <=? n) && (n <=? 57) || (65 <=? n) && (n <=? 90)
   || (97 <=? n) && (n <=? 122) || (n =? 95)
   || (n =? 170) || (n =? 178) || (n =? 179) || (n =? 181)
   || (n =? 185) || (n =? 186) || (188 <=? n) && (n <=? 190)
   || (192 <=? n) && (n <=? 214) || (216 <=? n) && (n <=? 246)
   || (248 <=? n) && (n <=? 255))%N.

Definition citem_matches (i : citem) (a : ascii) : bool :=
  match i with
  | CChar c => Ascii.eqb a c
  | CRange lo hi => ((N_of_ascii lo <=? N_of_ascii a) && (N_of_ascii a <=? N_of_ascii hi))%N
  | CSpace => Py.isspace a
  | CDigit => Py.isdigit a
  | CWord => isword a
  end.

Definition items_match (fl : flags) (items : list citem) (a : ascii) : bool :=
  existsb (fun i => citem_matches i a
                    || IGNORECASE fl
                       && (citem_matches i (Py.lower_char a)
                           || citem_matches i (upper_char a))) items.

Definition chr_matches (fl : flags) (c a : ascii) : bool :=
  Ascii.eqb a c
  || IGNORECASE fl && Ascii.eqb (Py.lower_char a) (Py.lower_char c).

Definition is_nl (a : ascii) : bool := Ascii.eqb a "010"%char.

(** *** The matcher *)

Record mstate := MState {
  prev : option ascii;          (* the character before the position *)
  rest : string;                (* the text from the position on *)
  pos : nat;
  groups : list (nat * string)  (* captured groups, latest first *)
}.

Definition advance (st : mstate) : option (ascii * mstate) :=
  match rest st with
  | EmptyString => None
  | String a r => Some (a, MState (Some a) r (S (pos st)) (groups st))
  end.

Definition step_if (p : ascii -> bool) (st : mstate)
    (k : mstate -> option mstate) : option mstate :=
  match advance st with
  | Some (a, st') => if p a then k st' else None
  | None => None
  end.

Definition at_bol (fl : flags) (st : mstate) : bool :=
  match prev st with
  | None => true
  | Some a => MULTILINE fl && is_nl a
  end.

Definition at_eol (fl : flags) (st : mstate) : bool :=
  match rest st with
  | EmptyString => true
  | String a EmptyString => is_nl a
  | String a _ => MULTILINE fl && is_nl a
  end.

Definition at_wordb (st : mstate) : bool :=
  xorb (match prev st with Some a => isword a | None => false end)
       (match rest st with String a _ => isword a | EmptyString => false end).

Definition orelse {A} (x y : option A) : option A :=
  match x with Some _ => x | None => y end.

Definition set_group (n : nat) (st0 st' : mstate) : mstate :=
  MState (prev st') (rest st') (pos st')
         ((n, Py.take (pos st' - pos st0) (rest st0)) :: groups st').

(** [rmatch fl r st k]: match [r] at [st], then continue with [k]; the
    first success in backtracking order is the result. *)
Fixpoint rmatch (fl : flags) (r : regex) (st : mstate)
    (k : mstate -> option mstate) {struct r} : option mstate :=
  match r with
  | Eps => k st
  | Chr c => step_if (chr_matches fl c) st k
  | Any => step_if (fun a => DOTALL fl || negb (is_nl a)) st k
  | CSet neg items => step_if (fun a => xorb neg (items_match fl items a)) st k
  | Bol => if at_bol fl st then k st else None
  | Eol => if at_eol fl st then k st else None
  | WordB => if at_wordb st then k st else None
  | Seq r1 r2 => rmatch fl r1 st (fun st' => rmatch fl r2 st' k)
  | Alt r1 r2 => orelse (rmatch fl r1 st k) (rmatch fl r2 st k)
  | Star g r1 =>
      (fix loop (fuel : nat) (st0 : mstate) {struct fuel} : option mstate :=
         match fuel with
         | O => k st0
         | S f =>
             let again :=
               rmatch fl r1 st0
                 (fun st' => if (pos st0 <? pos st')%nat then loop f st' else None) in
             if g then orelse again (k st0) else orelse (k st0) again
         end) (S (String.length (rest st))) st
  | Opt g r1 =>
      if g then orelse (rmatch fl r1 st k) (k st)
      else orelse (k st) (rmatch fl r1 st k)
  | Group n r1 => rmatch fl r1 st (fun st' => k (set_group n st st'))
  | Look r1 =>
      match rmatch fl r1 st Some with
      | Some st' => k (MState (prev st) (rest st) (pos st) (groups st'))
      | None => None
      end
  end.

(** A match object: span and groups. *)
Record rematch := ReMatch {
  m_start : nat;
  m_end : nat;
  m_groups : list (nat * string)
}.

Definition match_at (fl : flags) (r : regex) (p : option ascii) (i : nat)
    (s : string) : option rematch :=
  match rmatch fl r (MState p s i []) Some with
  | Some st' => Some (ReMatch i (pos st') (groups st'))
  | None => None
  end.

Fixpoint search_go (fl : flags) (r : regex) (p : option ascii) (i : nat)
    (s : string) : option rematch :=
  match match_at fl r p i s with
  | Some m => Some m
  | None =>
      match s with
      | EmptyString => None
      | String c s' => search_go fl r (Some c) (S i) s'
      end
  end.

(** [re.search(pattern, s, flags)] *)
Definition search (fl : flags) (r : regex) (s : string) : option rematch :=
  search_go fl r None 0 s.

(** [re.match(pattern, s, flags)] *)
Definition match_ (fl : flags) (r : regex) (s : string) : option rematch :=
  match_at fl r None 0 s.

(** [m.group(n)]; a group that took no part in the match reads as empty
    (every group of the patterns below takes part in each match). *)
Fixpoint assoc_group (n : nat) (gs : list (nat * string)) : string :=
  match gs with
  | [] => EmptyString
  | (i, s) :: gs' => if (i =? n)%nat then s else assoc_group n gs'
  end.

Definition group (m : rematch) (n : nat) : string := assoc_group n (m_groups m).

(** [re.sub(pattern, '', s)]: every match, left to right and without
    overlap, is deleted. *)
Fixpoint sub_go (fl : flags) (r : regex) (p : option ascii) (i : nat)
    (skip : nat) (s : string) : string :=
  match s with
  | EmptyString => EmptyString
  | String c s' =>
      match skip with
      | S k => sub_go fl r (Some c) (S i) k s'
      | O =>
          match match_at fl r p i s with
          | Some m =>
              match (m_end m - i)%nat with
              | O => String c (sub_go fl r (Some c) (S i) 0 s')
              | S k => sub_go fl r (Some c) (S i) k s'
              end
          | None => String c (sub_go fl r (Some c) (S i) 0 s')
          end
      end
  end.

Definition sub_empty (fl : flags) (r : regex) (s : string) : string :=
  sub_go fl r None 0 0 s.

End Re.

(** *** Pattern syntax *)

Module ReSyntax.
Import Re.

Definition is_digit_char (c : ascii) : bool := Py.isdigit c.

Definition digit_val (c : ascii) : nat := N.to_nat (N_of_ascii c - 48).

(** The decimal number at the head of [s] and the text after it. *)
Fixpoint parse_nat (acc : nat) (s : string) : nat * string :=
  match s with
  | String c s' =>
      if is_digit_char c then parse_nat (10 * acc + digit_val c)%nat s' else (acc, s)
  | EmptyString => (acc, s)
  end.

(** The atom for an escape [\c] outside a character set. *)
Definition escape_atom (c : ascii) : regex :=
  match c with
  | "s"%char => CSet false [CSpace]
  | "d"%char => CSet false [CDigit]
  | "w"%char => CSet false [CWord]
  | "b"%char => WordB
  | "n"%char => Chr "010"%char
  | "t"%char => Chr "009"%char
  | _ => Chr c
  end.

(** The item for an escape [\c] inside a character set. *)
Definition escape_item (c : ascii) : citem :=
  match c with
  | "s"%char => CSpace
  | "d"%char => CDigit
  | "w"%char => CWord
  | "n"%char => CChar "010"%char
  | "t"%char => CChar "009"%char
  | _ => CChar c
  end.

(** The items of a character set up to its closing bracket. *)
Fixpoint parse_items (s : string) : option (list citem * string) :=
  match s with
  | EmptyString => None
  | String "]"%char s' => Some ([], s')
  | String "\"%char (String c s') =>
      match parse_items s' with
      | Some (its, r) => Some (escape_item c :: its, r)
      | None => None
      end
  | String a (String "-"%char (String b s')) =>
      if Ascii.eqb b "]"%char
      then Some ([CChar a; CChar "-"%char], s')
      else match parse_items s' with
           | Some (its, r) => Some (CRange a b :: its, r)
           | None => None
           end
  | String a s' =>
      match parse_items s' with
      | Some (its, r) => Some (CChar a :: its, r)
      | None => None
      end
  end.

Definition parse_set (s : string) : option (regex * string) :=
  match s with
  | String "^"%char s' =>
      match parse_items s' with
      | Some (its, r) => Some (CSet true its, r)
      | None => None
      end
  | _ =>
      match parse_items s with
      | Some (its, r) => Some (CSet false its, r)
      | None => None
      end
  end.

Fixpoint repeat_re (n : nat) (r : regex) : regex :=
  match n with
  | O => Eps
  | S O => r
  | S k => Seq r (repeat_re k r)
  end.

(** A quantifier after the atom [r], if there is one. *)
Definition parse_quant (r : regex) (s : string) : option (regex * string) :=
  let lazy_of (s : string) : bool * string :=
    match s with
    | String "?"%char s' => (false, s')
    | _ => (true, s)
    end in
  match s with
  | String "*"%char s' => let '(g, r') := lazy_of s' in Some (Star g r, r')
  | String "+"%char s' => let '(g, r') := lazy_of s' in Some (Seq r (Star g r), r')
  | String "?"%char s' => let '(g, r') := lazy_of s' in Some (Opt g r, r')
  | String "{"%char s' =>
      match parse_nat 0 s' with
      | (n, String "}"%char r') => Some (repeat_re n r, r')
      | _ => None
      end
  | _ => Some (r, s)
  end.

(** Alternatives, sequences and atoms; [n] is the number of capture groups
    opened so far. *)
Fixpoint parse_alt (fuel : nat) (s : string) (n : nat) {struct fuel}
    : option (regex * string * nat) :=
  match fuel with
  | O => None
  | S f =>
      match parse_seq f s n with
      | Some (r1, String "|"%char s', n1) =>
          match parse_alt f s' n1 with
          | Some (r2, s'', n2) => Some (Alt r1 r2, s'', n2)
          | None => None
          end
      | res => res
      end
  end
with parse_seq (fuel : nat) (s : string) (n : nat) {struct fuel}
    : option (regex * string * nat) :=
  match fuel with
  | O => None
  | S f =>
      match s with
      | EmptyString => Some (Eps, s, n)
      | String ")"%char _ => Some (Eps, s, n)
      | String "|"%char _ => Some (Eps, s, n)
      | _ =>
          match parse_atom f s n with
          | Some (a, s1, n1) =>
              match parse_quant a s1 with
              | Some (q, s2) =>
                  match parse_seq f s2 n1 with
                  | Some (Eps, s3, n3) => Some (q, s3, n3)
                  | Some (r, s3, n3) => Some (Seq q r, s3, n3)
                  | None => None
                  end
              | None => None
              end
          | None => None
          end
      end
  end
with parse_atom (fuel : nat) (s : string) (n : nat) {struct fuel}
    : option (regex * string * nat) :=
  match fuel with
  | O => None
  | S f =>
      match s with
      | String "("%char (String "?"%char (String ":"%char s')) =>
          match parse_alt f s' n with
          | Some (r, String ")"%char s'', n') => Some (r, s'', n')
          | _ => None
          end
      | String "("%char (String "?"%char (String "="%char s')) =>
          match parse_alt f s' n with
          | Some (r, String ")"%char s'', n') => Some (Look r, s'', n')
          | _ => None
          end
      | String "("%char s' =>
          match parse_alt f s' (S n) with
          | Some (r, String ")"%char s'', n') => Some (Group (S n) r, s'', n')
          | _ => None
          end
      | String "["%char s' =>
          match parse_set s' with
          | Some (r, s'') => Some (r, s'', n)
          | None => None
          end
      | String "\"%char (String c s') => Some (escape_atom c, s', n)
      | String "."%char s' => Some (Any, s', n)
      | String "^"%char s' => Some (Bol, s', n)
      | String "$"%char s' => Some (Eol, s', n)
      | String c s' => Some (Chr c, s', n)
      | EmptyString => None
      end
  end.

Definition parse (p : string) : option regex :=
  match parse_alt (4 * String.length p + 8) p 0 with
  | Some (r, EmptyString, _) => Some r
  | _ => None
  end.

End ReSyntax.

Module RePat.

(** A pattern that matches nothing, for text that is not a pattern. *)
Definition never : Re.regex := Re.CSet false [].

(** [re.compile(p)] *)
Definition compile (p : string) : Re.regex :=
  match ReSyntax.parse p with
  | Some r => r
  | None => never
  end.

End RePat.

(** ** Python values and parsed dictionaries *)

(** The result of a call that may raise. *)
Inductive outcome (A : Type) :=
| Returned (a : A)
| Raised.
Arguments Returned {A} a.
Arguments Raised {A}.


Inductive pyval :=
| PNone
| PStr (s : string)
| PInt (n : Z)
| PDate (y m d : Z).

Global Instance pyval_eq_dec : EqDecision pyval.
Proof. solve_decision. Defined.

(** Truthiness: [if v:]. *)
Definition truthy (v : pyval) : bool :=
  match v with
  | PNone => false
  | PStr s => Py.truthy s
  | PInt n => negb (n =? 0)
  | PDate _ _ _ => true
  end.

Definition of_opt (o : option string) : pyval :=
  match o with Some s => PStr s | None => PNone end.

(** A parsed article: a dictionary from field name to value. *)
Abbreviation record := (gmap string pyval).

(** [d.get(k)] *)
Definition get (d : record) (k : string) : pyval := default PNone (d !! k).

(** [{col: d.get(col) for col in cols}] *)
Definition project (cols : list string) (d : record) : record :=
  foldl (fun acc col => <[col := get d col]> acc) ∅ cols.

(** ** The ProQuest parser *)

Definition fl_M : Re.flags := Re.Flags false true false.
Definition fl_DM : Re.flags := Re.Flags true true false.
Definition fl_MI : Re.flags := Re.Flags false true true.
Definition fl_DMI : Re.flags := Re.Flags true true true.

(** [safe_search]: group 1 of the first match, stripped. *)
Definition safe_search (pattern text : string) (fl : Re.flags) : option string :=
  match Re.search fl (RePat.compile pattern) text with
  | Some m => Some (Py.strip (Re.group m 1))
  | None => None
  end.

Definition title_pattern : string :=
  "^Title:\s*(.*?)(?=\n(?:Author:|Publication title:|Publicationtitle:|Abstract:|Full text:|$))".

Definition section_in_title_pattern : string := "(.*?)(?::\s*)?\[(.*?)\]\s*$".

Definition clean_title_pattern : string := "[^a-zA-Z0-9\s.,;:!?()-]+\s*$".

Definition section_code_pattern : string := "^Section\s*:(.*?)(?=\n|$)".

(** [re.sub(clean_title_pattern, '', s).strip()] *)
Definition clean_title_of (s : string) : string :=
  Py.strip (Re.sub_empty Re.no_flags (RePat.compile clean_title_pattern) s).

(** The bracket extraction applied to a title line: the section found in
    trailing brackets, if the pattern matches, and the clean title
    candidate. *)
Definition title_brackets (line : string) : option string * string :=
  match Re.search Re.no_flags (RePat.compile section_in_title_pattern) line with
  | Some m =>
      let title_part := Py.strip (Re.group m 1) in
      let extracted_section_from_title := Py.strip (Re.group m 2) in
      let title_part :=
        match Py.last_char title_part with
        | Some ":"%char => Py.strip (Py.drop_last title_part)
        | _ => title_part
        end in
      (Some extracted_section_from_title, clean_title_of title_part)
  | None => (None, clean_title_of line)
  end.

(** A line boundary of [str.splitlines]. *)
Definition is_linebreak (c : ascii) : bool :=
  let n := N_of_ascii c in
  ((10 <=? n) && (n <=? 13) || (28 <=? n) && (n <=? 30) || (n =? 133))%N.

(** [text.splitlines()[0]] *)
Fixpoint first_splitline (s : string) : string :=
  match s with
  | EmptyString => EmptyString
  | String c s' => if is_linebreak c then EmptyString else String c (first_splitline s')
  end.

(** Title, section found in the title brackets, and clean title. *)
Definition title_and_section (text : string)
    : pyval * option string * pyval :=
  match Re.search fl_DM (RePat.compile title_pattern) text with
  | Some title_match =>
      let raw_title_line := Py.strip (Re.group title_match 1) in
      let '(sec, clean) := title_brackets raw_title_line in
      (PStr raw_title_line, sec, PStr clean)
  | None =>
      let first_line := Py.strip (first_splitline text) in
      if Py.truthy first_line then
        let '(sec, clean) := title_brackets first_line in
        (PStr first_line, sec, PStr clean)
      else (PNone, None, PNone)
  end.

(** The final section assignment: the section from the title brackets when
    it is non-empty, else the separate section code when that is non-empty,
    else [None]. *)
Definition assign_section (extracted_section_from_title section_code : option string)
    : pyval :=
  if truthy (of_opt extracted_section_from_title)
  then of_opt extracted_section_from_title
  else if truthy (of_opt section_code) then of_opt section_code
  else PNone.

Definition header_field_patterns : list string :=
  [ "^Title:.*?\n"; "^Author\s*:.*?\n"; "^Publication title\s*:.*?\n";
    "^Publication date\s*:.*?\n"; "^Abstract\s*:.*?\n" ].

Definition trailing_meta_pattern : string :=
  "\n(?:Subject\s*:|Location\s*:|People\s*:|Company\s*/\s*Org\s*:|Identifier\s*/\s*keyword\s*:|ProQuest document ID\s*:|Document URL\s*:|Copyright\s*:)".

(** The fallback for [full_text] when the standard header gave nothing. *)
Definition full_text_fallback (text : string) (current : pyval) : pyval :=
  let last_header_field_end :=
    foldl (fun acc p =>
             match Re.search fl_DMI (RePat.compile p) text with
             | Some m => Nat.max acc (Re.m_end m)
             | None => acc
             end) 0%nat header_field_patterns in
  let potential_body := Py.strip (Py.drop last_header_field_end text) in
  match Re.search fl_MI (RePat.compile trailing_meta_pattern) potential_body with
  | Some m => PStr (Py.strip (Py.take (Re.m_start m) potential_body))
  | None => if Py.truthy potential_body then PStr potential_body else current
  end.

(** The cleaning of one of [abstract], [full_text]. *)
Definition remove_enlarge (v : pyval) : pyval :=
  match v with
  | PStr s =>
      if Py.truthy s
      then PStr (Py.strip (Py.remove_all "Enlarge this image." s))
      else v
  | _ => v
  end.

(** [len(''.join(text.split()))] *)
Fixpoint count_nonspace (s : string) : Z :=
  match s with
  | EmptyString => 0
  | String c s' => (if Py.isspace c then 0 else 1) + count_nonspace s'
  end.

Definition extract_metadata_from_proquest (text : string) : record :=
  let text := Py.strip text in
  if negb (Py.truthy text) then ∅ else
  let article : record := {[ "raw_text_length" := PInt (count_nonspace text) ]} in
  let '(title, extracted_section_from_title, clean_title_candidate) :=
    title_and_section text in
  let article := <["title" := title]> article in
  let article := <["clean_title" := clean_title_candidate]> article in
  let section_code := safe_search section_code_pattern text fl_MI in
  let article := <["section_code" := of_opt section_code]> article in
  let article :=
    <["section" := assign_section extracted_section_from_title section_code]> article in
  let article := <["author" := of_opt (safe_search
    "^Author\s*:(.*?)(?=\n(?:Publication title:|Publicationtitle:|Abstract:|Full text:|$))"
    text fl_DMI)]> article in
  let article := <["abstract" := of_opt (safe_search
    "^Abstract\s*:(.*?)(?=\n(?:Links\s*:|Full text\s*:|Subject\s*:|$))"
    text fl_DMI)]> article in
  let article := <["full_text" := of_opt (safe_search
    "^Full text\s*:(.*?)(?=\n(?:Subject\s*:|Location\s*:|People\s*:|Company\s*/\s*Org\s*:|Identifier\s*/\s*keyword\s*:|ProQuest document ID\s*:|Document URL\s*:|Copyright\s*:|$))"
    text fl_DMI)]> article in
  let article :=
    if negb (truthy (get article "full_text"))
    then <["full_text" := full_text_fallback text (get article "full_text")]> article
    else article in
  let article := <["abstract" := remove_enlarge (get article "abstract")]> article in
  let article := <["full_text" := remove_enlarge (get article "full_text")]> article in
  let article := <["url" := of_opt (safe_search
    "^(?:Document URL|URL)\s*:(.*?)(?=\n|$)" text fl_MI)]> article in
  let article := <["publication_title" := of_opt (safe_search
    "^(?:Publication title|Publicationtitle)\s*:(.*?)(?=\n(?:Pages\s*:|Publication year\s*:|Publication date\s*:|Section\s*:|$))"
    text fl_DMI)]> article in
  let article := <["page" := of_opt (safe_search
    "^Pages\s*:(.*?)(?=\n|$)" text fl_MI)]> article in
  let article := <["publication_date_raw" := of_opt (safe_search
    "^Publication date\s*:(.*?)(?=\n|$)" text fl_MI)]> article in
  let article := <["publication_date" := get article "publication_date_raw"]> article in
  let pub_year_match := safe_search "^Publication year\s*:(.*?)(?=\n|$)" text fl_MI in
  let article :=
    if truthy (of_opt pub_year_match)
    then <["publication_year" := of_opt pub_year_match]> article
    else match get article "publication_date_raw" with
         | PStr raw =>
             if Py.truthy raw then
               match Re.search Re.no_flags (RePat.compile "\b(\d{4})\b") raw with
               | Some m => <["publication_year" := PStr (Re.group m 1)]> article
               | None => article
               end
             else article
         | _ => article
         end in
  let article := <["location" := of_opt (safe_search
    "^Location\s*:(.*?)(?=\n(?:Subject\s*:|People\s*:|$))" text fl_DMI)]> article in
  let article := <["subject" := of_opt (safe_search
    "^Subject\s*:(.*?)(?=\n(?:Location\s*:|People\s*:|Company\s*/\s*Org\s*:|Identifier\s*/\s*keyword\s*:|$))"
    text fl_DMI)]> article in
  let article := <["people" := of_opt (safe_search
    "^People\s*:(.*?)(?=\n(?:Company\s*/\s*Org\s*:|Identifier\s*/\s*keyword\s*:|$))"
    text fl_DMI)]> article in
  let article := <["keywords" := of_opt (safe_search
    "^Identifier\s*/\s*keyword\s*:(.*?)(?=\n(?:ProQuest document ID\s*:|$))"
    text fl_DMI)]> article in
  let article := <["document_id" := of_opt (safe_search
    "^ProQuest document ID\s*:(.*?)(?=\n|$)" text fl_MI)]> article in
  let article := <["place_of_publication" := of_opt (safe_search
    "^Place of publication\s*:(.*?)(?=\n|$)" text fl_MI)]> article in
  let article := <["country_of_publication" := of_opt (safe_search
    "^Country of publication\s*:(.*?)(?=\n|$)" text fl_MI)]> article in
  let article := <["document_type" := of_opt (safe_search
    "^Document type\s*:(.*?)(?=\n|$)" text fl_MI)]> article in
  let article := <["publisher" := of_opt (safe_search
    "^Publisher\s*:(.*?)(?=\n|$)" text fl_MI)]> article in
  let article := <["last_updated" := of_opt (safe_search
    "^Last updated\s*:(.*?)(?=\n|$)" text fl_MI)]> article in
  let article := <["copyright" := of_opt (safe_search
    "^Copyright\s*:(.*?)(?=\n(?:ProQuest document ID\s*:|$))" text fl_DMI)]> article in
  let article := <["issn" := of_opt (safe_search
    "^ISSN\s*:(.*?)(?=\n|$)" text fl_MI)]> article in
  let article := <["source_type" := of_opt (safe_search
    "^Source type\s*:(.*?)(?=\n|$)" text fl_MI)]> article in
  let article := <["language" := of_opt (safe_search
    "^Language(?: of publication)?\s*:(.*?)(?=\n|$)" text fl_MI)]> article in
  let article := <["database" := of_opt (safe_search
    "^Database\s*:(.*?)(?=\n|$)" text fl_MI)]> article in
  let article :=
    if truthy (get article "publication_title")
    then <["source" := get article "publication_title"]> article
    else article in
  article.

(** ** The NYT parser *)

(** *** UUID validation

    [uuid.UUID(key_str)] of the Python standard library accepts a string
    when, after removing [urn:] and [uuid:], braces at both ends and every
    hyphen, 32 characters remain that [int(_, 16)] reads as a number in
    the 128-bit range. *)

Definition hex_val (c : ascii) : option Z :=
  let n := Z.of_N (N_of_ascii c) in
  if (48 <=? n) && (n <=? 57) then Some (n - 48)
  else if (97 <=? n) && (n <=? 102) then Some (n - 87)
  else if (65 <=? n) && (n <=? 70) then Some (n - 55)
  else None.

(** Hexadecimal digits with single underscores between them. *)
Fixpoint digits16 (acc : Z) (after_digit : bool) (s : string) : option Z :=
  match s with
  | EmptyString => if after_digit then Some acc else None
  | String "_"%char s' => if after_digit then digits16 acc false s' else None
  | String c s' =>
      match hex_val c with
      | Some v => digits16 (16 * acc + v) true s'
      | None => None
      end
  end.

(** [int(s, 16)]; [None] stands for [ValueError]. *)
Definition int16 (s : string) : option Z :=
  let s := Py.strip s in
  let '(sign, s) :=
    match s with
    | String "+"%char r => (1, r)
    | String "-"%char r => (-1, r)
    | _ => (1, s)
    end in
  let s :=
    match s with
    | String "0"%char (String "x"%char (String "_"%char r)) => r
    | String "0"%char (String "X"%char (String "_"%char r)) => r
    | String "0"%char (String "x"%char r) => r
    | String "0"%char (String "X"%char r) => r
    | _ => s
    end in
  match digits16 0 false s with
  | Some v => Some (sign * v)
  | None => None
  end.

Definition is_brace (c : ascii) : bool :=
  Ascii.eqb c "{"%char || Ascii.eqb c "}"%char.

(** [uuid.UUID(hex)]: the 128-bit value, or [None] for [ValueError]. *)
Definition uuid_of_hex (hex : string) : option Z :=
  let hex := Py.remove_all "uuid:" (Py.remove_all "urn:" hex) in
  let hex := Py.remove_all "-" (Py.rstrip_by is_brace (Py.lstrip_by is_brace hex)) in
  if negb (String.length hex =? 32)%nat then None
  else match int16 hex with
       | Some v => if (0 <=? v) && (v <? 2 ^ 128) then Some v else None
       | None => None
       end.

Definition is_valid_uuid (key_str : string) : bool :=
  if negb (Py.truthy key_str) then false
  else match uuid_of_hex key_str with Some _ => true | None => false end.

(** *** Configuration consumed by the parser and the worker *)

Record config := Config {
  proquest_separator : option string;   (* loading.proquest.separator *)
  article_separator : string;           (* loading.nyt.article_separator *)
  text_start_marker : string;           (* loading.nyt.text_start_marker *)
  text_end_marker : string              (* loading.nyt.text_end_marker *)
}.

Definition PROQUEST_SEPARATOR : string := Py.NL +:+ "Document ".

(** The defaults of [config.py]. *)
Definition default_config : config :=
  Config None
    "---------------------------------------------------------------"
    ">>>>>>>>>>>>>>>>>>>>>>"
    "<<<<<<<<<<<<<<<<<<<<<<".

(** *** The parser state *)

Definition bad_key : Type := string * string * string.

Record nyt_state := NytState {
  data : record;
  bad_key_info : option bad_key;
  warnings : list string;
  text_lines : list string;
  in_text_block : bool;
  found_start_marker : bool;
  found_end_marker : bool;
  key_value_found : option string
}.

Definition nyt_initial_data (filepath : string) : record :=
  list_to_map
    [ ("source_filepath", PStr filepath);
      ("format_type", PStr "NYT_2011_2014");
      ("format_note", PNone);
      ("headline", PNone);
      ("body", PNone);
      ("publication_date", PNone);
      ("nyt_internal_id", PNone);
      ("nyt_country_codes", PNone);
      ("nyt_source_info", PNone);
      ("nyt_svm_score", PNone);
      ("factiva_key", PNone);
      ("factiva_word_count", PNone);
      ("factiva_source_name", PNone);
      ("factiva_language", PNone);
      ("factiva_document_type", PNone);
      ("factiva_region", PNone);
      ("factiva_industry", PNone);
      ("factiva_subject", PNone);
      ("factiva_company_codes", PNone);
      ("factiva_other_metadata", PNone) ].

Definition nyt_initial (filepath : string) : nyt_state :=
  NytState (nyt_initial_data filepath) None [] [] false false false None.

Definition set_field (k : string) (v : pyval) (st : nyt_state) : nyt_state :=
  NytState (<[k := v]> (data st)) (bad_key_info st) (warnings st) (text_lines st)
    (in_text_block st) (found_start_marker st) (found_end_marker st)
    (key_value_found st).

Definition warn (w : string) (st : nyt_state) : nyt_state :=
  NytState (data st) (bad_key_info st) (warnings st ++ [w]) (text_lines st)
    (in_text_block st) (found_start_marker st) (found_end_marker st)
    (key_value_found st).

Definition set_bad_key (b : bad_key) (st : nyt_state) : nyt_state :=
  NytState (data st) (Some b) (warnings st) (text_lines st)
    (in_text_block st) (found_start_marker st) (found_end_marker st)
    (key_value_found st).

Definition set_key_value (k : string) (st : nyt_state) : nyt_state :=
  NytState (<["nyt_internal_id" := PStr k]> (data st)) (bad_key_info st)
    (warnings st) (text_lines st) (in_text_block st) (found_start_marker st)
    (found_end_marker st) (Some k).

Definition set_markers (in_text found_start found_end : bool) (st : nyt_state)
    : nyt_state :=
  NytState (data st) (bad_key_info st) (warnings st) (text_lines st)
    in_text found_start found_end (key_value_found st).

(** [if in_text_block: text_lines.append(line)] *)
Definition append_text (line : string) (st : nyt_state) : nyt_state :=
  if in_text_block st
  then NytState (data st) (bad_key_info st) (warnings st) (text_lines st ++ [line])
         true (found_start_marker st) (found_end_marker st) (key_value_found st)
  else st.

(** [line.split(':', 1)[1].strip()]; [None] stands for [IndexError]. *)
Definition field_value (line : string) : option string :=
  Py.strip <$> (Py.split1 ":"%char line !! 1%nat).

(** [stripped_line.split(':', 1)[0]] *)
Definition field_name (stripped_line : string) : string :=
  default EmptyString (Py.split1 ":"%char stripped_line !! 0%nat).

Definition date_pattern : string := "^\d{8}$".

(** [f"{date_str[:4]}-{date_str[4:6]}-{date_str[6:]}"] *)
Definition format_date (date_str : string) : string :=
  Py.take 4 date_str +:+ "-" +:+ Py.take 2 (Py.drop 4 date_str) +:+ "-"
  +:+ Py.drop 6 date_str.

(** The handler of [IndexError]. *)
Definition on_index_error (filepath stripped_line line : string) (st : nyt_state)
    : nyt_state :=
  let st := warn ("Could not parse value for field '" +:+ field_name stripped_line
                  +:+ "'. Line: '" +:+ line +:+ "'") st in
  if String.eqb (field_name stripped_line) "Key"
  then set_bad_key (EmptyString, filepath, "Malformed Key Line")
         (set_key_value EmptyString st)
  else st.

Definition on_key (filepath line key_value : string) (st : nyt_state) : nyt_state :=
  let st := set_key_value key_value st in
  if negb (Py.truthy key_value) then
    set_bad_key (key_value, filepath, "Empty Key")
      (warn ("Empty Key value found: '" +:+ line +:+ "'") st)
  else if negb (is_valid_uuid key_value) then
    set_bad_key (key_value, filepath, "Invalid UUID")
      (warn ("Malformed Key (UUID validation failed): '" +:+ key_value +:+ "'") st)
  else st.

Definition on_date (date_str : string) (st : nyt_state) : nyt_state :=
  match Re.match_ Re.no_flags (RePat.compile date_pattern) date_str with
  | Some _ => set_field "publication_date" (PStr (format_date date_str)) st
  | None =>
      if negb (Py.truthy date_str) then
        set_field "publication_date" PNone
          (warn "Empty Date field found. Storing as NULL." st)
      else
        set_field "publication_date" PNone
          (warn ("Non-standard date format: '" +:+ date_str
                 +:+ "'. Storing as NULL.") st)
  end.

(** One iteration of the loop over the lines of a block. *)
Definition nyt_line (cfg : config) (filepath : string) (st : nyt_state)
    (line : string) : nyt_state :=
  let stripped_line := Py.strip line in
  if negb (Py.truthy stripped_line) then st
  else if Py.startswith "Key:" stripped_line then
    match field_value line with
    | Some v => append_text line (on_key filepath line v st)
    | None => on_index_error filepath stripped_line line st
    end
  else if Py.startswith "Headline:" stripped_line then
    match field_value line with
    | Some v => append_text line (set_field "headline" (PStr v) st)
    | None => on_index_error filepath stripped_line line st
    end
  else if Py.startswith "Date:" stripped_line then
    match field_value line with
    | Some v => append_text line (on_date v st)
    | None => on_index_error filepath stripped_line line st
    end
  else if Py.startswith "Countries:" stripped_line then
    match field_value line with
    | Some v => append_text line (set_field "nyt_country_codes" (PStr v) st)
    | None => on_index_error filepath stripped_line line st
    end
  else if Py.startswith (text_start_marker cfg) stripped_line then
    set_markers true true (found_end_marker st) st
  else if Py.startswith (text_end_marker cfg) stripped_line then
    append_text line (set_markers false (found_start_marker st) true st)
  else append_text line st.

Definition str_of_Z (n : Z) : string := NilZero.string_of_int (Z.to_int n).

(** A number padded with zeros to [w] digits. *)
Definition zero_pad (w : nat) (n : Z) : string :=
  let s := str_of_Z n in
  String.concat EmptyString (repeat "0" (w - String.length s)) +:+ s.

(** [str(v)] as an f-string formats it. *)
Definition pystr (v : pyval) : string :=
  match v with
  | PNone => "None"
  | PStr s => s
  | PInt n => str_of_Z n
  | PDate y m d => zero_pad 4 y +:+ "-" +:+ zero_pad 2 m +:+ "-" +:+ zero_pad 2 d
  end.

(** [sub in s] *)
Fixpoint contains (sub s : string) : bool :=
  String.prefix sub s
  || match s with
     | EmptyString => false
     | String _ s' => contains sub s'
     end.

(** The body and its warnings, after the loop. *)
Definition nyt_post_text (st : nyt_state) : nyt_state :=
  match text_lines st with
  | _ :: _ => set_field "body" (PStr (Py.strip (Py.join Py.NL (text_lines st)))) st
  | [] =>
      let key_for_warn := pystr (get (data st) "nyt_internal_id") in
      if found_start_marker st && found_end_marker st then
        warn ("Text block markers found but no text content between them for key '"
              +:+ key_for_warn +:+ "'")
          (set_field "body" (PStr EmptyString) st)
      else if found_start_marker st && negb (found_end_marker st) then
        let st := warn ("Text block START marker found but NO END marker for key '"
                        +:+ key_for_warn +:+ "'") st in
        let body := Py.strip (Py.join Py.NL (text_lines st)) in
        let st := set_field "body" (PStr body) st in
        if Py.truthy body
        then warn ("Partial text captured for key '" +:+ key_for_warn
                   +:+ "' due to missing end marker.") st
        else st
      else if negb (found_start_marker st) && found_end_marker st then
        warn ("Text block END marker found but NO START marker for key '"
              +:+ key_for_warn +:+ "'") st
      else st
  end.

(** [article_block.strip().split('\n')] *)
Definition nyt_lines (article_block : string) : list string :=
  Py.split_lines (Py.strip article_block).

Definition nyt_scan (cfg : config) (filepath : string) (lines : list string)
    : nyt_state :=
  foldl (nyt_line cfg filepath) (nyt_initial filepath) lines.

Definition parse_nyt_article (article_block filepath : string) (cfg : config)
    : option record * option bad_key * list string :=
  let st := nyt_post_text (nyt_scan cfg filepath (nyt_lines article_block)) in
  match get (data st) "nyt_internal_id" with
  | PNone =>
      let warnings :=
        if negb (existsb (contains "Could not parse value for field 'Key'") (warnings st))
        then warnings st ++ ["No 'Key:' line found in this article block."]
        else warnings st in
      (None, None, warnings)
  | _ => (Some (data st), bad_key_info st, warnings st)
  end.

(** *** Vocabulary for the lines of a block

    These tests repeat the conditions of the loop on one line, so that
    statements about a block can name its [Key:] and [Date:] lines. *)

(** The line is taken by the branch [stripped_line.startswith('Key:')]. *)
Definition is_key_line (line : string) : bool :=
  Py.startswith "Key:" (Py.strip line).

(** The line is taken by the branch [stripped_line.startswith('Date:')]. *)
Definition is_date_line (line : string) : bool :=
  Py.startswith "Date:" (Py.strip line).

(** The value of a labelled line: what follows its first colon, stripped. *)
Definition line_value (line : string) : string :=
  default EmptyString (field_value line).

(** The key value is empty or fails UUID validation. *)
Definition bad_key_value (k : string) : bool :=
  negb (Py.truthy k) || negb (is_valid_uuid k).

Definition bad_key_reason (k : string) : string :=
  if Py.truthy k then "Invalid UUID" else "Empty Key".

(** A [Key:] line whose value is empty or fails UUID validation. *)
Definition is_bad_key_line (line : string) : bool :=
  is_key_line line && bad_key_value (line_value line).

(** The key and the publication date held by a parser state. *)
Definition kid (st : nyt_state) : pyval := get (data st) "nyt_internal_id".
Definition pdate (st : nyt_state) : pyval := get (data st) "publication_date".

(** The parser as the worker calls it. *)
Definition nyt_parser_func (block filepath : string) (cfg : config)
    : outcome (option record * option bad_key * list string) :=
  Returned (parse_nyt_article block filepath cfg).

(** Exactly eight digits. *)
Definition is_8_digits (s : string) : bool :=
  (String.length s =? 8)%nat && Py.forallb_str Py.isdigit s.

(** The warning that a [Date:] value adds. *)
Definition date_warnings (v : string) : list string :=
  if is_8_digits v then []
  else if Py.truthy v then
    ["Non-standard date format: '" +:+ v +:+ "'. Storing as NULL."]
  else ["Empty Date field found. Storing as NULL."].

(** The shape [dddd-dd-dd]. *)
Definition is_ymd_shape (s : string) : bool :=
  (String.length s =? 10)%nat
  && Py.forallb_str Py.isdigit (Py.take 4 s)
  && String.eqb (Py.take 1 (Py.drop 4 s)) "-"
  && Py.forallb_str Py.isdigit (Py.take 2 (Py.drop 5 s))
  && String.eqb (Py.take 1 (Py.drop 7 s)) "-"
  && Py.forallb_str Py.isdigit (Py.drop 8 s).

(** ** The file worker *)

(** *** Reading a file of unknown encoding *)

Definition ENCODING_FALLBACKS : list string := ["utf-8"; "windows-1252"; "iso-8859-1"].

(** The result of [chardet.detect]. *)
Record detection := Detection {
  det_encoding : option string;
  det_confidence : Q
}.

(** The result of opening and reading the file once. *)
Inductive read_result :=
| ReadOk (content : string)
| DecodeError            (* UnicodeDecodeError *)
| OtherError.            (* any other exception *)

(** What the worker sees of one file and of the libraries it calls:
    detection on the first 8 KB ([None] when it raises), a strict read per
    encoding, the read with UTF-8 and replacement ([None] when the file
    cannot be opened or read), the outcome of building and writing the
    Arrow table, and what a failed write leaves at the path of the file
    after the cleanup: nothing ([None]: no file was created, or [os.unlink]
    removed it) or, when [os.unlink] fails, a file, with the rows a reader
    finds in it. *)
Record file_env := FileEnv {
  detect : option detection;
  read_strict : string -> read_result;
  read_lossy : option string;
  arrow_ok : bool;
  write_ok : bool;
  fresh_uuid : string;
  left_behind : option (list record)
}.

(** The double nearest to [0.9]: the constant of [confidence > 0.9]. *)
Definition confidence_threshold : Q := 8106479329266893 # 9007199254740992.

Definition detected_encoding (d : option detection) : option string :=
  match d with
  | Some (Detection (Some enc) conf) =>
      if Py.truthy enc && negb (Qle_bool conf confidence_threshold)
      then Some enc else None
  | _ => None
  end.

Definition str_in (s : string) (l : list string) : bool :=
  existsb (String.eqb s) l.

Definition encodings_to_try (detected_encoding : option string) : list string :=
  let encodings_to_try := ["utf-8"] in
  let encodings_to_try :=
    match detected_encoding with
    | Some enc =>
        if negb (String.eqb (Py.lower enc) "utf-8")
        then encodings_to_try ++ [enc] else encodings_to_try
    | None => encodings_to_try
    end in
  foldl (fun acc enc =>
           if negb (str_in (Py.lower enc) (map Py.lower acc))
           then acc ++ [enc] else acc)
        encodings_to_try ENCODING_FALLBACKS.

(** The strict attempts in order: the encoding that succeeded first and the
    text it gave. *)
Fixpoint read_strict_first (env : file_env) (encs : list string)
    : option (string * string) :=
  match encs with
  | [] => None
  | enc :: encs' =>
      match read_strict env enc with
      | ReadOk content => Some (enc, content)
      | _ => read_strict_first env encs'
      end
  end.

(** Step 1 of the worker: the text of the file, or [None]. *)
Definition read_content (env : file_env) : option string :=
  match read_strict_first env (encodings_to_try (detected_encoding (detect env))) with
  | Some (_, content) => Some content
  | None => read_lossy env
  end.

(** *** Splitting and parsing *)

(** [chunks[2:-1]] *)
Definition slice_2_m1 {A} (chunks : list A) : list A :=
  drop 2 (take (length chunks - 1) chunks).

Definition nonblank (c : string) : bool := Py.truthy (Py.strip c).

(** The article chunks of a ProQuest file, from the fragments of the split. *)
Definition article_chunks (chunks : list string) : list string :=
  if (3 <? length chunks)%nat then slice_2_m1 chunks
  else filter (fun c => nonblank c = true) chunks.

(** Truthiness of a dictionary. *)
Definition dict_truthy (d : record) : bool := negb (bool_decide (d = ∅)).

(** One iteration of the loop over ProQuest chunks. *)
Definition proquest_step (parser_func : string -> outcome record)
    (file_path : string) (target_cols : list string)
    (parsed_articles : list record) (article_text : string) : list record :=
  let article_text := Py.strip article_text in
  if negb (Py.truthy article_text) then parsed_articles
  else match parser_func article_text with
       | Returned metadata =>
           if dict_truthy metadata then
             let metadata :=
               if str_in "file_path" target_cols
               then <["file_path" := PStr file_path]> metadata else metadata in
             parsed_articles ++ [project target_cols metadata]
           else parsed_articles
       | Raised => parsed_articles
       end.

Definition nyt_result : Type := option record * option bad_key * list string.

(** One iteration of the loop over NYT blocks, on the pair of
    [parsed_articles] and [all_bad_keys_in_file]. *)
Definition nyt_step (parser_func : string -> string -> config -> outcome nyt_result)
    (file_path : string) (cfg : config) (target_cols : list string)
    (acc : list record * list bad_key) (article_block : string)
    : list record * list bad_key :=
  let block_content := Py.strip article_block in
  if negb (Py.truthy block_content) then acc
  else match parser_func block_content file_path cfg with
       | Returned (Some parsed_data, bad_key_info, _) =>
           if dict_truthy parsed_data then
             (acc.1 ++ [project target_cols parsed_data],
              match bad_key_info with
              | Some b => acc.2 ++ [b]
              | None => acc.2
              end)
           else acc
       | Returned (None, _, _) => acc
       | Raised => acc
       end.

(** *** Preparing the rows for the columnar file *)

Definition strptime_pattern : string :=
  "(\d\d\d\d)-(1[0-2]|0[1-9]|[1-9])-(3[01]|[12]\d|0[1-9]|[1-9]| [1-9])".

Definition int_of_digits (s : string) : Z :=
  Z.of_nat (fst (ReSyntax.parse_nat 0 (Py.strip s))).

Definition is_leap (y : Z) : bool :=
  (y mod 4 =? 0) && (negb (y mod 100 =? 0) || (y mod 400 =? 0)).

Definition days_in_month (y m : Z) : Z :=
  if m =? 2 then (if is_leap y then 29 else 28)
  else if (m =? 4) || (m =? 6) || (m =? 9) || (m =? 11) then 30
  else 31.

(** [datetime.datetime.strptime(s, '%Y-%m-%d').date()]; [None] stands for
    [ValueError]. *)
Definition strptime_date (s : string) : option (Z * Z * Z) :=
  match Re.match_ (Re.Flags false false true) (RePat.compile strptime_pattern) s with
  | Some m =>
      if negb (Re.m_end m =? String.length s)%nat then None
      else
        let y := int_of_digits (Re.group m 1) in
        let mo := int_of_digits (Re.group m 2) in
        let d := int_of_digits (Re.group m 3) in
        if (1 <=? y) && (1 <=? d) && (d <=? days_in_month y mo)
        then Some (y, mo, d) else None
  | None => None
  end.

(** A value as the columnar file holds it. *)
Definition coerce_value (file_type col : string) (v : pyval) : pyval :=
  if String.eqb file_type "nyt" && String.eqb col "publication_date" then
    match v with
    | PStr date_str =>
        match strptime_date date_str with
        | Some (y, m, d) => PDate y m d
        | None => PNone
        end
    | _ => PNone
    end
  else v.

Definition coerce_row (file_type : string) (target_cols : list string)
    (article : record) : record :=
  foldl (fun acc col => <[col := coerce_value file_type col (get article col)]> acc)
        ∅ target_cols.

(** [pa.Table.from_pydict(data_for_arrow)], where [data_for_arrow] has one
    list per target column: the rows of the table.  A table without columns
    has no rows. *)
Definition from_pydict (file_type : string) (target_cols : list string)
    (parsed_articles : list record) : list record :=
  match target_cols with
  | [] => []
  | _ => map (coerce_row file_type target_cols) parsed_articles
  end.

(** The files of the temporary directory: path to rows. *)
Abbreviation artifacts := (gmap string (list record)).

(** [os.path.join(temp_dir, temp_filename)] for a relative file name. *)
Definition path_join (temp_dir temp_filename : string) : string :=
  match Py.last_char temp_dir with
  | None => temp_filename
  | Some "/"%char => temp_dir +:+ temp_filename
  | Some _ => temp_dir +:+ "/" +:+ temp_filename
  end.

Definition worker_result : Type := string * string * option (list bad_key).

Section Worker.

(** The two parsers, as the worker calls them inside [try]. *)
Variable proquest_parser : string -> outcome record.
Variable nyt_parser : string -> string -> config -> outcome nyt_result.

(** Step 2 of the worker: [parsed_articles] and [all_bad_keys_in_file];
    [None] when the worker returns [None] in this step or an exception
    reaches its outer handler. *)
Definition parse_file (content file_path file_type : string) (cfg : config)
    (proquest_cols nyt_cols : list string) : option (list record * list bad_key) :=
  if String.eqb file_type "proquest" then
    let pq_separator := default PROQUEST_SEPARATOR (proquest_separator cfg) in
    match Py.split pq_separator content with
    | None => None
    | Some chunks =>
        let article_chunks := article_chunks chunks in
        match article_chunks with
        | [] => None
        | _ =>
            Some (foldl (proquest_step proquest_parser file_path proquest_cols)
                        [] article_chunks, [])
        end
    end
  else if String.eqb file_type "nyt" then
    match Py.split (article_separator cfg) content with
    | None => None
    | Some article_blocks =>
        Some (foldl (nyt_step nyt_parser file_path cfg nyt_cols) ([], []) article_blocks)
    end
  else None.

(** [process_file_worker] on one task, with the temporary directory it
    writes to. *)
Definition process_file_worker_with (env : file_env) (fs : artifacts)
    (file_path file_type temp_dir : string) (cfg : config)
    (proquest_cols nyt_cols : list string) : option worker_result * artifacts :=
  match read_content env with
  | None => (None, fs)
  | Some content =>
      match parse_file content file_path file_type cfg proquest_cols nyt_cols with
      | None => (None, fs)
      | Some (parsed_articles, all_bad_keys_in_file) =>
          match parsed_articles with
          | [] => (None, fs)
          | _ =>
              let target_cols :=
                if String.eqb file_type "proquest" then proquest_cols else nyt_cols in
              if negb (arrow_ok env) then (None, fs)
              else
                let arrow_table := from_pydict file_type target_cols parsed_articles in
                let temp_filename := file_type +:+ "_" +:+ fresh_uuid env +:+ ".parquet" in
                let temp_filepath := path_join temp_dir temp_filename in
                if negb (write_ok env) then
                  (None, match left_behind env with
                         | Some rows => <[temp_filepath := rows]> fs
                         | None => delete temp_filepath fs
                         end)
                else (Some (temp_filepath, file_type,
                            if String.eqb file_type "nyt"
                            then Some all_bad_keys_in_file else None),
                      <[temp_filepath := arrow_table]> fs)
          end
      end
  end.

(** The pool on one task: the worker runs, and a result that is not [None]
    is collected. *)
Definition pool_step (envs : string -> file_env) (temp_dir : string) (cfg : config)
    (proquest_cols nyt_cols : list string)
    (acc : list worker_result * artifacts) (task : string * string)
    : list worker_result * artifacts :=
  match process_file_worker_with (envs task.1) acc.2 task.1 task.2 temp_dir cfg
          proquest_cols nyt_cols with
  | (Some result, fs') => (acc.1 ++ [result], fs')
  | (None, fs') => (acc.1, fs')
  end.

(** A chunk or block from which the loop of the worker keeps nothing. *)
Definition chunk_yields_nothing (chunk : string) : Prop :=
  Py.strip chunk = EmptyString
  \/ proquest_parser (Py.strip chunk) = Raised
  \/ exists metadata, proquest_parser (Py.strip chunk) = Returned metadata
                      /\ dict_truthy metadata = false.

Definition block_yields_nothing (file_path : string) (cfg : config) (block : string)
    : Prop :=
  Py.strip block = EmptyString
  \/ nyt_parser (Py.strip block) file_path cfg = Raised
  \/ exists b w, nyt_parser (Py.strip block) file_path cfg = Returned (None, b, w).

End Worker.

(** The ProQuest parser as the worker calls it. *)
Definition proquest_parser_func (text : string) : outcome record :=
  Returned (extract_metadata_from_proquest text).

Definition process_file_worker : file_env -> artifacts -> string -> string -> string ->
    config -> list string -> list string -> option worker_result * artifacts :=
  process_file_worker_with proquest_parser_func nyt_parser_func.

(** ** The destination database and the bulk load *)

Inductive format := ProQuest | NYT.

Global Instance format_eq_dec : EqDecision format.
Proof. solve_decision. Defined.

Definition other (f : format) : format :=
  match f with ProQuest => NYT | NYT => ProQuest end.

(** A table of articles: the [id] column and the other columns. *)
Abbreviation table := (list (Z * record)).

Record bad_key_row := BadKeyRow {
  bk_key : string;
  bk_filepath : string;
  bk_reason : string;
  first_detected_timestamp : Z
}.

Record database := Database {
  articles : table;                        (* loading.proquest.target_table *)
  parsed_articles : table;                 (* loading.nyt.target_table *)
  bad_keys : list bad_key_row;             (* loading.nyt.bad_keys_table *)
  temp_tables : gmap string (list record)  (* temporary tables *)
}.

(** A connection: the committed database and, inside a transaction, the
    database as the transaction sees it. *)
Record connection := Connection {
  committed : database;
  working : option database
}.

(** The statements of the bulk load. *)
Inductive stmt :=
| SCreateTemp (f : format)
| SCountTemp (f : format)
| SMaxId (f : format)
| SInsert (f : format)
| SCountTarget (f : format)
| SDropTemp (f : format)
| SCommit (f : format)
| SInsertBadKeys
| SCommitBadKeys.

(** What the load takes from its surroundings: which statements raise for
    a reason the model does not describe, the clock, and the names drawn for
    the temporary tables. *)
Record engine := Engine {
  fault : stmt -> bool;
  current_timestamp : Z;
  temp_name : format -> string
}.

(** *** Statements as state transformers that may raise *)

Definition M (A : Type) : Type := connection -> outcome A * connection.

Global Instance M_ret : MRet M := fun A a c => (Returned a, c).

Global Instance M_bind : MBind M := fun A B f m c =>
  match m c with
  | (Returned a, c') => f a c'
  | (Raised, c') => (Raised, c')
  end.

Definition raise {A} : M A := fun c => (Raised, c).

(** [try: body except Exception: handler] *)
Definition try_except {A} (body handler : M A) : M A := fun c =>
  match body c with
  | (Raised, c') => handler c'
  | r => r
  end.

Definition current (c : connection) : database :=
  default (committed c) (working c).

Definition query {A} (g : database -> A) : M A := fun c => (Returned (g (current c)), c).

Definition modify (g : database -> database) : M unit := fun c =>
  match working c with
  | Some d => (Returned tt, Connection (committed c) (Some (g d)))
  | None => (Returned tt, Connection (g (committed c)) None)
  end.

(** [conn.begin()] *)
Definition begin : M unit := fun c =>
  match working c with
  | Some _ => (Raised, c)
  | None => (Returned tt, Connection (committed c) (Some (committed c)))
  end.

(** [conn.commit()] *)
Definition commit : M unit := fun c =>
  match working c with
  | Some d => (Returned tt, Connection d None)
  | None => (Raised, c)
  end.

(** [conn.rollback()] *)
Definition rollback : M unit := fun c =>
  match working c with
  | Some _ => (Returned tt, Connection (committed c) None)
  | None => (Raised, c)
  end.

(** [duckdb.connect(db_path)] *)
Definition connect (d : database) : connection := Connection d None.

(** [conn.close()] *)
Definition close (c : connection) : database := committed c.

Definition check_fault (eng : engine) (s : stmt) : M unit :=
  if fault eng s then raise else mret tt.

Definition get_table (f : format) (d : database) : table :=
  match f with ProQuest => articles d | NYT => parsed_articles d end.

Definition set_table (f : format) (t : table) (d : database) : database :=
  match f with
  | ProQuest => Database t (parsed_articles d) (bad_keys d) (temp_tables d)
  | NYT => Database (articles d) t (bad_keys d) (temp_tables d)
  end.

Definition set_temp (name : string) (rows : option (list record)) (d : database)
    : database :=
  Database (articles d) (parsed_articles d) (bad_keys d)
    (match rows with
     | Some r => <[name := r]> (temp_tables d)
     | None => delete name (temp_tables d)
     end).

Definition set_bad_keys (b : list bad_key_row) (d : database) : database :=
  Database (articles d) (parsed_articles d) b (temp_tables d).

(** [read_parquet(files, union_by_name=True)]: the rows of the files, or
    [None] when one of them cannot be read. *)
Definition read_parquet (fs : artifacts) (files : list string) : option (list record) :=
  (fun parts => List.concat parts) <$> mapM (fun p => fs !! p) files.

(** [SELECT COALESCE(MAX(id), 0) FROM t] *)
Definition max_id (t : table) : Z :=
  match t with
  | [] => 0
  | (i, _) :: t' => foldl Z.max i (map fst t')
  end.

Definition UBIGINT_MAX : Z := 2 ^ 64 - 1.

Definition BIGINT_MAX : Z := 2 ^ 63 - 1.

(** [{max_id_current} + row_number() OVER ()] over [n] rows: the number
    written into the statement is a BIGINT constant when it fits 64 signed
    bits, and the sum with the BIGINT row number is then computed in 64
    signed bits and raises when it overflows; a larger number is a HUGEINT
    constant, whose sums cannot overflow here. *)
Definition id_sum_ok (max_id_current : Z) (n : nat) : bool :=
  (BIGINT_MAX <? max_id_current) || (max_id_current + Z.of_nat n <=? BIGINT_MAX).

(** [SELECT max_id_current + row_number() OVER () AS id, cols FROM temp] *)
Definition assign_ids (max_id_current : Z) (rows : list record) : table :=
  imap (fun i r => (max_id_current + Z.of_nat (S i), r)) rows.

(** The checks of the [id UBIGINT PRIMARY KEY] column on inserted rows. *)
Definition insert_allowed (t new : table) : bool :=
  forallb (fun '(i, _) => (0 <=? i) && (i <=? UBIGINT_MAX)
                          && negb (bool_decide (i ∈ map fst t))) new
  && bool_decide (NoDup (map fst new)).

Definition create_temp (fs : artifacts) (name : string) (files : list string) : M unit :=
  fun c =>
  match temp_tables (current c) !! name, read_parquet fs files with
  | None, Some rows => modify (set_temp name (Some rows)) c
  | _, _ => (Raised, c)
  end.

Definition insert_from_temp (f : format) (name : string) (max_id_current : Z) : M unit :=
  fun c =>
  match temp_tables (current c) !! name with
  | Some rows =>
      let new := assign_ids max_id_current rows in
      let t := get_table f (current c) in
      if id_sum_ok max_id_current (length rows) && insert_allowed t new
      then modify (set_table f (t ++ new)) c
      else (Raised, c)
  | None => (Raised, c)
  end.

(** The body of the [try] of one format group. *)
Definition load_body (eng : engine) (fs : artifacts) (f : format)
    (files : list string) : M unit :=
  let temp := temp_name eng f in
  check_fault eng (SCreateTemp f);;
  create_temp fs temp files;;
  check_fault eng (SCountTemp f);;
  temp_count ← query (fun d => length (default [] (temp_tables d !! temp)));
  check_fault eng (SMaxId f);;
  max_id_current ← query (fun d => max_id (get_table f d));
  check_fault eng (SInsert f);;
  insert_from_temp f temp max_id_current;;
  check_fault eng (SCountTarget f);;
  final_count ← query (fun d => length (get_table f d));
  check_fault eng (SDropTemp f);;
  modify (set_temp temp None);;
  check_fault eng (SCommit f);;
  commit.

(** One format group: the transaction, and whether [overall_success] keeps
    its value. *)
Definition load_format (eng : engine) (fs : artifacts) (f : format)
    (files : list string) : M bool :=
  match files with
  | [] => mret true
  | _ =>
      begin;;
      try_except (load_body eng fs f files;; mret true)
                 (rollback;; mret false)
  end.

Definition triple_of (r : bad_key_row) : bad_key :=
  (bk_key r, bk_filepath r, bk_reason r).

(** [INSERT OR IGNORE INTO bad_keys (key, filepath, reason) VALUES (?, ?, ?)]
    under [UNIQUE (key, filepath, reason)]. *)
Definition insert_or_ignore (now : Z) (rows : list bad_key_row) (b : bad_key)
    : list bad_key_row :=
  if bool_decide (b ∈ map triple_of rows) then rows
  else rows ++ [BadKeyRow b.1.1 b.1.2 b.2 now].

Definition executemany_bad_keys (now : Z) (bad_keys_tuples : list bad_key)
    (d : database) : database :=
  set_bad_keys (foldl (insert_or_ignore now) (bad_keys d) bad_keys_tuples) d.

(** The bad-key pass. *)
Definition persist_bad_keys (eng : engine) (all_bad_keys : list bad_key) : M unit :=
  match all_bad_keys with
  | [] => mret tt
  | _ =>
      begin;;
      try_except
        (check_fault eng SInsertBadKeys;;
         modify (executemany_bad_keys (current_timestamp eng) all_bad_keys);;
         check_fault eng SCommitBadKeys;;
         commit)
        rollback
  end.

(** *** What a transaction leaves behind

    The result of one format group and of the bad-key pass as functions of
    the database at their start; [load_format_result] and
    [persist_bad_keys_result] below show that the transactions compute
    them. *)

Definition format_stmts (f : format) : list stmt :=
  [SCreateTemp f; SCountTemp f; SMaxId f; SInsert f; SCountTarget f;
   SDropTemp f; SCommit f].

(** The target table after a committed load, or [None] when the
    transaction raises. *)
Definition load_outcome (eng : engine) (fs : artifacts) (f : format)
    (files : list string) (d : database) : option table :=
  if existsb (fault eng) (format_stmts f) then None
  else match temp_tables d !! temp_name eng f, read_parquet fs files with
       | None, Some rows =>
           let t := get_table f d in
           let new := assign_ids (max_id t) rows in
           if id_sum_ok (max_id t) (length rows) && insert_allowed t new
           then Some (t ++ new) else None
       | _, _ => None
       end.

Definition load_result (eng : engine) (fs : artifacts) (f : format)
    (files : list string) (d : database) : bool * database :=
  match files with
  | [] => (true, d)
  | _ =>
      match load_outcome eng fs f files d with
      | Some t' => (true, set_table f t' d)
      | None => (false, d)
      end
  end.

Definition persist_result (eng : engine) (all_bad_keys : list bad_key)
    (d : database) : database :=
  match all_bad_keys with
  | [] => d
  | _ =>
      if fault eng SInsertBadKeys || fault eng SCommitBadKeys then d
      else executemany_bad_keys (current_timestamp eng) all_bad_keys d
  end.

(** The file type of a format. *)
Definition format_name (f : format) : string :=
  match f with ProQuest => "proquest" | NYT => "nyt" end.

Definition files_of (ftype : string) (results : list worker_result) : list string :=
  map (fun res => res.1.1) (filter (fun res => res.1.2 = ftype) results).

Definition bad_keys_of (results : list worker_result) : list bad_key :=
  List.concat (map (fun res =>
                 if String.eqb res.1.2 "nyt" then default [] res.2 else [])
              results).

(** Step 4 of [load_articles_parallel]: the bulk load of the intermediate
    results; the value is [overall_success]. *)
Definition bulk_load (eng : engine) (fs : artifacts)
    (intermediate_results : list worker_result) : M bool :=
  let proquest_files := files_of "proquest" intermediate_results in
  let nyt_files := files_of "nyt" intermediate_results in
  let all_bad_keys := bad_keys_of intermediate_results in
  ok_proquest ← load_format eng fs ProQuest proquest_files;
  ok_nyt ← load_format eng fs NYT nyt_files;
  persist_bad_keys eng all_bad_keys;;
  mret (ok_proquest && ok_nyt).

(** The pool: every task is run by the worker; the results that are not
    [None] are collected, in the order in which they complete. *)
Definition run_workers (envs : string -> file_env) (temp_dir : string) (cfg : config)
    (proquest_cols nyt_cols : list string) (tasks : list (string * string))
    : list worker_result * artifacts :=
  foldl (pool_step proquest_parser_func nyt_parser_func envs temp_dir cfg
           proquest_cols nyt_cols)
        ([], ∅) tasks.

Definition not_id (col : string) : bool := negb (String.eqb (Py.lower col) "id").

(** [load_articles_parallel], from the list of files it has identified:
    [cols] are the columns of the two target tables as the catalog gives
    them ([None] when the catalog cannot be read). *)
Definition load_articles_parallel (eng : engine) (envs : string -> file_env)
    (temp_dir : string) (cfg : config) (cols : option (list string * list string))
    (files_to_process : list (string * string)) (db : database)
    : bool * database :=
  match files_to_process with
  | [] => (true, db)
  | _ =>
      match cols with
      | Some (proquest_cols_all, nyt_cols_all) =>
          match proquest_cols_all, nyt_cols_all with
          | _ :: _, _ :: _ =>
              let proquest_cols_for_worker := filter (fun col => not_id col = true) proquest_cols_all in
              let nyt_cols_for_worker := filter (fun col => not_id col = true) nyt_cols_all in
              let '(intermediate_results, fs) :=
                run_workers envs temp_dir cfg proquest_cols_for_worker
                  nyt_cols_for_worker files_to_process in
              match intermediate_results with
              | [] => (true, db)
              | _ =>
                  match bulk_load eng fs intermediate_results (connect db) with
                  | (Returned overall_success, conn) => (overall_success, close conn)
                  | (Raised, conn) => (false, close conn)
                  end
              end
          | _, _ => (false, db)
          end
      | None => (false, db)
      end
  end.

(** ** Vocabulary and concrete inputs of the statements *)

(** The flags of the pattern of [strptime]. *)
Definition fl_I : Re.flags := Re.Flags false false true.

(** The part of the pattern of [strptime] for [%m]. *)
Definition month_regex : Re.regex :=
  Re.Alt (Re.Seq (Re.Chr "1") (Re.CSet false [Re.CRange "0" "2"]))
    (Re.Alt (Re.Seq (Re.Chr "0") (Re.CSet false [Re.CRange "1" "9"]))
       (Re.CSet false [Re.CRange "1" "9"])).

(** The part of the pattern of [strptime] for [%d]. *)
Definition day_regex : Re.regex :=
  Re.Alt (Re.Seq (Re.Chr "3") (Re.CSet false [Re.CChar "0"; Re.CChar "1"]))
    (Re.Alt (Re.Seq (Re.CSet false [Re.CChar "1"; Re.CChar "2"])
               (Re.CSet false [Re.CDigit]))
       (Re.Alt (Re.Seq (Re.Chr "0") (Re.CSet false [Re.CRange "1" "9"]))
          (Re.Alt (Re.CSet false [Re.CRange "1" "9"])
             (Re.Seq (Re.Chr " ") (Re.CSet false [Re.CRange "1" "9"]))))).

(** The number that two digits write. *)
Definition two_digits (a b : ascii) : Z :=
  int_of_digits (String a (String b EmptyString)).


Definition lines_text (l : list string) : string := Py.join Py.NL l.







Definition title_scenario_chunk : string :=
  lines_text [ "Title: Soldiers Clash [World]"; "Full text: Two were killed..." ].

Definition nyt_example_block : string :=
  lines_text [ "Key: not-a-uuid"; "Headline: X"; "Date: 20120101";
               ">>>>>>>>>>>>>>>>>>>>>>"; "Two were killed."; "<<<<<<<<<<<<<<<<<<<<<<" ].

Definition nyt_example_post : list string :=
  [ "Headline: X"; "Date: 20120101";
    ">>>>>>>>>>>>>>>>>>>>>>"; "Two were killed."; "<<<<<<<<<<<<<<<<<<<<<<" ].

(** A block whose bad [Key:] line is followed by a valid one. *)
Definition nyt_two_key_block : string :=
  lines_text [ "Key: not-a-uuid"; "Key: 123e4567-e89b-12d3-a456-426614174000";
               "Headline: X" ].

(** A block dated on a leap day. *)
Definition leap_day_block : string :=
  lines_text [ "Key: 12345678-1234-5678-1234-567812345678"; "Headline: X";
               "Date: 20120229"; ">>>>>>>>>>>>>>>>>>>>>>"; "Two were killed.";
               "<<<<<<<<<<<<<<<<<<<<<<" ].

(** The same block dated on a day that February does not have. *)
Definition impossible_date_block : string :=
  lines_text [ "Key: 12345678-1234-5678-1234-567812345678"; "Headline: X";
               "Date: 20120230"; ">>>>>>>>>>>>>>>>>>>>>>"; "Two were killed.";
               "<<<<<<<<<<<<<<<<<<<<<<" ].

(** A file that holds this block alone. *)
Definition impossible_date_env : file_env :=
  FileEnv None (fun enc => if String.eqb enc "utf-8" then ReadOk impossible_date_block
                           else DecodeError)
    (Some impossible_date_block) true true "0004" None.

Definition date_cols : list string := [ "headline"; "publication_date" ].

(** A ProQuest file with a header, two articles and a footer. *)
Definition proquest_example_content : string :=
  lines_text [ "ProQuest export"; "Document 1 of 2"; "Table of contents";
               "Document A"; "Title: Soldiers Clash [World]";
               "Full text: Two were killed."; "";
               "Document B"; "Title: Talks Resume"; "Abstract: Talks.";
               "Document end"; "Contact ProQuest" ].

(** An NYT file whose blocks have no [Key:] line. *)
Definition keyless_content : string :=
  lines_text [ "Headline: A"; "Date: 20120101";
               "---------------------------------------------------------------";
               "Headline: B" ].

Definition keyless_env : file_env :=
  FileEnv None (fun enc => if String.eqb enc "utf-8" then ReadOk keyless_content
                           else DecodeError)
    (Some keyless_content) true true "0001" None.

(** A load of two files, one of each format, into a database that holds
    one NYT article. *)
Definition row_of (k v : string) : record := {[ k := PStr v ]}.

Definition example_fs : artifacts :=
  {[ "tmp/proquest_1.parquet" := [row_of "title" "Soldiers Clash"];
     "tmp/nyt_1.parquet" := [row_of "headline" "X"; row_of "headline" "Y"] ]}.

Definition example_results : list worker_result :=
  [ ("tmp/proquest_1.parquet", "proquest", None);
    ("tmp/nyt_1.parquet", "nyt", Some [("not-a-uuid", "nyt_2012.txt", "Invalid UUID")]) ].

Definition example_db : database :=
  Database [] [(5, row_of "headline" "W")] [] ∅.

Definition temp_names (f : format) : string :=
  match f with ProQuest => "temp_proquest_load_1" | NYT => "temp_nyt_load_1" end.

Definition sound_engine : engine := Engine (fun _ => false) 100 temp_names.

(** The insert of the ProQuest group raises. *)
Definition faulty_engine : engine :=
  Engine (fun s => match s with SInsert ProQuest => true | _ => false end)
    100 temp_names.

(** The database of the example after an earlier load of the same NYT file. *)
Definition reloaded_db : database :=
  Database [] [(5, row_of "headline" "W")]
    [BadKeyRow "not-a-uuid" "nyt_2012.txt" "Invalid UUID" 7] ∅.

(** ** Vocabulary and concrete inputs of the further facts *)

(** The line is taken by the branch of [label], one of [Headline:] and
    [Countries:]. *)
Definition is_label_line (label line : string) : bool :=
  Py.startswith label (Py.strip line).

(** The labels that fill a field with the value of their line, and the
    fields they fill. *)
Definition plain_labels : list (string * string) :=
  [ ("Headline:", "headline"); ("Countries:", "nyt_country_codes") ].

(** The columns the parser never fills. *)
Definition reserved_columns : list string :=
  [ "format_note"; "nyt_source_info"; "nyt_svm_score"; "factiva_key";
    "factiva_word_count"; "factiva_source_name"; "factiva_language";
    "factiva_document_type"; "factiva_region"; "factiva_industry";
    "factiva_subject"; "factiva_company_codes"; "factiva_other_metadata" ].

(** The columns the parser may fill. *)
Definition filled_columns : list string :=
  [ "headline"; "publication_date"; "nyt_internal_id"; "nyt_country_codes"; "body" ].

Definition nyt_columns (fp : string) : gset string := dom (nyt_initial_data fp).

(** The line is skipped by [if not stripped_line: continue]. *)
Definition is_blank_line (line : string) : bool :=
  negb (Py.truthy (Py.strip line)).

(** The line is taken by one of the four labelled branches. *)
Definition is_labelled_line (line : string) : bool :=
  let s := Py.strip line in
  Py.startswith "Key:" s || Py.startswith "Headline:" s
  || Py.startswith "Date:" s || Py.startswith "Countries:" s.

(** The line is taken by the branch of the start marker. *)
Definition is_start_line (cfg : config) (line : string) : bool :=
  negb (is_blank_line line) && negb (is_labelled_line line)
  && Py.startswith (text_start_marker cfg) (Py.strip line).

(** The line is taken by the branch of the end marker. *)
Definition is_end_line (cfg : config) (line : string) : bool :=
  negb (is_blank_line line) && negb (is_labelled_line line)
  && negb (Py.startswith (text_start_marker cfg) (Py.strip line))
  && Py.startswith (text_end_marker cfg) (Py.strip line).

(** The lines the loop appends while it is inside the text block. *)
Definition kept_lines (cfg : config) (ls : list string) : list string :=
  filter (fun l => is_blank_line l = false /\ is_start_line cfg l = false) ls.

(** The part of the state that the text extraction reads and writes. *)
Definition text_part (st : nyt_state) : bool * list string * bool * bool :=
  (in_text_block st, text_lines st, found_start_marker st, found_end_marker st).

(** The warning of the branch of a missing end marker that reports partial
    text. *)
Definition is_partial_text_warning (w : string) : bool :=
  Py.startswith "Partial text captured for key '" w.

(** The block has a [Key:] line. *)
Definition has_key_line (block : string) : bool :=
  existsb is_key_line (nyt_lines block).

(** The block has a [Key:] line whose value is empty or no UUID. *)
Definition has_bad_key_line (block : string) : bool :=
  existsb is_bad_key_line (nyt_lines block).

(** The columns of the file type. *)
Definition target_cols_of (file_type : string) (proquest_cols nyt_cols : list string)
    : list string :=
  if String.eqb file_type "proquest" then proquest_cols else nyt_cols.

(** The column of a row that names its source file. *)
Definition path_column (file_type : string) : string :=
  if String.eqb file_type "proquest" then "file_path" else "source_filepath".

(** The database [d'] holds everything [d] holds, in the same place: rows
    were only added at the end of the three tables. *)
Definition extends (d d' : database) : Prop :=
  articles d `prefix_of` articles d'
  /\ parsed_articles d `prefix_of` parsed_articles d'
  /\ bad_keys d `prefix_of` bad_keys d'
  /\ temp_tables d' = temp_tables d.

(** The constraints of the three tables: [id UBIGINT PRIMARY KEY] on the two
    article tables and [UNIQUE (key, filepath, reason)] on the bad keys. *)
Definition constraints_hold (d : database) : Prop :=
  (forall f, NoDup (get_table f d).*1
             /\ Forall (fun i => 0 <= i <= UBIGINT_MAX) (get_table f d).*1)
  /\ NoDup (triple_of <$> bad_keys d).

(** A hexadecimal digit, as [int(_, 16)] reads it. *)
Definition is_hex_digit (c : ascii) : bool :=
  match hex_val c with Some _ => true | None => false end.

(** ** Configuration merging ([config.py])
    A configuration value is a dictionary or something else; what is no
    dictionary is kept as the text that stands for it.  A dictionary is the
    list of its items in insertion order.  The values are trees here:
    [merge_config] is described by the tree that [target] stands for
    afterwards, which is what the code computes when no dictionary of
    [target] is shared; the merge on dictionaries as objects of a store,
    which follows the code in changing [target] in place, comes after. *)

#[warnings="-register-all"] Inductive cvalue :=
| CScalar (v : string)
| CDict (items : list (string * cvalue)).

Abbreviation cdict := (list (string * cvalue)).

(** [d.get(key)] *)
Fixpoint dict_get (key : string) (d : cdict) : option cvalue :=
  match d with
  | [] => None
  | (k, x) :: d' => if String.eqb k key then Some x else dict_get key d'
  end.

(** [d[key] = v]: an existing key keeps its place, a new one goes last. *)
Fixpoint dict_set (key : string) (v : cvalue) (d : cdict) : cdict :=
  match d with
  | [] => [(key, v)]
  | (k, x) :: d' =>
      if String.eqb k key then (k, v) :: d' else (k, x) :: dict_set key v d'
  end.

(** [merge_config(target, source)], as the dictionary [target] is afterwards;
    [source] is the dictionary [CDict items]. *)
Fixpoint merge_value (target : cdict) (source : cvalue) {struct source} : cdict :=
  match source with
  | CScalar _ => target
  | CDict items =>
      (fix loop (items : cdict) (target : cdict) {struct items} : cdict :=
         match items with
         | [] => target
         | (key, value) :: rest =>
             loop rest
               match value, dict_get key target with
               | CDict _, Some (CDict sub) =>
                   dict_set key (CDict (merge_value sub value)) target
               | _, _ => dict_set key value target
               end
         end) items target
  end.

Definition merge_config (target source : cdict) : cdict :=
  merge_value target (CDict source).

(** One iteration of the loop of [merge_config]. *)
Definition merge_item (target : cdict) (key : string) (value : cvalue) : cdict :=
  match value, dict_get key target with
  | CDict sv, Some (CDict sub) => dict_set key (CDict (merge_config sub sv)) target
  | _, _ => dict_set key value target
  end.

(** The keys of a dictionary, in order. *)
Definition keys (d : cdict) : list string := map fst d.

(** Keys are unique, in the dictionary and in every dictionary inside it. *)
Fixpoint keys_unique (v : cvalue) : bool :=
  match v with
  | CScalar _ => true
  | CDict items =>
      bool_decide (NoDup (map fst items))
      && (fix all (items : cdict) : bool :=
            match items with
            | [] => true
            | (_, x) :: rest => keys_unique x && all rest
            end) items
  end.

(** [config[k1][k2]...]: the value at the end of a path of keys. *)
Fixpoint lookup_path (path : list string) (v : cvalue) : option cvalue :=
  match path with
  | [] => Some v
  | k :: path' =>
      match v with
      | CDict items =>
          match dict_get k items with
          | Some x => lookup_path path' x
          | None => None
          end
      | CScalar _ => None
      end
  end.

(** The source says nothing about a path: going along the path, it lacks a
    key before the path ends. *)
Fixpoint silent_on (path : list string) (v : cvalue) : bool :=
  match path, v with
  | k :: path', CDict items =>
      match dict_get k items with
      | None => true
      | Some x => silent_on path' x
      end
  | _, _ => false
  end.

(** ** Configuration merging on dictionaries as objects
    [merge_config] changes the dictionary [target] in place, and the
    dictionaries inside it.  A dictionary is an object of the store, named
    by its address; a value is a reference to a dictionary or something
    else, kept as the text that stands for it. *)

Inductive hvalue :=
| HScalar (v : string)
| HRef (a : nat).

Abbreviation hdict := (list (string * hvalue)).

Abbreviation heap := (gmap nat hdict).

(** [d.get(key)] *)
Fixpoint hdict_get (key : string) (d : hdict) : option hvalue :=
  match d with
  | [] => None
  | (k, x) :: d' => if String.eqb k key then Some x else hdict_get key d'
  end.

(** [d[key] = v]: an existing key keeps its place, a new one goes last. *)
Fixpoint hdict_set (key : string) (v : hvalue) (d : hdict) : hdict :=
  match d with
  | [] => [(key, v)]
  | (k, x) :: d' =>
      if String.eqb k key then (k, v) :: d' else (k, x) :: hdict_set key v d'
  end.

(** A call returns with the store as it has become, or raises: the
    recursion is too deep, or the dictionary iterated over has changed
    size. *)
Inductive merge_outcome :=
| Merged (h : heap)
| MergeRaised (h : heap).

(** The loop [for key, value in source.items()]: the items are read from
    the dictionary as it is when they are reached, [size] is its size when
    the loop began, [i] the place of the next item and [merge] the
    recursive call. *)
Definition merge_loop (merge : nat -> nat -> heap -> merge_outcome)
    (target source : nat) (size : nat) : nat -> nat -> heap -> merge_outcome :=
  fix loop (todo i : nat) (h : heap) {struct todo} : merge_outcome :=
    match h !! source, h !! target with
    | Some items, Some titems =>
        if negb (length items =? size)%nat then MergeRaised h
        else
          match todo, items !! i with
          | S todo', Some (key, value) =>
              match value, hdict_get key titems with
              | HRef sv, Some (HRef tsub) =>
                  match merge tsub sv h with
                  | Merged h' => loop todo' (S i) h'
                  | MergeRaised h' => MergeRaised h'
                  end
              | _, _ => loop todo' (S i) (<[target := hdict_set key value titems]> h)
              end
          | _, _ => Merged h
          end
    | _, _ => MergeRaised h
    end.

(** [merge_config(target, source)] on the dictionaries at two addresses;
    [depth] is the number of nested calls that the interpreter allows. *)
Fixpoint merge_heap (depth : nat) (target source : nat) (h : heap) : merge_outcome :=
  match depth with
  | O => MergeRaised h
  | S depth' =>
      let size := length (default [] (h !! source)) in
      merge_loop (merge_heap depth') target source size size 0%nat h
  end.

(** The value that a reader finds, as a tree, going at most [n]
    dictionaries deep. *)
Fixpoint read (n : nat) (h : heap) (v : hvalue) : option cvalue :=
  match v with
  | HScalar s => Some (CScalar s)
  | HRef a =>
      match n with
      | O => None
      | S n' =>
          match h !! a with
          | Some items =>
              CDict <$> mapM (fun kx => pair kx.1 <$> read n' h kx.2) items
          | None => None
          end
      end
  end.

(** The dictionaries that a reader passes through, one entry for each way
    that leads to a dictionary. *)
Fixpoint reach (n : nat) (h : heap) (v : hvalue) : list nat :=
  match v, n with
  | HRef a, S n' => a :: flat_map (fun kx => reach n' h kx.2) (default [] (h !! a))
  | _, _ => []
  end.

(** The keys of a dictionary are distinct. *)
Definition heap_wf (h : heap) : Prop :=
  forall a items, h !! a = Some items -> NoDup items.*1.

(** The dictionaries reachable from [target] are each reached in one way
    only, and none of them is reachable from [source]. *)
Definition unshared (n : nat) (h : heap) (target source : nat) : Prop :=
  NoDup (reach n h (HRef target))
  /\ forall a, a ∈ reach n h (HRef target) -> a ∉ reach n h (HRef source).

(** [config[k1][k2]...] on the store: the value at the end of a path of
    keys. *)
Fixpoint heap_path (h : heap) (path : list string) (v : hvalue) : option hvalue :=
  match path with
  | [] => Some v
  | k :: path' =>
      match v with
      | HRef a =>
          match h !! a with
          | Some items =>
              match hdict_get k items with
              | Some x => heap_path h path' x
              | None => None
              end
          | None => None
          end
      | HScalar _ => None
      end
  end.

(** What a reader finds at the end of a path of keys, as a tree. *)
Definition read_path (n : nat) (h : heap) (path : list string) (v : hvalue)
    : option cvalue :=
  match heap_path h path v with
  | Some x => read (n - length path) h x
  | None => None
  end.

(** A store where the keys [proquest] and [nyt] of the target, at address
    0, hold one dictionary, as after loading a YAML file with an anchor and
    an alias; the source is at address 10. *)
Definition shared_heap : heap :=
  {[ 0%nat := [ ("proquest", HRef 1); ("nyt", HRef 1) ];
     1%nat := [ ("recursive", HScalar "True") ];
     10%nat := [ ("nyt", HRef 11) ];
     11%nat := [ ("recursive", HScalar "False") ] ]}.

(** A store where the source, at address 10, is a dictionary inside the
    target, at address 0. *)
Definition nested_heap : heap :=
  {[ 0%nat := [ ("loading", HRef 10) ];
     10%nat := [ ("loading", HRef 11) ];
     11%nat := [ ("enabled", HScalar "True") ] ]}.

(** A store where target and source, at addresses 0 and 10, each hold
    themselves. *)
Definition cyclic_heap : heap :=
  {[ 0%nat := [ ("self", HRef 0) ];
     10%nat := [ ("self", HRef 10) ] ]}.

(** The dictionaries below the item [key] of a dictionary. *)
Definition slot (n : nat) (h : heap) (items : hdict) (key : string) : list nat :=
  match hdict_get key items with
  | Some x => reach n h x
  | None => []
  end.

(** An item of [target] while the loop runs, with the tree it stands for:
    an item whose key the loop has passed holds dictionaries of the source or
    of its own place only; an item whose key it has not passed is as it was
    at the start. *)
Definition merging (n : nat) (h0 h : heap) (Rs : list nat) (titems0 : hdict)
    (passed : list string) (kx : string * hvalue) (kt : string * cvalue) : Prop :=
  kx.1 = kt.1
  /\ read n h kx.2 = Some kt.2
  /\ if decide (kx.1 ∈ passed)
     then forall a, a ∈ reach n h kx.2 -> a ∈ Rs \/ a ∈ slot n h0 titems0 kx.1
     else hdict_get kx.1 titems0 = Some kx.2
          /\ forall a, a ∈ slot n h0 titems0 kx.1 -> h !! a = h0 !! a.

(** The store while the loop runs: only dictionaries reachable from
    [target] at the start have changed, and the items of [target] stand for
    the tree [tt]. *)
Definition merge_inv (n : nat) (h0 : heap) (target source : nat) (titems0 : hdict)
    (passed : list string) (h : heap) (tt : cdict) : Prop :=
  heap_wf h
  /\ (forall a, a ∉ reach (S n) h0 (HRef target) -> h !! a = h0 !! a)
  /\ exists items,
       h !! target = Some items
       /\ Forall2 (merging n h0 h (reach (S n) h0 (HRef source)) titems0 passed)
            items tt.

(** What [merge_config] on two dictionaries of the store does when the
    dictionaries of [target] are not shared: it returns, the tree of [target]
    is then the merge of the two trees, only dictionaries of [target] have
    changed, and [target] then holds dictionaries of the two only. *)
Definition merge_heap_refines (n : nat) : Prop :=
  forall h target source t s,
    heap_wf h ->
    read n h (HRef target) = Some (CDict t) ->
    read n h (HRef source) = Some (CDict s) ->
    unshared n h target source ->
    exists h',
      merge_heap n target source h = Merged h'
      /\ heap_wf h'
      /\ read n h' (HRef target) = Some (CDict (merge_config t s))
      /\ (forall a, a ∉ reach n h (HRef target) -> h' !! a = h !! a)
      /\ (forall a, a ∈ reach n h' (HRef target) ->
            a ∈ reach n h (HRef target) \/ a ∈ reach n h (HRef source)).

Definition valid_key_line : string := "Key: 12345678-1234-5678-1234-567812345678".

(** A block with a valid key, a labelled line inside the text and a line
    after the end marker. *)
Definition nyt_valid_block : string :=
  lines_text [ valid_key_line; "Headline: X"; "Countries: US;FR"; "Date: 20120101";
               ">>>>>>>>>>>>>>>>>>>>>>"; "Two were killed."; " ";
               "Headline: inside"; "<<<<<<<<<<<<<<<<<<<<<<"; "Trailer" ].

(** A block with an end marker and no start marker. *)
Definition nyt_unopened_block : string :=
  lines_text [ valid_key_line; "Two were killed."; "<<<<<<<<<<<<<<<<<<<<<<" ].

Definition nyt_example_content : string :=
  nyt_valid_block +:+ Py.NL +:+ article_separator default_config +:+ Py.NL
  +:+ nyt_example_block.

Definition nyt_example_env : file_env :=
  FileEnv None (fun enc => if String.eqb enc "utf-8" then ReadOk nyt_example_content
                           else DecodeError)
    (Some nyt_example_content) true true "0002" None.

(** The same file on a disk that refuses the write. *)
Definition nyt_failing_env : file_env :=
  FileEnv None (fun enc => if String.eqb enc "utf-8" then ReadOk nyt_example_content
                           else DecodeError)
    (Some nyt_example_content) true false "0003" None.

(** The same, on a disk that also refuses to remove what the write left: a
    file without rows. *)
Definition nyt_partial_env : file_env :=
  FileEnv None (fun enc => if String.eqb enc "utf-8" then ReadOk nyt_example_content
                           else DecodeError)
    (Some nyt_example_content) true false "0003" (Some []).

Definition nyt_example_cols : list string :=
  [ "source_filepath"; "headline"; "publication_date"; "nyt_internal_id" ].

Definition example_target : cdict :=
  [ ("loading", CDict [ ("nyt", CDict [ ("enabled", CScalar "True");
                                        ("recursive", CScalar "True") ]) ]);
    ("system", CDict [ ("parallel_workers", CScalar "3") ]) ].

Definition example_source : cdict :=
  [ ("loading", CDict [ ("nyt", CDict [ ("recursive", CScalar "False") ]) ]);
    ("database", CDict [ ("path", CScalar "mic.duckdb") ]) ].

(** The two configurations in a store, each dictionary an object of its
    own: the target at address 0, the source at address 10. *)
Definition example_heap : heap :=
  {[ 0%nat := [ ("loading", HRef 1); ("system", HRef 3) ];
     1%nat := [ ("nyt", HRef 2) ];
     2%nat := [ ("enabled", HScalar "True"); ("recursive", HScalar "True") ];
     3%nat := [ ("parallel_workers", HScalar "3") ];
     10%nat := [ ("loading", HRef 11); ("database", HRef 13) ];
     11%nat := [ ("nyt", HRef 12) ];
     12%nat := [ ("recursive", HScalar "False") ];
     13%nat := [ ("path", HScalar "mic.duckdb") ] ]}.

(** * Part II: facts *)

(** * Facts about the string primitives *)

Lemma prefix_cons_inv (a : ascii) (p s : string) :
  String.prefix (String a p) s = true ->
  exists s', s = String a s' /\ String.prefix p s' = true.
Proof.
  destruct s as [|b s]; simpl; [discriminate|].
  destruct (ascii_dec a b) as [->|]; [|discriminate]. eauto.
Qed.

Lemma mem_char_lstrip c s :
  Py.mem_char c (Py.lstrip s) = true -> Py.mem_char c s = true.
Proof.
  induction s as [|a s IH]; simpl; [done|].
  destruct (Py.isspace a); [|done].
  intros H. rewrite (IH H). apply orb_true_r.
Qed.

Lemma mem_char_rstrip c s :
  Py.mem_char c (Py.rstrip s) = true -> Py.mem_char c s = true.
Proof.
  induction s as [|a s IH]; simpl; [done|].
  destruct (Py.rstrip s) as [|b r] eqn:E.
  - destruct (Py.isspace a); simpl; [done|].
    rewrite orb_false_r. intros ->. done.
  - simpl in *. intros H. apply orb_true_iff in H as [->|H]; [done|].
    rewrite (IH H). apply orb_true_r.
Qed.

Lemma mem_char_strip c s :
  Py.mem_char c (Py.strip s) = true -> Py.mem_char c s = true.
Proof. intros H. by apply mem_char_lstrip, mem_char_rstrip. Qed.

Lemma partition_char_mem c s :
  Py.mem_char c s = true -> is_Some (Py.partition_char c s).
Proof.
  induction s as [|a s IH]; simpl; [done|].
  destruct (Ascii.eqb a c); [eauto|]. simpl. intros H.
  destruct (IH H) as [[b r] ->]. eauto.
Qed.

Lemma rstrip_idemp s : Py.rstrip (Py.rstrip s) = Py.rstrip s.
Proof.
  induction s as [|a s IH]; simpl; [done|].
  destruct (Py.rstrip s) as [|b r] eqn:E.
  - destruct (Py.isspace a) eqn:Ea; simpl; [done|]. by rewrite Ea.
  - change (Py.rstrip (String a (String b r))) with
      (match Py.rstrip (String b r) with
       | EmptyString => if Py.isspace a then EmptyString else String a EmptyString
       | r0 => String a r0 end).
    by rewrite IH.
Qed.

Lemma rstrip_strip s : Py.rstrip (Py.strip s) = Py.strip s.
Proof. apply rstrip_idemp. Qed.

(** * Facts about the NYT parser *)

Lemma field_value_Some line :
  Py.mem_char ":"%char (Py.strip line) = true ->
  exists v, field_value line = Some v.
Proof.
  intros H. apply mem_char_strip, partition_char_mem in H as [[b r] E].
  unfold field_value, Py.split1. rewrite E. simpl. eauto.
Qed.

Lemma startswith_colon (p s : string) :
  Py.mem_char ":"%char p = true -> Py.startswith p s = true ->
  Py.mem_char ":"%char s = true.
Proof.
  unfold Py.startswith. revert s.
  induction p as [|a p IH]; intros s; simpl; [done|].
  intros Hm Hp. apply prefix_cons_inv in Hp as (s' & -> & Hp). simpl.
  destruct (Ascii.eqb a ":"%char); [done|]. simpl in *. eauto.
Qed.

Lemma labelled_line_value (label line : string) :
  Py.mem_char ":"%char label = true ->
  Py.startswith label (Py.strip line) = true ->
  field_value line = Some (line_value line).
Proof.
  intros Hl Hs. destruct (field_value_Some line) as [v Hv].
  { eapply startswith_colon; eauto. }
  unfold line_value. by rewrite Hv.
Qed.

Lemma startswith_truthy (p s : string) :
  Py.truthy p = true -> Py.startswith p s = true -> Py.truthy s = true.
Proof.
  destruct p as [|a p]; [done|]. intros _ H.
  by apply prefix_cons_inv in H as (s' & -> & _).
Qed.

Lemma startswith_first_differs (a b : ascii) (p q s : string) :
  a <> b -> Py.startswith (String a p) s = true ->
  Py.startswith (String b q) s = false.
Proof.
  intros Hab H. apply prefix_cons_inv in H as (s' & -> & _).
  unfold Py.startswith. simpl. by destruct (ascii_dec b a) as [->|].
Qed.

Lemma on_key_kid fp line k st : kid (on_key fp line k st) = PStr k.
Proof.
  unfold on_key, kid, get. repeat case_match; simpl; by rewrite lookup_insert_eq.
Qed.

Lemma on_key_bad fp line k st :
  bad_key_info (on_key fp line k st)
  = if bad_key_value k then Some (k, fp, bad_key_reason k) else bad_key_info st.
Proof.
  unfold on_key, bad_key_value, bad_key_reason.
  destruct (Py.truthy k); simpl; [|done].
  by destruct (is_valid_uuid k).
Qed.

Lemma append_text_data line st : data (append_text line st) = data st.
Proof. unfold append_text. by destruct (in_text_block st). Qed.

Lemma append_text_bad line st : bad_key_info (append_text line st) = bad_key_info st.
Proof. unfold append_text. by destruct (in_text_block st). Qed.

Lemma append_text_warnings line st : warnings (append_text line st) = warnings st.
Proof. unfold append_text. by destruct (in_text_block st). Qed.

Lemma nyt_line_key cfg fp st line :
  is_key_line line = true ->
  kid (nyt_line cfg fp st line) = PStr (line_value line)
  /\ bad_key_info (nyt_line cfg fp st line)
     = if bad_key_value (line_value line)
       then Some (line_value line, fp, bad_key_reason (line_value line))
       else bad_key_info st.
Proof.
  intros Hk. unfold is_key_line in Hk. unfold nyt_line.
  rewrite (startswith_truthy "Key:" _ eq_refl Hk). simpl. rewrite Hk.
  rewrite (labelled_line_value "Key:" line eq_refl Hk).
  unfold kid. rewrite append_text_data, append_text_bad.
  split; [apply on_key_kid | apply on_key_bad].
Qed.

Lemma on_date_kid v st : kid (on_date v st) = kid st.
Proof. unfold on_date, kid, get. repeat case_match; simpl; by rewrite lookup_insert_ne. Qed.

Lemma on_date_bad v st : bad_key_info (on_date v st) = bad_key_info st.
Proof. unfold on_date. by repeat case_match. Qed.

Lemma nyt_line_not_key cfg fp st line :
  is_key_line line = false ->
  kid (nyt_line cfg fp st line) = kid st
  /\ bad_key_info (nyt_line cfg fp st line) = bad_key_info st.
Proof.
  intros Hk. unfold is_key_line in Hk. unfold nyt_line.
  destruct (Py.truthy (Py.strip line)); simpl; [|done]. rewrite Hk.
  destruct (Py.startswith "Headline:" _) eqn:H1.
  { rewrite (labelled_line_value "Headline:" line eq_refl H1).
    unfold kid. rewrite append_text_data, append_text_bad. simpl.
    unfold get. by rewrite lookup_insert_ne. }
  destruct (Py.startswith "Date:" _) eqn:H2.
  { rewrite (labelled_line_value "Date:" line eq_refl H2).
    unfold kid. rewrite append_text_data, append_text_bad.
    split; [apply on_date_kid | apply on_date_bad]. }
  destruct (Py.startswith "Countries:" _) eqn:H3.
  { rewrite (labelled_line_value "Countries:" line eq_refl H3).
    unfold kid. rewrite append_text_data, append_text_bad. simpl.
    unfold get. by rewrite lookup_insert_ne. }
  destruct (Py.startswith (text_start_marker cfg) _); [done|].
  destruct (Py.startswith (text_end_marker cfg) _);
    unfold kid; by rewrite append_text_data, append_text_bad.
Qed.

Lemma lstrip_fixed s :
  match s with String a _ => Py.isspace a = false | EmptyString => True end ->
  Py.lstrip s = s.
Proof. destruct s as [|a s]; simpl; [done|]. by intros ->. Qed.

Lemma lstrip_head s :
  match Py.lstrip s with String a _ => Py.isspace a = false | EmptyString => True end.
Proof.
  induction s as [|a s IH]; simpl; [done|].
  destruct (Py.isspace a) eqn:E; [done|]. simpl. done.
Qed.

Lemma rstrip_head s :
  match s with String a _ => Py.isspace a = false | EmptyString => True end ->
  match Py.rstrip s with String a _ => Py.isspace a = false | EmptyString => True end.
Proof.
  destruct s as [|a s]; simpl; [done|]. intros E.
  destruct (Py.rstrip s); [by rewrite E|done].
Qed.

Lemma strip_idemp s : Py.strip (Py.strip s) = Py.strip s.
Proof.
  unfold Py.strip at 1.
  rewrite (lstrip_fixed (Py.strip s)).
  - apply rstrip_strip.
  - apply rstrip_head, lstrip_head.
Qed.

Lemma nyt_lines_strip block : nyt_lines (Py.strip block) = nyt_lines block.
Proof. unfold nyt_lines. by rewrite strip_idemp. Qed.

Lemma parse_nyt_article_strip block fp cfg :
  parse_nyt_article (Py.strip block) fp cfg = parse_nyt_article block fp cfg.
Proof. unfold parse_nyt_article. by rewrite nyt_lines_strip. Qed.

(** ** The scan of a block *)

Lemma nyt_scan_app cfg fp pre post :
  nyt_scan cfg fp (pre ++ post)
  = foldl (nyt_line cfg fp) (nyt_scan cfg fp pre) post.
Proof. unfold nyt_scan. apply foldl_app. Qed.

Lemma kid_initial fp : kid (nyt_initial fp) = PNone.
Proof. reflexivity. Qed.

Lemma fold_no_key cfg fp ls st :
  Forall (fun l => is_key_line l = false) ls ->
  kid (foldl (nyt_line cfg fp) st ls) = kid st
  /\ bad_key_info (foldl (nyt_line cfg fp) st ls) = bad_key_info st.
Proof.
  intros H. revert st. induction H as [|l ls Hl _ IH]; intros st; simpl; [done|].
  destruct (IH (nyt_line cfg fp st l)) as [-> ->].
  by apply nyt_line_not_key.
Qed.

Lemma fold_no_bad_key cfg fp ls st :
  Forall (fun l => is_bad_key_line l = false) ls ->
  bad_key_info (foldl (nyt_line cfg fp) st ls) = bad_key_info st
  /\ (kid st <> PNone -> kid (foldl (nyt_line cfg fp) st ls) <> PNone).
Proof.
  intros H. revert st. induction H as [|l ls Hl _ IH]; intros st; simpl; [done|].
  destruct (IH (nyt_line cfg fp st l)) as [-> Hk].
  unfold is_bad_key_line in Hl.
  destruct (is_key_line l) eqn:Ek.
  - destruct (nyt_line_key cfg fp st l Ek) as [E1 E2]. simpl in Hl.
    rewrite Hl in E2. split; [done|]. intros _. apply Hk. by rewrite E1.
  - destruct (nyt_line_not_key cfg fp st l Ek) as [E1 E2].
    split; [done|]. intros Hn. apply Hk. by rewrite E1.
Qed.

Lemma kid_scan_none cfg fp ls :
  kid (nyt_scan cfg fp ls) = PNone <-> Forall (fun l => is_key_line l = false) ls.
Proof.
  split.
  - induction ls as [|l ls IH] using rev_ind; [done|].
    rewrite nyt_scan_app. simpl. intros H.
    destruct (is_key_line l) eqn:Ek.
    + destruct (nyt_line_key cfg fp (nyt_scan cfg fp ls) l Ek) as [E _]. congruence.
    + destruct (nyt_line_not_key cfg fp (nyt_scan cfg fp ls) l Ek) as [E _].
      rewrite E in H. apply Forall_app. split; [by apply IH|]. by constructor.
  - intros H. unfold nyt_scan.
    destruct (fold_no_key cfg fp ls (nyt_initial fp) H) as [-> _]. done.
Qed.

Lemma post_text_kid st : kid (nyt_post_text st) = kid st.
Proof.
  unfold nyt_post_text, kid, get.
  repeat case_match; simpl; rewrite ?lookup_insert_ne; done.
Qed.

Lemma post_text_bad st : bad_key_info (nyt_post_text st) = bad_key_info st.
Proof. unfold nyt_post_text. by repeat case_match. Qed.

(** The result of the parser, from the state after the scan. *)
Lemma parse_nyt_article_result block fp cfg :
  let st := nyt_post_text (nyt_scan cfg fp (nyt_lines block)) in
  (kid st = PNone /\ exists w, parse_nyt_article block fp cfg = (None, None, w))
  \/ (kid st <> PNone
      /\ parse_nyt_article block fp cfg = (Some (data st), bad_key_info st, warnings st)).
Proof.
  intros st. unfold parse_nyt_article. fold st. fold (kid st).
  destruct (kid st) eqn:E; [left; eauto | right.. ]; done.
Qed.

Lemma kid_data_truthy st : kid st <> PNone -> dict_truthy (data st) = true.
Proof.
  unfold kid, get, dict_truthy. intros H.
  rewrite bool_decide_eq_false_2; [done|].
  intros E. rewrite E, lookup_empty in H. done.
Qed.

Lemma fold_key_str cfg fp ls st k :
  kid st = PStr k -> exists k', kid (foldl (nyt_line cfg fp) st ls) = PStr k'.
Proof.
  revert st k. induction ls as [|l ls IH]; intros st k K; simpl; [eauto|].
  destruct (is_key_line l) eqn:Ek.
  - destruct (nyt_line_key cfg fp st l Ek) as [E _]. eapply IH, E.
  - destruct (nyt_line_not_key cfg fp st l Ek) as [E _]. eapply IH.
    by rewrite E.
Qed.

(** The parser gives no record exactly for the blocks without a [Key:]
    line. *)
Lemma record_none_iff (block fp : string) (cfg : config) :
  (parse_nyt_article block fp cfg).1.1 = None
  <-> Forall (fun l => is_key_line l = false) (nyt_lines block).
Proof.
  destruct (parse_nyt_article_result block fp cfg) as [[Hk [w Hr]]|[Hk Hr]];
    rewrite post_text_kid in Hk; rewrite Hr; simpl.
  - by apply kid_scan_none in Hk.
  - split; [done|]. intros HF. by apply (kid_scan_none cfg fp) in HF.
Qed.

(** C3: for every NYT article block without any [Key:] line,
    [parse_nyt_article] returns no record and no bad-key tuple, and the
    loop of the worker leaves the parsed articles and the bad keys of the
    file as they were; a block yields no record only in this case. *)
Theorem nyt_block_without_key_line (block fp : string) (cfg : config) :
  let r := parse_nyt_article block fp cfg in
  (r.1.1 = None <-> Forall (fun l => is_key_line l = false) (nyt_lines block))
  /\ (r.1.1 = None -> r.1.2 = None)
  /\ (forall cols acc,
        r.1.1 = None -> nyt_step nyt_parser_func fp cfg cols acc block = acc).
Proof.
  intros r. subst r.
  destruct (parse_nyt_article_result block fp cfg) as [[Hk [w Hr]]|[Hk Hr]].
  - rewrite post_text_kid in Hk. apply kid_scan_none in Hk.
    split_and!.
    + rewrite Hr. simpl. done.
    + by rewrite Hr.
    + intros cols acc _. unfold nyt_step, nyt_parser_func.
      rewrite parse_nyt_article_strip, Hr. by case_match.
  - split_and!.
    + rewrite Hr. simpl. split; [done|]. intros HF.
      rewrite post_text_kid in Hk. by apply (kid_scan_none cfg fp) in HF.
    + by rewrite Hr.
    + by rewrite Hr.
Qed.

(** The key that the scan leaves in the record is the value of the last
    [Key:] line. *)
Lemma scan_kid cfg fp ls :
  kid (nyt_scan cfg fp ls)
  = match last (filter (fun l => is_key_line l = true) ls) with
    | Some found => PStr (line_value found)
    | None => PNone
    end.
Proof.
  induction ls as [|l ls IH] using rev_ind; [done|].
  rewrite nyt_scan_app, filter_app. cbn [foldl]. rewrite filter_cons, filter_nil.
  cbv beta. destruct (is_key_line l) eqn:Hk.
  - destruct (nyt_line_key cfg fp (nyt_scan cfg fp ls) l Hk) as [-> _].
    rewrite decide_True by done. by rewrite last_snoc.
  - destruct (nyt_line_not_key cfg fp (nyt_scan cfg fp ls) l Hk) as [-> _].
    rewrite decide_False by done. by rewrite app_nil_r.
Qed.

(** The value of a [Key:] line is what follows its first colon, stripped. *)
Lemma key_line_value line :
  is_key_line line = true ->
  exists label value,
    Py.partition_char ":" line = Some (label, value)
    /\ line_value line = Py.strip value.
Proof.
  intros Hk. pose proof (labelled_line_value "Key:" line eq_refl Hk) as Hv.
  unfold line_value in *. unfold field_value, Py.split1 in *.
  destruct (Py.partition_char ":" line) as [[label value]|]; [|done].
  exists label, value. split; reflexivity.
Qed.

(** C2: for every NYT article block with a [Key:] line whose value is empty
    or fails UUID validation ([line] is the last such line of the block),
    [parse_nyt_article] returns a record and the bad-key tuple
    (key, filepath, reason) of that line: the key is what follows the first
    colon of the line, stripped, and the reason is [Empty Key] for an empty
    value and [Invalid UUID] otherwise.  The record carries the raw key
    value found, which is that of the last [Key:] line of the block: the
    key of the tuple unless a later [Key:] line follows, and the value of
    that later line, valid or not, when one does.  The record is kept: the
    loop of the worker appends it, and the tuple, to what the file has
    given so far. *)
Theorem nyt_block_with_bad_key (block fp : string) (cfg : config)
    (pre post : list string) (line : string) :
  nyt_lines block = pre ++ line :: post ->
  is_bad_key_line line = true ->
  Forall (fun l => is_bad_key_line l = false) post ->
  let k := line_value line in
  exists d w,
    parse_nyt_article block fp cfg = (Some d, Some (k, fp, bad_key_reason k), w)
    /\ (exists label value,
          Py.partition_char ":" line = Some (label, value)
          /\ k = Py.strip value
          /\ (k = EmptyString \/ is_valid_uuid k = false))
    /\ (exists found label value,
          last (filter (fun l => is_key_line l = true) (nyt_lines block))
            = Some found
          /\ Py.partition_char ":" found = Some (label, value)
          /\ get d "nyt_internal_id" = PStr (Py.strip value))
    /\ (Forall (fun l => is_key_line l = false) post ->
        get d "nyt_internal_id" = PStr k)
    /\ (k = EmptyString -> bad_key_reason k = "Empty Key")
    /\ (k <> EmptyString -> bad_key_reason k = "Invalid UUID")
    /\ (forall cols acc,
          nyt_step nyt_parser_func fp cfg cols acc block
          = (acc.1 ++ [project cols d], acc.2 ++ [(k, fp, bad_key_reason k)])).
Proof.
  intros Hl Hb Hpost k.
  apply andb_true_iff in Hb as [Hkey Hbad].
  set (st1 := nyt_line cfg fp (nyt_scan cfg fp pre) line).
  set (st2 := foldl (nyt_line cfg fp) st1 post).
  assert (Hscan : nyt_scan cfg fp (nyt_lines block) = st2).
  { rewrite Hl, nyt_scan_app. done. }
  destruct (nyt_line_key cfg fp (nyt_scan cfg fp pre) line Hkey) as [K1 B1].
  fold st1 in K1, B1. fold k in K1, B1. fold k in Hbad.
  pose proof Hbad as Hbad'. rewrite Hbad in B1.
  destruct (fold_no_bad_key cfg fp post st1 Hpost) as [B2 K2]. fold st2 in B2, K2.
  assert (K3 : kid st2 <> PNone) by (apply K2; by rewrite K1).
  destruct (parse_nyt_article_result block fp cfg) as [[Hk _]|[_ Hr]].
  { rewrite post_text_kid, Hscan in Hk. done. }
  rewrite Hscan in Hr. rewrite post_text_bad, B2, B1 in Hr.
  exists (data (nyt_post_text st2)), (warnings (nyt_post_text st2)).
  assert (K4 : kid (nyt_post_text st2) <> PNone) by by rewrite post_text_kid.
  split_and!.
  - done.
  - destruct (key_line_value line Hkey) as (label & value & Hp & Hv).
    exists label, value. split_and!; [done..|].
    unfold bad_key_value in Hbad'. destruct k as [|a k']; [by left|right].
    simpl in Hbad'. by apply negb_true_iff in Hbad'.
  - pose proof (scan_kid cfg fp (nyt_lines block)) as Hs. rewrite Hscan in Hs.
    destruct (last _) as [found|] eqn:EL; [|done].
    assert (Hf : is_key_line found = true).
    { apply last_Some in EL as [keep EL].
      assert (Hin : found ∈ filter (fun l => is_key_line l = true) (nyt_lines block)).
      { rewrite EL. apply elem_of_app. right. by apply list_elem_of_singleton. }
      by apply list_elem_of_filter in Hin as [? _]. }
    destruct (key_line_value found Hf) as (label & value & Hp & Hv).
    exists found, label, value. split_and!; [done..|].
    change (kid (nyt_post_text st2) = PStr (Py.strip value)).
    by rewrite post_text_kid, Hs, Hv.
  - intros Hnk. change (kid (nyt_post_text st2) = PStr k).
    rewrite post_text_kid. subst st2.
    destruct (fold_no_key cfg fp post st1 Hnk) as [-> _]. done.
  - intros ->. done.
  - intros Hne. unfold bad_key_reason. destruct k; done.
  - intros cols acc. unfold nyt_step, nyt_parser_func.
    rewrite parse_nyt_article_strip, Hr.
    assert (Py.truthy (Py.strip block) = true) as ->.
    { destruct (Py.strip block) eqn:Eb; [|done].
      unfold nyt_lines in Hl. rewrite Eb in Hl.
      destruct pre as [|p [|p' pre]]; simpl in Hl; try done.
      injection Hl as <- _. done. }
    simpl. by rewrite (kid_data_truthy _ K4).
Qed.

Lemma last_char_rstrip s :
  match Py.last_char (Py.rstrip s) with
  | Some a => Py.isspace a = false
  | None => True
  end.
Proof.
  induction s as [|c s IH]; simpl; [done|].
  destruct (Py.rstrip s) as [|b r] eqn:E.
  - destruct (Py.isspace c) eqn:Ec; simpl; done.
  - exact IH.
Qed.

Lemma last_char_strip s a :
  Py.last_char (Py.strip s) = Some a -> Py.isspace a = false.
Proof.
  intros H. pose proof (last_char_rstrip (Py.lstrip s)) as L.
  unfold Py.strip in H. by rewrite H in L.
Qed.

Lemma date_pattern_compiled :
  RePat.compile date_pattern
  = Re.Seq Re.Bol
      (Re.Seq (ReSyntax.repeat_re 8 (Re.CSet false [Re.CDigit])) Re.Eol).
Proof. vm_compute. reflexivity. Qed.

Lemma digit_step (a : ascii) (r : string) p i g k :
  Re.rmatch Re.no_flags (Re.CSet false [Re.CDigit]) (Re.MState p (String a r) i g) k
  = if Py.isdigit a then k (Re.MState (Some a) r (S i) g) else None.
Proof.
  simpl. unfold Re.step_if. simpl. unfold Re.items_match. simpl.
  rewrite !orb_false_r. done.
Qed.

Lemma digit_step_nil p i g k :
  Re.rmatch Re.no_flags (Re.CSet false [Re.CDigit]) (Re.MState p EmptyString i g) k
  = None.
Proof. reflexivity. Qed.

Lemma rmatch_seq fl r1 r2 st k :
  Re.rmatch fl (Re.Seq r1 r2) st k
  = Re.rmatch fl r1 st (fun st' => Re.rmatch fl r2 st' k).
Proof. reflexivity. Qed.

Lemma rmatch_bol fl st k :
  Re.rmatch fl Re.Bol st k = if Re.at_bol fl st then k st else None.
Proof. reflexivity. Qed.

Lemma rmatch_eol fl st k :
  Re.rmatch fl Re.Eol st k = if Re.at_eol fl st then k st else None.
Proof. reflexivity. Qed.

Lemma not_Some_None {A} : is_Some (@None A) <-> false = true.
Proof. split; [by intros [? ?]|done]. Qed.

Ltac close_none :=
  cbn [Py.forallb_str String.length Nat.eqb andb];
  rewrite ?andb_false_r; apply not_Some_None.

Ltac digit_case v :=
  let c := fresh "c" in
  let E := fresh "E" in
  destruct v as [|c v];
  [rewrite digit_step_nil; close_none|];
  rewrite digit_step; cbn [Py.forallb_str String.length Nat.eqb];
  destruct (Py.isdigit c) eqn:E; [|close_none];
  cbn [andb].

Lemma date_match_iff v :
  (forall a, Py.last_char v = Some a -> Py.isspace a = false) ->
  is_Some (Re.match_ Re.no_flags (RePat.compile date_pattern) v)
  <-> is_8_digits v = true.
Proof.
  intros Hlast. rewrite date_pattern_compiled.
  unfold Re.match_, Re.match_at, is_8_digits.
  rewrite rmatch_seq, rmatch_bol. cbn [Re.at_bol Re.prev].
  rewrite rmatch_seq. cbn [ReSyntax.repeat_re].
  do 7 (rewrite rmatch_seq; digit_case v).
  digit_case v.
  rewrite rmatch_eol. unfold Re.at_eol. cbn [Re.rest Re.MULTILINE Re.no_flags andb].
  destruct v as [|c8 v].
  - cbn. split; [done|eauto].
  - destruct v as [|c9 v].
    + cbn [Py.last_char] in Hlast. specialize (Hlast c8 eq_refl).
      destruct (Re.is_nl c8) eqn:En.
      * apply Ascii.eqb_eq in En. subst. done.
      * cbn. apply not_Some_None.
    + cbn. apply not_Some_None.
Qed.

Lemma line_value_last_char line a :
  Py.last_char (line_value line) = Some a -> Py.isspace a = false.
Proof.
  unfold line_value, field_value.
  destruct (Py.split1 ":"%char line !! 1%nat) as [r|]; simpl; [|done].
  apply last_char_strip.
Qed.

Lemma on_date_spec v st :
  (forall a, Py.last_char v = Some a -> Py.isspace a = false) ->
  pdate (on_date v st) = (if is_8_digits v then PStr (format_date v) else PNone)
  /\ warnings (on_date v st) = warnings st ++ date_warnings v.
Proof.
  intros Hv. pose proof (date_match_iff v Hv) as Hm.
  unfold on_date, date_warnings, pdate, get.
  destruct (Re.match_ _ _ v) as [m|].
  - rewrite (proj1 Hm); [|eauto]. simpl. rewrite lookup_insert_eq, app_nil_r. done.
  - destruct (is_8_digits v).
    { destruct Hm as [_ Hm]. destruct (Hm eq_refl) as [? ?]. done. }
    destruct (Py.truthy v); simpl; rewrite lookup_insert_eq; done.
Qed.

Lemma nyt_line_date cfg fp st line :
  is_date_line line = true ->
  pdate (nyt_line cfg fp st line)
  = (if is_8_digits (line_value line) then PStr (format_date (line_value line))
     else PNone)
  /\ warnings (nyt_line cfg fp st line)
     = warnings st ++ date_warnings (line_value line).
Proof.
  intros Hd. unfold is_date_line in Hd. unfold nyt_line.
  rewrite (startswith_truthy "Date:" _ eq_refl Hd). simpl.
  rewrite (startswith_first_differs "D" "K" "ate:" "ey:" _ ltac:(done) Hd).
  rewrite (startswith_first_differs "D" "H" "ate:" "eadline:" _ ltac:(done) Hd).
  rewrite Hd. rewrite (labelled_line_value "Date:" line eq_refl Hd).
  unfold pdate. rewrite append_text_data, append_text_warnings.
  apply on_date_spec, line_value_last_char.
Qed.

Lemma on_key_pdate fp line k st : pdate (on_key fp line k st) = pdate st.
Proof.
  unfold on_key, pdate, get. repeat case_match; simpl; by rewrite lookup_insert_ne.
Qed.

Lemma nyt_line_not_date cfg fp st line :
  is_date_line line = false ->
  pdate (nyt_line cfg fp st line) = pdate st.
Proof.
  intros Hd. unfold is_date_line in Hd. unfold nyt_line.
  destruct (Py.truthy (Py.strip line)); simpl; [|done].
  destruct (Py.startswith "Key:" _) eqn:H0.
  { rewrite (labelled_line_value "Key:" line eq_refl H0).
    unfold pdate. rewrite append_text_data. apply on_key_pdate. }
  destruct (Py.startswith "Headline:" _) eqn:H1.
  { rewrite (labelled_line_value "Headline:" line eq_refl H1).
    unfold pdate. rewrite append_text_data. simpl.
    unfold get. by rewrite lookup_insert_ne. }
  rewrite Hd.
  destruct (Py.startswith "Countries:" _) eqn:H3.
  { rewrite (labelled_line_value "Countries:" line eq_refl H3).
    unfold pdate. rewrite append_text_data. simpl.
    unfold get. by rewrite lookup_insert_ne. }
  destruct (Py.startswith (text_start_marker cfg) _); [done|].
  destruct (Py.startswith (text_end_marker cfg) _);
    unfold pdate; by rewrite append_text_data.
Qed.

Lemma fold_no_date cfg fp ls st :
  Forall (fun l => is_date_line l = false) ls ->
  pdate (foldl (nyt_line cfg fp) st ls) = pdate st.
Proof.
  intros H. revert st. induction H as [|l ls Hl _ IH]; intros st; simpl; [done|].
  rewrite IH. by apply nyt_line_not_date.
Qed.

Lemma on_key_warnings fp line k st w :
  w ∈ warnings st -> w ∈ warnings (on_key fp line k st).
Proof.
  unfold on_key. repeat case_match; simpl; set_solver.
Qed.

Lemma on_date_warnings v st w :
  w ∈ warnings st -> w ∈ warnings (on_date v st).
Proof.
  unfold on_date. repeat case_match; simpl; set_solver.
Qed.

Lemma on_index_error_warnings fp s line st w :
  w ∈ warnings st -> w ∈ warnings (on_index_error fp s line st).
Proof.
  unfold on_index_error. repeat case_match; simpl; set_solver.
Qed.

Lemma nyt_line_warnings cfg fp st line w :
  w ∈ warnings st -> w ∈ warnings (nyt_line cfg fp st line).
Proof.
  intros H. unfold nyt_line.
  repeat case_match; rewrite ?append_text_warnings;
    auto using on_key_warnings, on_date_warnings, on_index_error_warnings.
Qed.

Lemma fold_warnings cfg fp ls st w :
  w ∈ warnings st -> w ∈ warnings (foldl (nyt_line cfg fp) st ls).
Proof.
  revert st. induction ls as [|l ls IH]; intros st H; simpl; [done|].
  by apply IH, nyt_line_warnings.
Qed.

Lemma post_text_warnings st w :
  w ∈ warnings st -> w ∈ warnings (nyt_post_text st).
Proof.
  unfold nyt_post_text. repeat case_match; simpl; set_solver.
Qed.

Lemma post_text_pdate st : pdate (nyt_post_text st) = pdate st.
Proof.
  unfold nyt_post_text, pdate, get.
  repeat case_match; simpl; rewrite ?lookup_insert_ne; done.
Qed.

Lemma parse_warnings block fp cfg w :
  w ∈ warnings (nyt_post_text (nyt_scan cfg fp (nyt_lines block))) ->
  w ∈ (parse_nyt_article block fp cfg).2.
Proof.
  intros H. unfold parse_nyt_article.
  repeat case_match; simpl; set_solver.
Qed.

Lemma format_date_shape v :
  is_8_digits v = true -> is_ymd_shape (format_date v) = true.
Proof.
  unfold is_8_digits. intros H. apply andb_true_iff in H as [Hlen Hd].
  do 8 (destruct v as [|?c v]; [done|]).
  destruct v; [|done]. clear Hlen.
  cbn [Py.forallb_str] in Hd.
  repeat (apply andb_true_iff in Hd as [? Hd]).
  cbv [format_date Py.take Py.drop String.append is_ymd_shape String.length
       Nat.eqb Py.forallb_str String.eqb].
  repeat match goal with H : Py.isdigit _ = true |- _ => rewrite H; clear H end.
  reflexivity.
Qed.

(** * Dates and rows as the worker stores them *)

(** Case analysis on the eight bits of a character. *)
Ltac each_char c := destruct c as [[] [] [] [] [] [] [] []].

Lemma strptime_compiled :
  RePat.compile strptime_pattern
  = Re.Seq
      (Re.Group 1
         (Re.Seq (Re.CSet false [Re.CDigit])
            (Re.Seq (Re.CSet false [Re.CDigit])
               (Re.Seq (Re.CSet false [Re.CDigit]) (Re.CSet false [Re.CDigit])))))
      (Re.Seq (Re.Chr "-")
         (Re.Seq (Re.Group 2 month_regex)
            (Re.Seq (Re.Chr "-") (Re.Group 3 day_regex)))).
Proof. vm_compute. reflexivity. Qed.

Lemma digit_cases c :
  Py.isdigit c = true ->
  c ∈ [ "0"; "1"; "2"; "3"; "4"; "5"; "6"; "7"; "8"; "9" ]%char.
Proof.
  each_char c; vm_compute; intros H; try discriminate H; clear H;
    repeat first [ by apply list_elem_of_here | apply list_elem_of_further ].
Qed.

Ltac digit_split c H :=
  let E := fresh in
  pose proof (digit_cases c H) as E; clear H;
  repeat (apply elem_of_cons in E as [->|E]); [..|by apply elem_of_nil in E].

Lemma cset_step fl neg items a r p i g k :
  Re.rmatch fl (Re.CSet neg items) (Re.MState p (String a r) i g) k
  = if xorb neg (Re.items_match fl items a)
    then k (Re.MState (Some a) r (S i) g) else None.
Proof. reflexivity. Qed.

Lemma chr_step fl c a r p i g k :
  Re.rmatch fl (Re.Chr c) (Re.MState p (String a r) i g) k
  = if Re.chr_matches fl c a then k (Re.MState (Some a) r (S i) g) else None.
Proof. reflexivity. Qed.

Lemma group_step fl n r st k :
  Re.rmatch fl (Re.Group n r) st k
  = Re.rmatch fl r st (fun st' => k (Re.set_group n st st')).
Proof. reflexivity. Qed.

Lemma digit_item fl a :
  Py.isdigit a = true -> xorb false (Re.items_match fl [Re.CDigit] a) = true.
Proof. intros H. unfold Re.items_match. simpl. by rewrite H. Qed.

(** The four digits of the year. *)
Lemma year_step c1 c2 c3 c4 r k :
  Py.isdigit c1 = true -> Py.isdigit c2 = true ->
  Py.isdigit c3 = true -> Py.isdigit c4 = true ->
  Re.rmatch fl_I
    (Re.Group 1
       (Re.Seq (Re.CSet false [Re.CDigit])
          (Re.Seq (Re.CSet false [Re.CDigit])
             (Re.Seq (Re.CSet false [Re.CDigit]) (Re.CSet false [Re.CDigit])))))
    (Re.MState None (String c1 (String c2 (String c3 (String c4 r)))) 0 []) k
  = k (Re.MState (Some c4) r 4
         [(1%nat, String c1 (String c2 (String c3 (String c4 EmptyString))))]).
Proof.
  intros H1 H2 H3 H4.
  rewrite group_step.
  repeat (first [ rewrite rmatch_seq | rewrite cset_step
                | rewrite digit_item by done ]; cbv beta).
  reflexivity.
Qed.

(** The month: two digits from [01] to [12] or, failing that, one digit. *)
Lemma month_step m1 m2 r g k :
  Py.isdigit m1 = true -> Py.isdigit m2 = true ->
  Re.rmatch fl_I (Re.Group 2 month_regex)
    (Re.MState (Some "-"%char) (String m1 (String m2 r)) 5 g) k
  = Re.orelse
      (if (1 <=? two_digits m1 m2) && (two_digits m1 m2 <=? 12)
       then k (Re.MState (Some m2) r 7
                 ((2%nat, String m1 (String m2 EmptyString)) :: g))
       else None)
      (if negb (Ascii.eqb m1 "0")
       then k (Re.MState (Some m1) (String m2 r) 6
                 ((2%nat, String m1 EmptyString) :: g))
       else None).
Proof.
  intros H1 H2. digit_split m1 H1; digit_split m2 H2; vm_compute; reflexivity.
Qed.

(** The day at the end of the text: two digits from [01] to [31] or,
    failing that, one digit. *)
Lemma day_step d1 d2 p g :
  Py.isdigit d1 = true -> Py.isdigit d2 = true ->
  Re.rmatch fl_I (Re.Group 3 day_regex)
    (Re.MState p (String d1 (String d2 EmptyString)) 8 g) Some
  = if (1 <=? two_digits d1 d2) && (two_digits d1 d2 <=? 31)
    then Some (Re.MState (Some d2) EmptyString 10
                 ((3%nat, String d1 (String d2 EmptyString)) :: g))
    else if negb (Ascii.eqb d1 "0")
    then Some (Re.MState (Some d1) (String d2 EmptyString) 9
                 ((3%nat, String d1 EmptyString) :: g))
    else None.
Proof.
  intros H1 H2. digit_split d1 H1; digit_split d2 H2; vm_compute; reflexivity.
Qed.

Lemma dash_digit c : Py.isdigit c = true -> Re.chr_matches fl_I "-" c = false.
Proof. intros H. digit_split c H; reflexivity. Qed.

Lemma days_in_month_le y m : days_in_month y m <= 31.
Proof. unfold days_in_month. repeat case_match; lia. Qed.

Lemma eight_digits_shape v :
  is_8_digits v = true ->
  exists c1 c2 c3 c4 c5 c6 c7 c8,
    v = String c1 (String c2 (String c3 (String c4 (String c5 (String c6
          (String c7 (String c8 EmptyString)))))))
    /\ Forall (fun c => Py.isdigit c = true) [c1; c2; c3; c4; c5; c6; c7; c8].
Proof.
  unfold is_8_digits. intros H. apply andb_true_iff in H as [Hlen Hd].
  do 8 (destruct v as [|?c v]; [done|]).
  destruct v; [|done]. clear Hlen.
  cbn [Py.forallb_str] in Hd.
  repeat (apply andb_true_iff in Hd as [? Hd]).
  do 8 eexists. split; [reflexivity|]. repeat (apply Forall_cons; split; [done|]).
  apply Forall_nil_2.
Qed.

(** [strptime] on a text of the shape [dddd-dd-dd]. *)
Lemma strptime_date_digits c1 c2 c3 c4 c5 c6 c7 c8 :
  Forall (fun c => Py.isdigit c = true) [c1; c2; c3; c4; c5; c6; c7; c8] ->
  let y := int_of_digits (String c1 (String c2 (String c3 (String c4 EmptyString)))) in
  let m := two_digits c5 c6 in
  let d := two_digits c7 c8 in
  strptime_date
    (String c1 (String c2 (String c3 (String c4 (String "-" (String c5 (String c6
       (String "-" (String c7 (String c8 EmptyString))))))))))
  = if (1 <=? y) && (1 <=? m) && (m <=? 12) && (1 <=? d) && (d <=? days_in_month y m)
    then Some (y, m, d) else None.
Proof.
  intros HF y m d.
  repeat (apply Forall_cons in HF as [? HF]).
  unfold strptime_date, Re.match_, Re.match_at.
  change (Re.Flags false false true) with fl_I.
  rewrite strptime_compiled.
  rewrite rmatch_seq, year_step by done.
  rewrite rmatch_seq, chr_step.
  change (Re.chr_matches fl_I "-" "-") with true. cbv iota.
  rewrite rmatch_seq, month_step by done.
  rewrite !rmatch_seq, !chr_step.
  change (Re.chr_matches fl_I "-" "-") with true. cbv iota.
  rewrite (dash_digit c6) by done.
  rewrite day_step by done.
  fold m d.
  pose proof (days_in_month_le y m) as Hdim.
  destruct ((1 <=? m) && (m <=? 12)) eqn:Em.
  - destruct ((1 <=? d) && (d <=? 31)) eqn:Ed.
    + cbn [Re.orelse Re.pos Re.groups Re.m_end Re.m_groups String.length Nat.eqb negb
           Re.group Re.assoc_group].
      fold y. fold (two_digits c5 c6) (two_digits c7 c8). fold m d.
      apply andb_true_iff in Em as [Em1 Em2]. apply andb_true_iff in Ed as [Ed1 Ed2].
      rewrite Em1, Em2, Ed1. by rewrite !andb_true_r.
    + assert ((1 <=? d) && (d <=? days_in_month y m) = false) as Hd.
      { apply andb_false_iff in Ed as [Ed|Ed]; apply andb_false_iff;
          [left; done|right]. apply Z.leb_gt in Ed. apply Z.leb_gt. lia. }
      rewrite <- !andb_assoc, Hd, !andb_false_r.
      destruct (negb (Ascii.eqb c7 "0")); [|by destruct (negb _)].
      reflexivity.
  - assert ((1 <=? y) && (1 <=? m) && (m <=? 12) = false) as Hm.
    { by rewrite <- andb_assoc, Em, andb_false_r. }
    rewrite Hm. cbn [andb]. by destruct (negb _).
Qed.

(** ** Rows restricted to the target columns *)

Lemma fold_insert_lookup (g : string -> pyval) (cols : list string) (k : string) :
  foldl (fun acc col => <[col := g col]> acc) (∅ : record) cols !! k
  = if decide (k ∈ cols) then Some (g k) else None.
Proof.
  induction cols as [|c cols IH] using rev_ind.
  { cbn [foldl]. rewrite lookup_empty.
    case_decide as Hd; [by apply elem_of_nil in Hd|done]. }
  rewrite foldl_app. simpl. destruct (decide (c = k)) as [->|Hne].
  - rewrite lookup_insert_eq, decide_True; [done|].
    apply elem_of_app. right. by left.
  - rewrite lookup_insert_ne, IH by done.
    destruct (decide (k ∈ cols)) as [Hin|Hin].
    + rewrite decide_True; [done|]. apply elem_of_app. by left.
    + rewrite decide_False; [done|]. intros [?|Hk%list_elem_of_singleton]%elem_of_app;
        [done|congruence].
Qed.

Lemma project_lookup cols d k :
  project cols d !! k = if decide (k ∈ cols) then Some (get d k) else None.
Proof. apply (fold_insert_lookup (get d)). Qed.

Lemma coerce_row_lookup ft cols a k :
  coerce_row ft cols a !! k
  = if decide (k ∈ cols) then Some (coerce_value ft k (get a k)) else None.
Proof. apply (fold_insert_lookup (fun col => coerce_value ft col (get a col))). Qed.

Lemma coerce_row_dom ft cols a : dom (coerce_row ft cols a) = list_to_set cols.
Proof.
  apply set_eq. intros k. rewrite elem_of_dom, coerce_row_lookup, elem_of_list_to_set.
  destruct (decide (k ∈ cols)); split; try done; try (by eexists); by intros [? ?].
Qed.

Lemma get_project cols d k : k ∈ cols -> get (project cols d) k = get d k.
Proof. intros H. unfold get at 1. by rewrite project_lookup, decide_True. Qed.

Lemma get_coerce_row ft cols a k :
  k ∈ cols -> get (coerce_row ft cols a) k = coerce_value ft k (get a k).
Proof. intros H. unfold get at 1. by rewrite coerce_row_lookup, decide_True. Qed.

Lemma eight_digits_test c1 c2 c3 c4 c5 c6 c7 c8 :
  Forall (fun c => Py.isdigit c = true) [c1; c2; c3; c4; c5; c6; c7; c8] ->
  is_8_digits (string_of_list_ascii [c1; c2; c3; c4; c5; c6; c7; c8]) = true.
Proof.
  intros HF. repeat (apply Forall_cons in HF as [? HF]).
  unfold is_8_digits. cbn [string_of_list_ascii String.length Nat.eqb andb
                           Py.forallb_str].
  repeat match goal with H : Py.isdigit _ = true |- _ => rewrite H; clear H end.
  reflexivity.
Qed.

Lemma not_eight_digits v :
  (forall c1 c2 c3 c4 c5 c6 c7 c8,
     v = string_of_list_ascii [c1; c2; c3; c4; c5; c6; c7; c8] ->
     ~ Forall (fun c => Py.isdigit c = true) [c1; c2; c3; c4; c5; c6; c7; c8]) ->
  is_8_digits v = false.
Proof.
  intros Hno. destruct (is_8_digits v) eqn:E; [|done].
  destruct (eight_digits_shape v E)
    as (c1 & c2 & c3 & c4 & c5 & c6 & c7 & c8 & Hv & HF).
  by destruct (Hno c1 c2 c3 c4 c5 c6 c7 c8 Hv HF).
Qed.

(** C5: for every NYT article block with a [Date:] line (the last one
    decides) and every list of target columns with [publication_date]:
    when the value is eight digits [c1 .. c8], the record of the parser
    holds the text [c1c2c3c4-c5c6-c7c8], the line adds no warning, and the
    row that the worker writes holds the date of that year, month and day
    when the calendar has such a day and null when it has not; any other
    value is null in the record and in the row, with the warning for an
    empty or for a non-standard date among the warnings returned; and
    whether a record is returned depends on the [Key:] lines only, never on
    the date. *)
Theorem nyt_date_stored (block fp : string) (cfg : config)
    (pre post : list string) (line : string) :
  nyt_lines block = pre ++ line :: post ->
  is_date_line line = true ->
  Forall (fun l => is_date_line l = false) post ->
  let v := line_value line in
  let r := parse_nyt_article block fp cfg in
  let other_value :=
    forall c1 c2 c3 c4 c5 c6 c7 c8,
      v = string_of_list_ascii [c1; c2; c3; c4; c5; c6; c7; c8] ->
      ~ Forall (fun c => Py.isdigit c = true) [c1; c2; c3; c4; c5; c6; c7; c8] in
  (r.1.1 = None <-> Forall (fun l => is_key_line l = false) (nyt_lines block))
  /\ (forall d cols,
        r.1.1 = Some d -> "publication_date" ∈ cols ->
        let row := coerce_row "nyt" cols (project cols d) in
        (forall c1 c2 c3 c4 c5 c6 c7 c8,
           v = string_of_list_ascii [c1; c2; c3; c4; c5; c6; c7; c8] ->
           Forall (fun c => Py.isdigit c = true) [c1; c2; c3; c4; c5; c6; c7; c8] ->
           let y := int_of_digits (string_of_list_ascii [c1; c2; c3; c4]) in
           let m := int_of_digits (string_of_list_ascii [c5; c6]) in
           let dd := int_of_digits (string_of_list_ascii [c7; c8]) in
           get d "publication_date"
             = PStr (string_of_list_ascii
                       [c1; c2; c3; c4; "-"%char; c5; c6; "-"%char; c7; c8])
           /\ get row "publication_date"
              = (if (1 <=? y) && (1 <=? m) && (m <=? 12) && (1 <=? dd)
                    && (dd <=? days_in_month y m)
                 then PDate y m dd else PNone)
           /\ forall st, warnings (nyt_line cfg fp st line) = warnings st)
        /\ (other_value ->
              get d "publication_date" = PNone
              /\ get row "publication_date" = PNone))
  /\ (v = EmptyString -> "Empty Date field found. Storing as NULL." ∈ r.2)
  /\ (v <> EmptyString -> other_value ->
        ("Non-standard date format: '" +:+ v +:+ "'. Storing as NULL.") ∈ r.2).
Proof.
  intros Hl Hd Hpost v r other_value.
  set (st1 := nyt_line cfg fp (nyt_scan cfg fp pre) line).
  set (st2 := foldl (nyt_line cfg fp) st1 post).
  assert (Hscan : nyt_scan cfg fp (nyt_lines block) = st2).
  { rewrite Hl, nyt_scan_app. done. }
  destruct (nyt_line_date cfg fp (nyt_scan cfg fp pre) line Hd) as [D1 W1].
  fold st1 in D1, W1. fold v in D1, W1.
  assert (D2 : pdate (nyt_post_text st2)
               = if is_8_digits v then PStr (format_date v) else PNone).
  { rewrite post_text_pdate. subst st2. by rewrite fold_no_date. }
  assert (W2 : forall w, w ∈ date_warnings v -> w ∈ r.2).
  { intros w Hw. apply parse_warnings. rewrite Hscan.
    apply post_text_warnings, fold_warnings. rewrite W1. set_solver. }
  split_and!.
  - apply record_none_iff.
  - intros d cols Hr Hin. cbv zeta.
    rewrite (get_coerce_row "nyt" cols _ "publication_date" Hin),
      (get_project cols d "publication_date" Hin).
    assert (Hg : get d "publication_date"
                 = if is_8_digits v then PStr (format_date v) else PNone).
    { destruct (parse_nyt_article_result block fp cfg) as [[_ [w E]]|[_ E]];
        subst r; rewrite E in Hr; simpl in Hr; [done|].
      injection Hr as <-. rewrite Hscan. fold (pdate (nyt_post_text st2)).
      exact D2. }
    rewrite Hg. split.
    + intros c1 c2 c3 c4 c5 c6 c7 c8 Hv HF.
      rewrite Hv, (eight_digits_test _ _ _ _ _ _ _ _ HF).
      cbv [format_date Py.take Py.drop String.append string_of_list_ascii].
      split_and!.
      * reflexivity.
      * unfold coerce_value.
        change (String.eqb "nyt" "nyt"
                && String.eqb "publication_date" "publication_date") with true.
        cbv iota.
        pose proof (strptime_date_digits c1 c2 c3 c4 c5 c6 c7 c8 HF) as E.
        cbv zeta in E. unfold two_digits in E. rewrite E.
        by destruct (_ && _).
      * intros st. destruct (nyt_line_date cfg fp st line Hd) as [_ ->].
        fold v. unfold date_warnings.
        rewrite Hv, (eight_digits_test _ _ _ _ _ _ _ _ HF). apply app_nil_r.
    + intros Hno. by rewrite (not_eight_digits v Hno).
  - intros Hv. apply W2. unfold date_warnings. rewrite Hv. set_solver.
  - intros Hv Hno. apply W2. unfold date_warnings.
    rewrite (not_eight_digits v Hno). destruct v; [done|]. set_solver.
Qed.

(** * The file worker *)

Lemma slice_2_m1_spec {A} (a b : A) (mid : list A) (z : A) :
  slice_2_m1 (a :: b :: mid ++ [z]) = mid.
Proof.
  unfold slice_2_m1.
  replace (length (a :: b :: mid ++ [z]) - 1)%nat with (length (a :: b :: mid)).
  - change (a :: b :: mid ++ [z]) with ((a :: b :: mid) ++ [z]).
    by rewrite take_app_length.
  - simpl. rewrite length_app. simpl. lia.
Qed.

Lemma long_list_shape {A} (l : list A) :
  (3 < length l)%nat ->
  exists a b mid z, l = a :: b :: mid ++ [z] /\ mid <> [].
Proof.
  intros H. destruct l as [|a [|b rest]]; simpl in H; try lia.
  destruct rest as [|x rest] using rev_ind; simpl in H; [lia|].
  exists a, b, rest, x. split; [done|].
  intros ->. simpl in H. lia.
Qed.

(** C6: for every ProQuest file, after the split of its text on the
    separator: with more than three fragments the article chunks are all
    fragments but the first two and the last one, and these are what the
    worker parses; with three fragments or fewer the article chunks are the
    fragments that are not blank. *)
Theorem proquest_chunk_heuristic
    (proquest_parser : string -> outcome record)
    (nyt_parser : string -> string -> config -> outcome nyt_result)
    (content file_path : string) (cfg : config)
    (proquest_cols nyt_cols : list string) (chunks : list string) :
  Py.split (default PROQUEST_SEPARATOR (proquest_separator cfg)) content
    = Some chunks ->
  let parsed :=
    parse_file proquest_parser nyt_parser content file_path "proquest" cfg
      proquest_cols nyt_cols in
  let loop := foldl (proquest_step proquest_parser file_path proquest_cols) [] in
  ((3 < length chunks)%nat ->
     exists a b mid z,
       chunks = a :: b :: mid ++ [z] /\ mid <> []
       /\ article_chunks chunks = mid
       /\ parsed = Some (loop mid, []))
  /\ ((length chunks <= 3)%nat ->
        article_chunks chunks = filter (fun c => nonblank c = true) chunks
        /\ parsed = match filter (fun c => nonblank c = true) chunks with
                    | [] => None
                    | kept => Some (loop kept, [])
                    end).
Proof.
  intros Hs parsed loop. subst parsed loop. unfold parse_file.
  rewrite Hs. cbn [String.eqb Ascii.eqb Bool.eqb]. unfold article_chunks.
  split; intros H.
  - destruct (long_list_shape chunks H) as (a & b & mid & z & -> & Hm).
    exists a, b, mid, z.
    apply Nat.ltb_lt in H. rewrite H, slice_2_m1_spec.
    split_and!; [done..|]. by destruct mid.
  - apply Nat.ltb_ge in H. rewrite H. split; [done|].
    by destruct (filter _ chunks).
Qed.

(** * Reading a file *)



Lemma str_in_head s l : str_in s (s :: l) = true.
Proof. unfold str_in. simpl. by rewrite String.eqb_refl. Qed.






Section WorkerFacts.

Variable proquest_parser : string -> outcome record.
Variable nyt_parser : string -> string -> config -> outcome nyt_result.

Lemma proquest_step_nothing fp cols acc chunk :
  chunk_yields_nothing proquest_parser chunk ->
  proquest_step proquest_parser fp cols acc chunk = acc.
Proof.
  unfold proquest_step. cbv zeta.
  intros [->|[->|(m & -> & ->)]]; [done|..]; by destruct (Py.truthy _).
Qed.

Lemma proquest_loop_nothing fp cols acc chunks :
  Forall (chunk_yields_nothing proquest_parser) chunks ->
  foldl (proquest_step proquest_parser fp cols) acc chunks = acc.
Proof.
  induction 1 as [|c cs Hc _ IH]; simpl; [done|].
  by rewrite proquest_step_nothing.
Qed.

Lemma nyt_step_nothing fp cfg cols acc block :
  block_yields_nothing nyt_parser fp cfg block ->
  nyt_step nyt_parser fp cfg cols acc block = acc.
Proof.
  unfold nyt_step. cbv zeta.
  intros [->|[->|(b & w & ->)]]; [done|..]; by destruct (Py.truthy _).
Qed.

Lemma nyt_loop_nothing fp cfg cols acc blocks :
  Forall (block_yields_nothing nyt_parser fp cfg) blocks ->
  foldl (nyt_step nyt_parser fp cfg cols) acc blocks = acc.
Proof.
  induction 1 as [|c cs Hc _ IH]; simpl; [done|].
  by rewrite nyt_step_nothing.
Qed.

(** C10: for every file that is read and whose chunks or blocks all yield
    nothing (a ProQuest file without article chunks, or whose chunks are
    blank, parse to an empty dictionary or raise; an NYT file whose blocks
    are blank, lack a key or raise), the worker returns [None] and writes no
    file, and the pool collects no result for it. *)
Theorem worker_without_records (env : file_env) (fs : artifacts)
    (file_path file_type temp_dir content : string) (cfg : config)
    (proquest_cols nyt_cols : list string) :
  read_content env = Some content ->
  (file_type = "proquest"
   /\ exists chunks,
        Py.split (default PROQUEST_SEPARATOR (proquest_separator cfg)) content
          = Some chunks
        /\ Forall (chunk_yields_nothing proquest_parser) (article_chunks chunks))
  \/ (file_type = "nyt"
      /\ exists blocks,
           Py.split (article_separator cfg) content = Some blocks
           /\ Forall (block_yields_nothing nyt_parser file_path cfg) blocks) ->
  process_file_worker_with proquest_parser nyt_parser env fs file_path file_type
    temp_dir cfg proquest_cols nyt_cols = (None, fs)
  /\ forall envs results,
       envs file_path = env ->
       pool_step proquest_parser nyt_parser envs temp_dir cfg proquest_cols nyt_cols
         (results, fs) (file_path, file_type) = (results, fs).
Proof.
  intros Hread Hcase.
  assert (Hw : process_file_worker_with proquest_parser nyt_parser env fs file_path
                 file_type temp_dir cfg proquest_cols nyt_cols = (None, fs)).
  { unfold process_file_worker_with. rewrite Hread. unfold parse_file.
    destruct Hcase as [[-> (chunks & -> & Hall)]|[-> (blocks & -> & Hall)]].
    - cbn [String.eqb Ascii.eqb Bool.eqb].
      destruct (article_chunks chunks) as [|c cs] eqn:E; [done|].
      by rewrite proquest_loop_nothing.
    - cbn [String.eqb Ascii.eqb Bool.eqb].
      by rewrite nyt_loop_nothing. }
  split; [done|]. intros envs results He. unfold pool_step. simpl.
  by rewrite He, Hw.
Qed.

End WorkerFacts.

(** * The bulk load *)

Lemma database_eta d :
  Database (articles d) (parsed_articles d) (bad_keys d) (temp_tables d) = d.
Proof. by destruct d. Qed.

Lemma get_set_table f t d : get_table f (set_table f t d) = t.
Proof. by destruct f. Qed.

Lemma get_set_table_other f t d :
  get_table (other f) (set_table f t d) = get_table (other f) d.
Proof. by destruct f. Qed.

Ltac closing := by (repeat case_match; eauto).

Lemma load_body_result eng fs f files d :
  load_body eng fs f files (Connection d (Some d))
  = match load_outcome eng fs f files d with
    | Some t' => (Returned tt, connect (set_table f t' d))
    | None => (Raised, (load_body eng fs f files (Connection d (Some d))).2)
    end
  /\ committed (load_body eng fs f files (Connection d (Some d))).2
     = match load_outcome eng fs f files d with
       | Some t' => set_table f t' d
       | None => d
       end
  /\ (load_outcome eng fs f files d = None ->
      is_Some (working (load_body eng fs f files (Connection d (Some d))).2)).
Proof.
  unfold load_body, load_outcome, format_stmts, check_fault, create_temp,
    insert_from_temp, query, modify, commit, raise, current, connect.
  unfold mbind, M_bind, mret, M_ret. cbn [existsb].
  destruct (fault eng (SCreateTemp f)); cbn; [closing|].
  destruct (temp_tables d !! temp_name eng f) eqn:Et; cbn; [closing|].
  destruct (read_parquet fs files) as [rows|]; cbn; [|closing].
  destruct (fault eng (SCountTemp f)); cbn; [closing|].
  destruct (fault eng (SMaxId f)); cbn; [closing|].
  destruct (fault eng (SInsert f)); cbn; [closing|].
  rewrite lookup_insert_eq.
  assert (Hg : forall x, get_table f (set_temp (temp_name eng f) x d) = get_table f d)
    by (by destruct f).
  rewrite !Hg.
  destruct (id_sum_ok _ _ && insert_allowed _ _); cbn; [|closing].
  destruct (fault eng (SCountTarget f)); cbn; [closing|].
  destruct (fault eng (SDropTemp f)); cbn; [closing|].
  destruct (fault eng (SCommit f)); cbn; [closing|].
  assert (Hd : set_temp (temp_name eng f) None
                 (set_table f (get_table f d ++ assign_ids (max_id (get_table f d)) rows)
                    (set_temp (temp_name eng f) (Some rows) d))
               = set_table f (get_table f d ++ assign_ids (max_id (get_table f d)) rows) d).
  { destruct f, d; unfold set_temp, set_table; cbn in *; by rewrite delete_insert_id. }
  rewrite Hd. done.
Qed.

(** The transaction of a format group computes [load_result]. *)
Lemma load_format_result eng fs f files d :
  load_format eng fs f files (connect d)
  = (Returned (load_result eng fs f files d).1,
     connect (load_result eng fs f files d).2).
Proof.
  unfold load_format, load_result. destruct files as [|p files]; [done|].
  destruct (load_body_result eng fs f (p :: files) d) as (H1 & H2 & H3).
  unfold mbind, M_bind, begin, try_except, rollback, connect, mret, M_ret in *.
  cbn [working committed].
  destruct (load_outcome eng fs f (p :: files) d) as [t'|] eqn:E.
  - rewrite H1. done.
  - destruct (load_body eng fs f (p :: files) (Connection d (Some d))) as [[[]|] c] eqn:Eb;
      cbn in *; [done|].
    destruct (H3 eq_refl) as [w ->]. by rewrite H2.
Qed.

(** The bad-key pass computes [persist_result]. *)
Lemma persist_bad_keys_result eng bks d :
  persist_bad_keys eng bks (connect d) = (Returned tt, connect (persist_result eng bks d)).
Proof.
  unfold persist_bad_keys, persist_result. destruct bks as [|b bks]; [done|].
  unfold mbind, M_bind, begin, try_except, rollback, connect, mret, M_ret,
    check_fault, modify, commit, raise. cbn.
  destruct (fault eng SInsertBadKeys); cbn; [done|].
  destruct (fault eng SCommitBadKeys); cbn; done.
Qed.

Lemma bulk_load_result eng fs results d :
  let r1 := load_result eng fs ProQuest (files_of "proquest" results) d in
  let r2 := load_result eng fs NYT (files_of "nyt" results) r1.2 in
  bulk_load eng fs results (connect d)
  = (Returned (r1.1 && r2.1),
     connect (persist_result eng (bad_keys_of results) r2.2)).
Proof.
  intros r1 r2. unfold bulk_load.
  unfold mbind at 1, M_bind at 1. rewrite load_format_result. fold r1.
  unfold mbind at 1, M_bind at 1. rewrite load_format_result. fold r2.
  unfold mbind at 1, M_bind at 1. rewrite persist_bad_keys_result. done.
Qed.

Lemma assign_ids_rows m rows : (assign_ids m rows).*2 = rows.
Proof.
  unfold assign_ids. rewrite fmap_imap.
  rewrite (imap_ext _ (fun _ r => r)); [|done].
  induction rows as [|r rows IH]; [done|]. rewrite imap_cons. f_equal. exact IH.
Qed.

Lemma assign_ids_ids m rows :
  (assign_ids m rows).*1 = seqZ (m + 1) (Z.of_nat (length rows)).
Proof.
  unfold assign_ids. rewrite fmap_imap.
  rewrite (imap_ext _ (fun j _ => m + Z.of_nat (S j))); [|done].
  rewrite imap_seq_0. unfold seqZ. rewrite Nat2Z.id.
  apply list_fmap_ext. intros i x _. lia.
Qed.

Lemma foldl_max_le (l : list Z) (a : Z) :
  a <= foldl Z.max a l /\ forall i, i ∈ l -> i <= foldl Z.max a l.
Proof.
  revert a. induction l as [|x l IH]; intros a; simpl.
  - split; [lia|]. intros i Hi. by apply elem_of_nil in Hi.
  - destruct (IH (Z.max a x)) as [H1 H2]. split; [lia|].
    intros i Hi. apply elem_of_cons in Hi as [->|Hi]; [lia|auto].
Qed.

Lemma max_id_bound (t : table) i : i ∈ t.*1 -> i <= max_id t.
Proof.
  destruct t as [|[j r] t]; simpl; [by intros ?%elem_of_nil|].
  destruct (foldl_max_le (map fst t) j) as [H1 H2].
  intros Hi. apply elem_of_cons in Hi as [->|Hi]; [done|]. by apply H2.
Qed.

Lemma seqZ_sorted m n : StronglySorted Z.lt (seqZ m n).
Proof.
  destruct (decide (0 <= n)) as [Hn|Hn]; [|rewrite seqZ_nil; [constructor|lia]].
  rewrite <- (Z2Nat.id n Hn). generalize (Z.to_nat n) as k. clear. intros k.
  revert m. induction k as [|k IH]; intros m; [constructor|].
  rewrite seqZ_cons by lia. constructor.
  - replace (Z.pred (Z.of_nat (S k))) with (Z.of_nat k) by lia. apply IH.
  - apply Forall_forall. intros j Hj. apply elem_of_seqZ in Hj. lia.
Qed.

(** C1: for every load of a format group that commits, the inserted rows
    are the consolidated rows, in order, with the identifiers max+1, ...,
    max+N, where max is the greatest identifier of the table before the
    insert (0 for an empty table) and N is the number of consolidated rows:
    strictly increasing, without gaps, and above every identifier the table
    already held. *)
Theorem load_assigns_sequential_ids (eng : engine) (fs : artifacts) (f : format)
    (files : list string) (d : database) (c' : connection) :
  load_format eng fs f files (connect d) = (Returned true, c') ->
  exists rows new,
    read_parquet fs files = Some rows
    /\ get_table f (committed c') = get_table f d ++ new
    /\ new.*2 = rows
    /\ new.*1 = seqZ (max_id (get_table f d) + 1) (Z.of_nat (length rows))
    /\ (get_table f d = [] -> max_id (get_table f d) = 0)
    /\ (forall i, i ∈ (get_table f d).*1 -> i <= max_id (get_table f d))
    /\ (forall i j, i ∈ (get_table f d).*1 -> j ∈ new.*1 -> i < j)
    /\ StronglySorted Z.lt new.*1
    /\ (forall j, j ∈ new.*1 -> 0 <= j <= UBIGINT_MAX).
Proof.
  rewrite load_format_result. unfold load_result.
  destruct files as [|p files].
  { intros [= <-]. exists [], []. rewrite app_nil_r.
    split_and!; try done.
    - by intros ->.
    - apply max_id_bound.
    - intros i j _ Hj. by apply elem_of_nil in Hj.
    - constructor.
    - intros j Hj. by apply elem_of_nil in Hj. }
  destruct (load_outcome _ _ _ _ _) as [t'|] eqn:E; [|done].
  intros [= <-]. simpl. rewrite get_set_table.
  unfold load_outcome in E.
  destruct (existsb _ _); [done|].
  destruct (temp_tables d !! _); [done|].
  destruct (read_parquet fs (p :: files)) as [rows|]; [|done].
  simpl in E. destruct (id_sum_ok _ _); [|done]. cbn [andb] in E.
  destruct (insert_allowed _ _) eqn:Ea; [|done].
  injection E as <-.
  exists rows, (assign_ids (max_id (get_table f d)) rows).
  split_and!; try done.
  - apply assign_ids_rows.
  - apply assign_ids_ids.
  - by intros ->.
  - apply max_id_bound.
  - intros i j Hi Hj. apply max_id_bound in Hi.
    rewrite assign_ids_ids in Hj. apply elem_of_seqZ in Hj. lia.
  - rewrite assign_ids_ids. apply seqZ_sorted.
  - intros j Hj. unfold insert_allowed in Ea.
    apply andb_true_iff in Ea as [Ea _].
    rewrite forallb_forall in Ea.
    apply list_elem_of_fmap in Hj as [[j' r] [-> Hin]].
    apply list_elem_of_In in Hin. specialize (Ea _ Hin). simpl in *.
    apply andb_true_iff in Ea as [Ea _]. apply andb_true_iff in Ea as [? ?]. lia.
Qed.

(** The insert is accepted whenever the new identifiers fit the column. *)
Lemma insert_allowed_in_range (t : table) (rows : list record) :
  0 <= max_id t ->
  max_id t + Z.of_nat (length rows) <= UBIGINT_MAX ->
  insert_allowed t (assign_ids (max_id t) rows) = true.
Proof.
  intros H0 Hmax. unfold insert_allowed. apply andb_true_iff. split.
  - apply forallb_forall. intros [i r] Hin.
    assert (Hi : i ∈ (assign_ids (max_id t) rows).*1).
    { apply list_elem_of_fmap. exists (i, r). split; [done|].
      by apply list_elem_of_In. }
    rewrite assign_ids_ids in Hi. apply elem_of_seqZ in Hi.
    apply andb_true_iff. split.
    + apply andb_true_iff. split; [apply Z.leb_le|apply Z.leb_le]; lia.
    + apply negb_true_iff, bool_decide_eq_false_2.
      intros Hold. apply max_id_bound in Hold. lia.
  - apply bool_decide_eq_true_2.
    change (map fst ?l) with (l.*1).
    rewrite assign_ids_ids. apply NoDup_seqZ.
Qed.

(** A load commits when no statement raises, the temporary name is free,
    the files are readable and the identifiers fit 64 signed bits. *)
Lemma load_commits (eng : engine) (fs : artifacts) (f : format)
    (files : list string) (d : database) (rows : list record) :
  existsb (fault eng) (format_stmts f) = false ->
  temp_tables d !! temp_name eng f = None ->
  read_parquet fs files = Some rows ->
  0 <= max_id (get_table f d) ->
  max_id (get_table f d) + Z.of_nat (length rows) <= BIGINT_MAX ->
  (load_format eng fs f files (connect d)).1 = Returned true.
Proof.
  intros Hf Ht Hr H0 Hm. rewrite load_format_result. simpl. f_equal.
  unfold load_result. destruct files as [|p files]; [done|].
  unfold load_outcome. rewrite Hf, Ht, Hr. cbv zeta.
  assert (id_sum_ok (max_id (get_table f d)) (length rows) = true) as ->.
  { unfold id_sum_ok. apply orb_true_iff. right. by apply Z.leb_le. }
  rewrite insert_allowed_in_range; [done..|].
  assert (BIGINT_MAX <= UBIGINT_MAX) by (by vm_compute). lia.
Qed.

Lemma load_outcome_other_table eng fs f files t d :
  load_outcome eng fs f files (set_table (other f) t d)
  = load_outcome eng fs f files d.
Proof. unfold load_outcome. by destruct f. Qed.

Lemma load_result_other eng fs f files t d :
  load_result eng fs f files (set_table (other f) t d)
  = ((load_result eng fs f files d).1,
     set_table (other f) t (load_result eng fs f files d).2).
Proof.
  unfold load_result. destruct files as [|p files]; [done|].
  rewrite load_outcome_other_table.
  destruct (load_outcome _ _ _ _ d); [|done]. simpl. by destruct f.
Qed.

Lemma load_result_tables eng fs f files d :
  get_table (other f) (load_result eng fs f files d).2 = get_table (other f) d
  /\ bad_keys (load_result eng fs f files d).2 = bad_keys d
  /\ temp_tables (load_result eng fs f files d).2 = temp_tables d
  /\ ((load_result eng fs f files d).1 = false -> (load_result eng fs f files d).2 = d).
Proof.
  unfold load_result. destruct files as [|p files]; [done|].
  destruct (load_outcome _ _ _ _ d); [|done]. simpl. by destruct f.
Qed.

Lemma persist_result_tables eng bks d :
  articles (persist_result eng bks d) = articles d
  /\ parsed_articles (persist_result eng bks d) = parsed_articles d
  /\ temp_tables (persist_result eng bks d) = temp_tables d.
Proof.
  unfold persist_result. destruct bks; [done|]. by destruct (_ || _).
Qed.

Lemma persist_result_bad_keys eng bks d d' :
  bad_keys d = bad_keys d' ->
  bad_keys (persist_result eng bks d) = bad_keys (persist_result eng bks d').
Proof.
  intros H. unfold persist_result. destruct bks; [done|].
  destruct (_ || _); [done|]. simpl. by rewrite H.
Qed.

Lemma get_table_persist f eng bks d :
  get_table f (persist_result eng bks d) = get_table f d.
Proof. destruct (persist_result_tables eng bks d) as (? & ? & ?). by destruct f. Qed.

Lemma load_result_shape eng fs f files d :
  (load_result eng fs f files d).2
  = set_table f (get_table f (load_result eng fs f files d).2) d.
Proof.
  unfold load_result. destruct files as [|p files]; [by destruct f, d|].
  destruct (load_outcome _ _ _ _ d); by destruct f, d.
Qed.

(** The second format group does not see what the first one did. *)
Lemma load_result_after eng fs files1 files2 d :
  (load_result eng fs NYT files2 (load_result eng fs ProQuest files1 d).2).1
  = (load_result eng fs NYT files2 d).1
  /\ get_table NYT (load_result eng fs NYT files2 (load_result eng fs ProQuest files1 d).2).2
     = get_table NYT (load_result eng fs NYT files2 d).2.
Proof.
  rewrite (load_result_shape eng fs ProQuest files1 d).
  generalize (get_table ProQuest (load_result eng fs ProQuest files1 d).2).
  intros t. change (set_table ProQuest t d) with (set_table (other NYT) t d).
  rewrite (load_result_other eng fs NYT files2 t d).
  cbn [fst snd]. split; reflexivity.
Qed.

(** C8: when the transaction of one format group raises, the bulk load
    returns failure, the table of that format is as before, the table of
    the other format is what its own load makes of it, and the bad-key
    table is what the bad-key pass makes of it. *)
Theorem load_failure_is_isolated (eng : engine) (fs : artifacts)
    (results : list worker_result) (d : database) (f : format) :
  let files := fun g => files_of (format_name g) results in
  (load_format eng fs f (files f) (connect d)).1 = Returned false ->
  exists c,
    bulk_load eng fs results (connect d) = (Returned false, c)
    /\ working c = None
    /\ get_table f (committed c) = get_table f d
    /\ get_table (other f) (committed c)
       = get_table (other f)
           (committed (load_format eng fs (other f) (files (other f)) (connect d)).2)
    /\ bad_keys (committed c)
       = bad_keys (committed (persist_bad_keys eng (bad_keys_of results) (connect d)).2).
Proof.
  intros files Hf. subst files. cbv beta in *.
  rewrite load_format_result in Hf. simpl in Hf. injection Hf as Hf.
  rewrite bulk_load_result. rewrite load_format_result, persist_bad_keys_result.
  cbn [snd committed connect].
  set (r1 := load_result eng fs ProQuest (files_of "proquest" results) d) in *.
  set (r2 := load_result eng fs NYT (files_of "nyt" results) r1.2).
  destruct (load_result_tables eng fs ProQuest (files_of "proquest" results) d)
    as (T1 & B1 & _ & R1). fold r1 in T1, B1, R1.
  destruct (load_result_tables eng fs NYT (files_of "nyt" results) r1.2)
    as (T2 & B2 & _ & R2). fold r2 in T2, B2, R2.
  destruct (load_result_after eng fs (files_of "proquest" results)
              (files_of "nyt" results) d) as [A1 A2]. fold r1 in A1, A2. fold r2 in A1, A2.
  destruct (load_result_tables eng fs NYT (files_of "nyt" results) d)
    as (_ & _ & _ & R).
  cbn [other] in T1, T2.
  assert (Hok : r1.1 && r2.1 = false).
  { destruct f; cbn [format_name] in Hf.
    - fold r1 in Hf. by rewrite Hf.
    - rewrite A1, Hf. apply andb_false_r. }
  rewrite Hok. eexists. split; [reflexivity|].
  cbn [working committed]. split; [done|].
  change (committed (connect ?x)) with x.
  rewrite !get_table_persist.
  split_and!.
  - destruct f; cbn [format_name other] in *.
    + fold r1 in Hf. rewrite T2. by rewrite (R1 Hf).
    + rewrite A2. by rewrite (R Hf).
  - destruct f; cbn [format_name other] in *.
    + exact A2.
    + by rewrite T2.
  - apply persist_result_bad_keys. by rewrite B2, B1.
Qed.

(** ** The bad-key table *)

Lemma insert_or_ignore_triples now rows b :
  triple_of <$> insert_or_ignore now rows b
  = if bool_decide (b ∈ triple_of <$> rows) then triple_of <$> rows
    else (triple_of <$> rows) ++ [b].
Proof.
  unfold insert_or_ignore. change (map triple_of rows) with (triple_of <$> rows).
  case_bool_decide; [done|]. rewrite fmap_app. simpl.
  by destruct b as [[k p] r].
Qed.

Lemma insert_or_ignore_NoDup now rows b :
  NoDup (triple_of <$> rows) -> NoDup (triple_of <$> insert_or_ignore now rows b).
Proof.
  intros H. rewrite insert_or_ignore_triples. case_bool_decide; [done|].
  apply NoDup_app. split_and!; [done| |apply NoDup_singleton].
  intros x Hx ->%list_elem_of_singleton. done.
Qed.

Lemma insert_or_ignore_elem now rows b b' :
  b' ∈ triple_of <$> insert_or_ignore now rows b
  <-> b' ∈ triple_of <$> rows \/ b' = b.
Proof.
  rewrite insert_or_ignore_triples. case_bool_decide.
  - split; [auto|]. intros [?| ->]; done.
  - rewrite elem_of_app, list_elem_of_singleton. done.
Qed.

Lemma executemany_NoDup now rows bks :
  NoDup (triple_of <$> rows) ->
  NoDup (triple_of <$> foldl (insert_or_ignore now) rows bks).
Proof.
  revert rows. induction bks as [|b bks IH]; intros rows H; simpl; [done|].
  by apply IH, insert_or_ignore_NoDup.
Qed.

Lemma executemany_elem now rows bks b' :
  b' ∈ triple_of <$> foldl (insert_or_ignore now) rows bks
  <-> b' ∈ triple_of <$> rows \/ b' ∈ bks.
Proof.
  revert rows. induction bks as [|b bks IH]; intros rows; simpl.
  - split; [auto|]. intros [?|?%elem_of_nil]; done.
  - rewrite IH, insert_or_ignore_elem, elem_of_cons. tauto.
Qed.

Lemma executemany_present now rows bks :
  (forall b, b ∈ bks -> b ∈ triple_of <$> rows) ->
  foldl (insert_or_ignore now) rows bks = rows.
Proof.
  induction bks as [|b bks IH]; intros H; simpl; [done|].
  assert (insert_or_ignore now rows b = rows) as ->.
  { unfold insert_or_ignore. rewrite bool_decide_eq_true_2; [done|].
    apply H. left. }
  apply IH. intros b' Hb'. apply H. by right.
Qed.

Lemma executemany_idempotent now now' rows bks :
  foldl (insert_or_ignore now') (foldl (insert_or_ignore now) rows bks) bks
  = foldl (insert_or_ignore now) rows bks.
Proof.
  apply executemany_present. intros b Hb. apply executemany_elem. by right.
Qed.

Lemma filter_none {A} (P : A -> Prop) `{forall x, Decision (P x)} (l : list A) :
  (forall z, z ∈ l -> ~ P z) -> filter P l = [].
Proof.
  induction l as [|x l IH]; intros Hl; [done|].
  rewrite filter_cons. case_decide as E.
  - destruct (Hl x); [left|done].
  - apply IH. intros z Hz. apply Hl. by right.
Qed.

Lemma NoDup_fmap_count {A B} `{EqDecision B} (g : A -> B) (l : list A) (y : B) :
  NoDup (g <$> l) -> y ∈ g <$> l ->
  length (filter (fun x => g x = y) l) = 1%nat.
Proof.
  induction l as [|x l IH]; simpl; [by intros _ ?%elem_of_nil|].
  intros [Hx Hl]%NoDup_cons Hy. rewrite filter_cons. case_decide as E.
  - subst y. simpl. f_equal.
    assert (filter (fun x0 => g x0 = g x) l = []) as ->; [|done].
    apply filter_none. intros z Hz Hgz. apply Hx.
    rewrite <- Hgz. apply list_elem_of_fmap. eauto.
  - apply IH; [done|]. apply elem_of_cons in Hy as [->|Hy]; done.
Qed.

Lemma insert_or_ignore_prefix now rows b :
  rows `prefix_of` insert_or_ignore now rows b.
Proof.
  unfold insert_or_ignore. case_bool_decide; [done|]. by apply prefix_app_r.
Qed.

Lemma executemany_prefix now rows bks :
  rows `prefix_of` foldl (insert_or_ignore now) rows bks.
Proof.
  revert rows. induction bks as [|b bks IH]; intros rows; simpl; [done|].
  etrans; [apply (insert_or_ignore_prefix now rows b)|apply IH].
Qed.

(** The batch of the pass holds the tuples that the workers of the NYT files
    returned, and no others. *)
Lemma bad_keys_of_elem (results : list worker_result) (b : bad_key) :
  b ∈ bad_keys_of results
  <-> exists res l,
        res ∈ results /\ res.1.2 = "nyt" /\ res.2 = Some l /\ b ∈ l.
Proof.
  unfold bad_keys_of. induction results as [|res results IH]; simpl.
  - split; [by intros ?%elem_of_nil|]. by intros (? & ? & ?%elem_of_nil & _).
  - rewrite elem_of_app, IH. split.
    + intros [Hb|(res' & l & Hin & Hn & Hl & Hb)].
      * destruct (String.eqb _ _) eqn:E; [|by apply elem_of_nil in Hb].
        apply String.eqb_eq in E. destruct (res.2) as [l|] eqn:El;
          [|by apply elem_of_nil in Hb].
        exists res, l. split_and!; [left|done..].
      * exists res', l. split_and!; [by right|done..].
    + intros (res' & l & Hin & Hn & Hl & Hb).
      apply elem_of_cons in Hin as [->|Hin].
      * left. rewrite Hn, Hl. done.
      * right. eauto 10.
Qed.

(** C9: the bad-key pass runs in its own transaction after the two format
    groups; the result of the bulk load is decided by the two groups alone;
    when the pass raises, the database is left as the groups left it; when
    it commits, the rows of the table before the pass stay, in their order,
    and the table then holds, besides them, exactly the tuples that the
    workers of the NYT files returned; the tuples are inserted ignoring
    conflicts, so under the uniqueness of (key, filepath, reason) every one
    of them is stored exactly once, however often it was returned, and a
    repeated pass changes nothing. *)
Theorem bad_key_pass (eng : engine) (fs : artifacts)
    (results : list worker_result) (d : database) :
  exists ok1 c1 ok2 c2 c3,
    load_format eng fs ProQuest (files_of "proquest" results) (connect d)
      = (Returned ok1, c1)
    /\ load_format eng fs NYT (files_of "nyt" results) c1 = (Returned ok2, c2)
    /\ persist_bad_keys eng (bad_keys_of results) c2 = (Returned tt, c3)
    /\ bulk_load eng fs results (connect d) = (Returned (ok1 && ok2), c3)
    /\ working c2 = None /\ working c3 = None
    /\ articles (committed c3) = articles (committed c2)
    /\ parsed_articles (committed c3) = parsed_articles (committed c2)
    /\ let old := bad_keys (committed c2) in
       let new := bad_keys (committed c3) in
       let bks := bad_keys_of results in
       let now := current_timestamp eng in
       let returned (b : bad_key) :=
         exists res l,
           res ∈ results /\ res.1.2 = "nyt" /\ res.2 = Some l /\ b ∈ l in
       (fault eng SInsertBadKeys || fault eng SCommitBadKeys = true ->
          committed c3 = committed c2)
       /\ (fault eng SInsertBadKeys || fault eng SCommitBadKeys = false ->
             new = foldl (insert_or_ignore now) old bks
             /\ (forall b, b ∈ triple_of <$> new
                           <-> b ∈ triple_of <$> old \/ returned b)
             /\ (NoDup (triple_of <$> old) ->
                 forall b, returned b ->
                   length (filter (fun r => triple_of r = b) new) = 1%nat))
       /\ old `prefix_of` new
       /\ (forall b, b ∈ bks <-> returned b)
       /\ (NoDup (triple_of <$> old) ->
             NoDup (triple_of <$> new)
             /\ forall b, b ∈ bks ->
                  length (filter (fun r => triple_of r = b)
                            (foldl (insert_or_ignore now) old bks)) = 1%nat)
       /\ (forall now',
             foldl (insert_or_ignore now') (foldl (insert_or_ignore now) old bks) bks
             = foldl (insert_or_ignore now) old bks).
Proof.
  set (r1 := load_result eng fs ProQuest (files_of "proquest" results) d).
  set (r2 := load_result eng fs NYT (files_of "nyt" results) r1.2).
  exists r1.1, (connect r1.2), r2.1, (connect r2.2),
    (connect (persist_result eng (bad_keys_of results) r2.2)).
  destruct (persist_result_tables eng (bad_keys_of results) r2.2) as (PA & PP & _).
  split_and!; try done.
  - apply load_format_result.
  - apply load_format_result.
  - apply persist_bad_keys_result.
  - apply bulk_load_result.
  - cbn [committed connect]. cbv zeta.
    assert (Hnew : fault eng SInsertBadKeys || fault eng SCommitBadKeys = false ->
              bad_keys (persist_result eng (bad_keys_of results) r2.2)
              = foldl (insert_or_ignore (current_timestamp eng)) (bad_keys r2.2)
                  (bad_keys_of results)).
    { intros Hfault. unfold persist_result. rewrite Hfault.
      by destruct (bad_keys_of _). }
    split_and!.
    + intros Hfault. unfold persist_result. rewrite Hfault. by destruct (bad_keys_of _).
    + intros Hfault. rewrite (Hnew Hfault). split_and!; [done| |].
      * intros b. rewrite executemany_elem, bad_keys_of_elem. done.
      * intros Hnd b Hb. apply NoDup_fmap_count.
        -- by apply executemany_NoDup.
        -- apply executemany_elem. right. by apply bad_keys_of_elem.
    + unfold persist_result. destruct (bad_keys_of results) eqn:E; [done|].
      destruct (_ || _); [done|]. apply executemany_prefix.
    + intros b. apply bad_keys_of_elem.
    + intros Hnd. split.
      * unfold persist_result. destruct (bad_keys_of results); [done|].
        destruct (_ || _); [done|]. by apply executemany_NoDup.
      * intros b Hb. apply NoDup_fmap_count.
        -- by apply executemany_NoDup.
        -- apply executemany_elem. by right.
    + intros now'. apply executemany_idempotent.
Qed.

(** * The ProQuest parser: the section field *)

Lemma get_insert_ne (k k' : string) (v : pyval) (m : record) :
  k <> k' -> get (<[k := v]> m) k' = get m k'.
Proof. intros H. unfold get. by rewrite lookup_insert_ne. Qed.

Lemma get_insert_eq (k : string) (v : pyval) (m : record) :
  get (<[k := v]> m) k = v.
Proof. unfold get. by rewrite lookup_insert_eq. Qed.

(** Names the value of the [let] at the head of the dictionary read by the
    goal, so that the dictionary is not copied. *)
Ltac name_let :=
  lazymatch goal with
  | |- get (let x := ?v in @?f x) ?k = ?r =>
      let y := fresh "article" in
      pose (y := v); change (get (f y) k = r); cbv beta
  end.

Ltac section_step :=
  first
    [ rewrite get_insert_ne by done
    | match goal with
      | |- context [get (if ?b then _ else _) _] => destruct b
      | |- context [get (match ?x with _ => _ end) _] => destruct x
      | |- context [get ?y _] => is_var y; subst y
      end ].







(** * The scenarios of the specification *)

Example proquest_title_scenario :
  get (extract_metadata_from_proquest title_scenario_chunk) "title"
    = PStr "Soldiers Clash [World]"
  /\ get (extract_metadata_from_proquest title_scenario_chunk) "clean_title"
     = PStr "Soldiers Clash"
  /\ get (extract_metadata_from_proquest title_scenario_chunk) "section"
     = PStr "World".
Proof. vm_compute. done. Qed.

Example uuid_examples :
  map is_valid_uuid
    [ "not-a-uuid"; ""; "12345678-1234-5678-1234-567812345678";
      "{12345678-1234-5678-1234-567812345678}";
      "urn:uuid:12345678123456781234567812345678" ]
  = [false; false; true; true; true].
Proof. vm_compute. reflexivity. Qed.

Example encodings_examples :
  encodings_to_try None = ["utf-8"; "windows-1252"; "iso-8859-1"]
  /\ encodings_to_try (Some "UTF-8") = ["utf-8"; "windows-1252"; "iso-8859-1"]
  /\ encodings_to_try (Some "Windows-1252") = ["utf-8"; "Windows-1252"; "iso-8859-1"]
  /\ encodings_to_try (Some "ISO-8859-1") = ["utf-8"; "ISO-8859-1"; "windows-1252"]
  /\ encodings_to_try (Some "ascii")
     = ["utf-8"; "ascii"; "windows-1252"; "iso-8859-1"].
Proof. vm_compute. done. Qed.

Example detection_threshold_examples :
  detected_encoding (Some (Detection (Some "ascii") 1)) = Some "ascii"
  /\ detected_encoding (Some (Detection (Some "ascii") (9 # 10))) = None
  /\ detected_encoding (Some (Detection None 1)) = None
  /\ detected_encoding None = None.
Proof. vm_compute. done. Qed.

(** The worker keeps a date only when it is a date of the calendar. *)
Example date_coercion_examples :
  coerce_value "nyt" "publication_date" (PStr "2012-01-01") = PDate 2012 1 1
  /\ coerce_value "nyt" "publication_date" (PStr "2012-99-99") = PNone
  /\ coerce_value "nyt" "publication_date" (PStr "2012-02-30") = PNone
  /\ coerce_value "nyt" "publication_date" PNone = PNone
  /\ coerce_value "proquest" "publication_date" (PStr "Jan 1, 2012")
     = PStr "Jan 1, 2012".
Proof. vm_compute. done. Qed.

(** * Concrete runs *)

Lemma nyt_block_with_bad_key_witness :
  (exists d w,
    parse_nyt_article nyt_example_block "nyt_2012.txt" default_config
      = (Some d, Some ("not-a-uuid", "nyt_2012.txt", "Invalid UUID"), w)
    /\ get d "nyt_internal_id" = PStr "not-a-uuid")
  /\ (exists d w,
    parse_nyt_article nyt_two_key_block "nyt_2012.txt" default_config
      = (Some d, Some ("not-a-uuid", "nyt_2012.txt", "Invalid UUID"), w)
    /\ get d "nyt_internal_id" = PStr "123e4567-e89b-12d3-a456-426614174000").
Proof.
  split.
  - destruct (nyt_block_with_bad_key nyt_example_block "nyt_2012.txt" default_config
                [] nyt_example_post "Key: not-a-uuid")
      as (d & w & Hp & _ & _ & Hk & _).
    + vm_compute. reflexivity.
    + vm_compute. reflexivity.
    + repeat constructor.
    + exists d, w. split; [exact Hp|]. apply Hk. repeat constructor.
  - destruct (nyt_block_with_bad_key nyt_two_key_block "nyt_2012.txt" default_config
                [] ["Key: 123e4567-e89b-12d3-a456-426614174000"; "Headline: X"]
                "Key: not-a-uuid")
      as (d & w & Hp & _ & (found & label & value & Hf & Hv & Hk) & _).
    + vm_compute. reflexivity.
    + vm_compute. reflexivity.
    + repeat constructor.
    + exists d, w. split; [exact Hp|].
      vm_compute in Hf. injection Hf as <-.
      vm_compute in Hv. injection Hv as _ <-. exact Hk.
Defined.

Lemma nyt_date_stored_witness :
  exists d,
    (parse_nyt_article leap_day_block "nyt_2012.txt" default_config).1.1 = Some d
    /\ get d "publication_date" = PStr "2012-02-29"
    /\ get (coerce_row "nyt" date_cols (project date_cols d)) "publication_date"
       = PDate 2012 2 29.
Proof.
  destruct (nyt_date_stored leap_day_block "nyt_2012.txt" default_config
              ["Key: 12345678-1234-5678-1234-567812345678"; "Headline: X"]
              [">>>>>>>>>>>>>>>>>>>>>>"; "Two were killed."; "<<<<<<<<<<<<<<<<<<<<<<"]
              "Date: 20120229")
    as (_ & Hd & _).
  - vm_compute. reflexivity.
  - vm_compute. reflexivity.
  - repeat constructor.
  - exists (default ∅
              (parse_nyt_article leap_day_block "nyt_2012.txt" default_config).1.1).
    assert (E : (parse_nyt_article leap_day_block "nyt_2012.txt" default_config).1.1
                = Some (default ∅
                          (parse_nyt_article leap_day_block "nyt_2012.txt"
                             default_config).1.1))
      by (vm_compute; reflexivity).
    split; [exact E|].
    assert (Hin : "publication_date" ∈ date_cols) by (right; left).
    destruct (Hd _ date_cols E Hin) as [H8 _].
    destruct (H8 "2" "0" "1" "2" "0" "2" "2" "9")%char as (Hg & Hrow & _).
    + vm_compute. reflexivity.
    + repeat constructor.
    + split; [exact Hg|exact Hrow].
Defined.

(** The value [20120230] is eight digits, and what is stored for it is
    neither a date nor the text [2012-02-30] that the parser wrote, but
    null, and no warning is given: the parser returns none, and the row of
    the file that the worker writes has no date. *)
Lemma impossible_date_is_stored_as_null :
  let r := parse_nyt_article impossible_date_block "nyt_2012.txt" default_config in
  let run := process_file_worker impossible_date_env ∅ "nyt_2012.txt" "nyt" "tmp"
               default_config ["title"] date_cols in
  line_value "Date: 20120230" = "20120230"
  /\ option_map (fun d => get d "publication_date") r.1.1
     = Some (PStr "2012-02-30")
  /\ r.1.2 = None
  /\ r.2 = []
  /\ run.1 = Some ("tmp/nyt_0004.parquet", "nyt", Some [])
  /\ option_map (map (fun row => get row "publication_date"))
       (run.2 !! "tmp/nyt_0004.parquet")
     = Some [PNone]
  /\ option_map (map (fun row => get row "headline"))
       (run.2 !! "tmp/nyt_0004.parquet")
     = Some [PStr "X"].
Proof. vm_compute. done. Qed.


Lemma proquest_chunk_heuristic_witness :
  exists chunks a b mid z,
    Py.split PROQUEST_SEPARATOR proquest_example_content = Some chunks
    /\ chunks = a :: b :: mid ++ [z]
    /\ length mid = 2%nat
    /\ article_chunks chunks = mid.
Proof.
  destruct (proquest_chunk_heuristic proquest_parser_func nyt_parser_func
              proquest_example_content "pq.txt" default_config ["title"] ["headline"]
              (default [] (Py.split PROQUEST_SEPARATOR proquest_example_content)))
    as [Hlong _].
  - vm_compute. reflexivity.
  - destruct Hlong as (a & b & mid & z & Hc & _ & Ha & _).
    + vm_compute. lia.
    + exists (default [] (Py.split PROQUEST_SEPARATOR proquest_example_content)),
        a, b, mid, z.
      split_and!; [vm_compute; reflexivity|exact Hc| |exact Ha].
      rewrite <- Ha. vm_compute. reflexivity.
Defined.

Lemma worker_without_records_witness :
  process_file_worker_with proquest_parser_func nyt_parser_func keyless_env ∅
    "nyt_2012.txt" "nyt" "tmp" default_config ["title"] ["headline"] = (None, ∅).
Proof.
  assert (Hs : Py.split (article_separator default_config) keyless_content
               = Some (default [] (Py.split (article_separator default_config)
                                     keyless_content)))
    by (vm_compute; reflexivity).
  assert (Hb : forall block,
             (parse_nyt_article (Py.strip block) "nyt_2012.txt" default_config).1.1
               = None ->
             block_yields_nothing nyt_parser_func "nyt_2012.txt" default_config block).
  { intros block Hn. right. right. unfold nyt_parser_func.
    destruct (parse_nyt_article _ _ _) as [[r b] w]. simpl in Hn. subst r. eauto. }
  refine (proj1 (worker_without_records proquest_parser_func nyt_parser_func
                   keyless_env ∅ "nyt_2012.txt" "nyt" "tmp" keyless_content
                   default_config ["title"] ["headline"] _
                   (or_intror (conj eq_refl (ex_intro _ _ (conj Hs _)))))).
  - vm_compute. reflexivity.
  - apply Forall_forall. intros block Hin. apply Hb.
    vm_compute in Hin.
    apply elem_of_cons in Hin as [->|Hin]; [vm_compute; reflexivity|].
    apply elem_of_cons in Hin as [->|Hin]; [vm_compute; reflexivity|].
    by apply elem_of_nil in Hin.
Defined.

Lemma load_assigns_sequential_ids_witness :
  exists new,
    get_table NYT
      (committed (load_format sound_engine example_fs NYT ["tmp/nyt_1.parquet"]
                    (connect example_db)).2)
    = [(5, row_of "headline" "W")] ++ new
    /\ new.*1 = [6; 7].
Proof.
  destruct (load_assigns_sequential_ids sound_engine example_fs NYT
              ["tmp/nyt_1.parquet"] example_db
              (load_format sound_engine example_fs NYT ["tmp/nyt_1.parquet"]
                 (connect example_db)).2)
    as (rows & new & Hr & Ht & _ & Hi & _).
  - vm_compute. reflexivity.
  - exists new. split; [exact Ht|].
    assert (rows = default [] (read_parquet example_fs ["tmp/nyt_1.parquet"])) as ->
      by (by rewrite Hr).
    rewrite Hi. vm_compute. reflexivity.
Defined.

Lemma load_failure_is_isolated_witness :
  exists c,
    bulk_load faulty_engine example_fs example_results (connect example_db)
      = (Returned false, c)
    /\ articles (committed c) = []
    /\ (parsed_articles (committed c)).*1 = [5; 6; 7]
    /\ triple_of <$> bad_keys (committed c)
       = [("not-a-uuid", "nyt_2012.txt", "Invalid UUID")].
Proof.
  destruct (load_failure_is_isolated faulty_engine example_fs example_results
              example_db ProQuest) as (c & Hb & _ & Ht & Ho & Hk).
  - vm_compute. reflexivity.
  - exists c. split; [exact Hb|]. split_and!.
    + exact Ht.
    + cbn [other get_table] in Ho. rewrite Ho. vm_compute. reflexivity.
    + rewrite Hk. vm_compute. reflexivity.
Defined.

Lemma bad_key_pass_witness :
  (exists c,
     bulk_load sound_engine example_fs example_results (connect example_db)
       = (Returned true, c)
     /\ bad_keys (committed c)
        = [BadKeyRow "not-a-uuid" "nyt_2012.txt" "Invalid UUID" 100])
  /\ (exists c,
     bulk_load sound_engine example_fs example_results (connect reloaded_db)
       = (Returned true, c)
     /\ bad_keys (committed c)
        = [BadKeyRow "not-a-uuid" "nyt_2012.txt" "Invalid UUID" 7]).
Proof.
  split.
  - destruct (bad_key_pass sound_engine example_fs example_results example_db)
      as (ok1 & c1 & ok2 & c2 & c3 & H1 & H2 & _ & H4 & _ & _ & _ & _ & H).
    cbv zeta in H. destruct H as (_ & Hnew & _).
    vm_compute in H1. injection H1 as <- <-.
    vm_compute in H2. injection H2 as <- <-.
    exists c3. split; [exact H4|].
    destruct (Hnew eq_refl) as [-> _]. vm_compute. reflexivity.
  - destruct (bad_key_pass sound_engine example_fs example_results reloaded_db)
      as (ok1 & c1 & ok2 & c2 & c3 & H1 & H2 & _ & H4 & _ & _ & _ & _ & H).
    cbv zeta in H. destruct H as (_ & Hnew & _).
    vm_compute in H1. injection H1 as <- <-.
    vm_compute in H2. injection H2 as <- <-.
    exists c3. split; [exact H4|].
    destruct (Hnew eq_refl) as [-> _]. vm_compute. reflexivity.
Defined.

(** * Part III: further facts *)

(** * Further facts about the NYT parser *)

Ltac in_list := by repeat constructor.

Ltac not_in_list :=
  let H := fresh in
  intros H;
  repeat (apply elem_of_cons in H as [H|H]; [discriminate H|]);
  by apply elem_of_nil in H.

(** ** Which columns a line touches *)

Lemma set_field_other k v st k' :
  k <> k' -> data (set_field k v st) !! k' = data st !! k'.
Proof. intros H. simpl. by rewrite lookup_insert_ne. Qed.

Lemma on_key_other fp line v st k' :
  "nyt_internal_id" <> k' -> data (on_key fp line v st) !! k' = data st !! k'.
Proof.
  intros H. unfold on_key. repeat case_match; simpl; by rewrite lookup_insert_ne.
Qed.

Lemma on_date_other v st k' :
  "publication_date" <> k' -> data (on_date v st) !! k' = data st !! k'.
Proof.
  intros H. unfold on_date. repeat case_match; simpl; by rewrite lookup_insert_ne.
Qed.

(** The four branches of a labelled line, with the handler of [IndexError]
    ruled out. *)
Lemma nyt_line_cases cfg fp st line :
  let s := Py.strip line in
  nyt_line cfg fp st line
  = if negb (Py.truthy s) then st
    else if Py.startswith "Key:" s
      then append_text line (on_key fp line (line_value line) st)
    else if Py.startswith "Headline:" s
      then append_text line (set_field "headline" (PStr (line_value line)) st)
    else if Py.startswith "Date:" s
      then append_text line (on_date (line_value line) st)
    else if Py.startswith "Countries:" s
      then append_text line
             (set_field "nyt_country_codes" (PStr (line_value line)) st)
    else if Py.startswith (text_start_marker cfg) s
      then set_markers true true (found_end_marker st) st
    else if Py.startswith (text_end_marker cfg) s
      then append_text line (set_markers false (found_start_marker st) true st)
    else append_text line st.
Proof.
  intros s. subst s. unfold nyt_line.
  destruct (negb (Py.truthy (Py.strip line))); [done|].
  destruct (Py.startswith "Key:" _) eqn:H0.
  { by rewrite (labelled_line_value "Key:" line eq_refl H0). }
  destruct (Py.startswith "Headline:" _) eqn:H1.
  { by rewrite (labelled_line_value "Headline:" line eq_refl H1). }
  destruct (Py.startswith "Date:" _) eqn:H2.
  { by rewrite (labelled_line_value "Date:" line eq_refl H2). }
  destruct (Py.startswith "Countries:" _) eqn:H3.
  { by rewrite (labelled_line_value "Countries:" line eq_refl H3). }
  done.
Qed.

Lemma nyt_line_other cfg fp st line k :
  k ∉ filled_columns ->
  data (nyt_line cfg fp st line) !! k = data st !! k.
Proof.
  intros Hk. rewrite nyt_line_cases. cbv zeta.
  assert (Hne : forall c, c ∈ filled_columns -> c <> k) by (intros c Hc ->; done).
  repeat case_match; rewrite ?append_text_data; try done.
  - apply on_key_other, Hne. in_list.
  - apply set_field_other, Hne. in_list.
  - apply on_date_other, Hne. in_list.
  - apply set_field_other, Hne. in_list.
Qed.

Lemma post_text_other st k :
  k ∉ filled_columns -> data (nyt_post_text st) !! k = data st !! k.
Proof.
  intros Hk. assert ("body" <> k) by (intros <-; apply Hk; in_list).
  unfold nyt_post_text. repeat case_match; simpl; rewrite ?lookup_insert_ne; done.
Qed.

Lemma scan_other cfg fp ls st k :
  k ∉ filled_columns ->
  data (foldl (nyt_line cfg fp) st ls) !! k = data st !! k.
Proof.
  intros Hk. revert st. induction ls as [|l ls IH]; intros st; simpl; [done|].
  by rewrite IH, nyt_line_other.
Qed.

(** ** The columns of a record *)

Lemma dom_insert_in (m : record) k v :
  k ∈ dom m -> dom (<[k := v]> m) = dom m.
Proof.
  intros H. rewrite dom_insert_L. apply subseteq_union_1_L.
  by apply singleton_subseteq_l.
Qed.

Lemma filled_in_columns fp c : c ∈ filled_columns -> c ∈ nyt_columns fp.
Proof.
  unfold nyt_columns. intros Hc. apply elem_of_dom.
  unfold filled_columns in Hc.
  repeat (apply elem_of_cons in Hc as [->|Hc]; [by eexists|]).
  by apply elem_of_nil in Hc.
Qed.

Lemma nyt_line_dom cfg fp0 fp st line :
  dom (data st) = nyt_columns fp0 ->
  dom (data (nyt_line cfg fp st line)) = nyt_columns fp0.
Proof.
  intros Hd. rewrite nyt_line_cases. cbv zeta.
  assert (Hin : forall c v, c ∈ filled_columns ->
                  dom (<[c := v]> (data st)) = nyt_columns fp0).
  { intros c v Hc. rewrite dom_insert_in; [done|]. rewrite Hd.
    by apply filled_in_columns. }
  repeat case_match; rewrite ?append_text_data; try done.
  - unfold on_key. repeat case_match; simpl; apply Hin; in_list.
  - simpl. apply Hin. in_list.
  - unfold on_date. repeat case_match; simpl; apply Hin; in_list.
  - simpl. apply Hin. in_list.
Qed.

Lemma post_text_dom fp0 st :
  dom (data st) = nyt_columns fp0 ->
  dom (data (nyt_post_text st)) = nyt_columns fp0.
Proof.
  intros Hd. unfold nyt_post_text.
  assert (Hin : forall v, dom (<["body" := v]> (data st)) = nyt_columns fp0).
  { intros v. rewrite dom_insert_in; [done|]. rewrite Hd.
    apply filled_in_columns. in_list. }
  repeat case_match; simpl; try done; apply Hin.
Qed.

Lemma scan_dom cfg fp0 fp ls st :
  dom (data st) = nyt_columns fp0 ->
  dom (data (foldl (nyt_line cfg fp) st ls)) = nyt_columns fp0.
Proof.
  revert st. induction ls as [|l ls IH]; intros st Hd; simpl; [done|].
  by apply IH, nyt_line_dom.
Qed.

Lemma parse_record_state block fp cfg d :
  (parse_nyt_article block fp cfg).1.1 = Some d ->
  d = data (nyt_post_text (nyt_scan cfg fp (nyt_lines block))).
Proof.
  destruct (parse_nyt_article_result block fp cfg) as [[_ [w E]]|[_ E]];
    rewrite E; simpl; congruence.
Qed.

(** X1: every record has the twenty columns of the initial dictionary, whatever
    the block holds; the path and the format tag are those given at the
    start and the reserved columns are null. *)
Theorem nyt_record_columns (block fp : string) (cfg : config) (d : record) :
  (parse_nyt_article block fp cfg).1.1 = Some d ->
  dom d = dom (nyt_initial_data fp)
  /\ size d = 20%nat
  /\ get d "source_filepath" = PStr fp
  /\ get d "format_type" = PStr "NYT_2011_2014"
  /\ Forall (fun k => d !! k = Some PNone) reserved_columns.
Proof.
  intros Hd. apply parse_record_state in Hd. subst d.
  assert (Hdom : dom (data (nyt_post_text (nyt_scan cfg fp (nyt_lines block))))
                 = nyt_columns fp).
  { apply post_text_dom, scan_dom. done. }
  assert (Hk : forall k, k ∉ filled_columns ->
             data (nyt_post_text (nyt_scan cfg fp (nyt_lines block))) !! k
             = nyt_initial_data fp !! k).
  { intros k Hk. rewrite post_text_other by done.
    unfold nyt_scan. by rewrite scan_other. }
  split_and!.
  - exact Hdom.
  - rewrite <- size_dom, Hdom. unfold nyt_columns. rewrite size_dom.
    vm_compute. reflexivity.
  - unfold get. rewrite Hk; [done|]. not_in_list.
  - unfold get. rewrite Hk; [done|]. not_in_list.
  - apply Forall_forall. intros k Hin. rewrite Hk.
    + unfold reserved_columns in Hin.
      repeat (apply elem_of_cons in Hin as [->|Hin]; [done|]).
      by apply elem_of_nil in Hin.
    + unfold reserved_columns in Hin.
      repeat (apply elem_of_cons in Hin as [->|Hin]; [not_in_list|]).
      by apply elem_of_nil in Hin.
Qed.

(** ** A block whose keys are all valid *)

(** X2: for a block whose [Key:] lines all hold valid UUIDs, the record carries
    the value of the last [Key:] line and no bad-key tuple is returned. *)
Theorem nyt_block_with_valid_keys (block fp : string) (cfg : config)
    (pre post : list string) (line : string) :
  nyt_lines block = pre ++ line :: post ->
  is_key_line line = true ->
  Forall (fun l => is_key_line l = false) post ->
  Forall (fun l => is_bad_key_line l = false) (nyt_lines block) ->
  exists d w,
    parse_nyt_article block fp cfg = (Some d, None, w)
    /\ get d "nyt_internal_id" = PStr (line_value line)
    /\ is_valid_uuid (line_value line) = true.
Proof.
  intros Hl Hkey Hpost Hgood.
  set (st1 := nyt_line cfg fp (nyt_scan cfg fp pre) line).
  assert (Hscan : nyt_scan cfg fp (nyt_lines block)
                  = foldl (nyt_line cfg fp) st1 post).
  { by rewrite Hl, nyt_scan_app. }
  destruct (nyt_line_key cfg fp (nyt_scan cfg fp pre) line Hkey) as [K1 _].
  fold st1 in K1.
  destruct (fold_no_key cfg fp post st1 Hpost) as [K2 _].
  destruct (fold_no_bad_key cfg fp (nyt_lines block) (nyt_initial fp) Hgood)
    as [B _]. fold (nyt_scan cfg fp (nyt_lines block)) in B.
  destruct (parse_nyt_article_result block fp cfg) as [[Hk _]|[_ Hr]].
  { rewrite post_text_kid, Hscan, K2, K1 in Hk. done. }
  rewrite post_text_bad, B in Hr. simpl in Hr.
  eexists _, _. split; [exact Hr|]. split.
  - change (kid (nyt_post_text (nyt_scan cfg fp (nyt_lines block)))
            = PStr (line_value line)).
    by rewrite post_text_kid, Hscan, K2, K1.
  - rewrite Hl in Hgood. apply Forall_app in Hgood as [_ Hgood].
    apply Forall_cons in Hgood as [Hgood _].
    unfold is_bad_key_line, bad_key_value in Hgood. rewrite Hkey in Hgood.
    simpl in Hgood. apply orb_false_iff in Hgood as [_ Hgood].
    by apply negb_false_iff in Hgood.
Qed.

(** ** Headline and countries *)

Lemma plain_label_cases label key :
  (label, key) ∈ plain_labels ->
  (label = "Headline:" /\ key = "headline")
  \/ (label = "Countries:" /\ key = "nyt_country_codes").
Proof.
  unfold plain_labels. intros H.
  apply elem_of_cons in H as [[= -> ->]|H]; [by left|].
  apply elem_of_cons in H as [[= -> ->]|H]; [by right|].
  by apply elem_of_nil in H.
Qed.

Lemma nyt_line_label cfg fp st line label key :
  (label, key) ∈ plain_labels ->
  is_label_line label line = true ->
  get (data (nyt_line cfg fp st line)) key = PStr (line_value line).
Proof.
  intros Hl Hs. unfold is_label_line in Hs. rewrite nyt_line_cases. cbv zeta.
  apply plain_label_cases in Hl as [[-> ->]|[-> ->]].
  - rewrite (startswith_truthy "Headline:" _ eq_refl Hs). simpl.
    rewrite (startswith_first_differs "H" "K" "eadline:" "ey:" _ ltac:(done) Hs).
    rewrite Hs, append_text_data. simpl. unfold get. by rewrite lookup_insert_eq.
  - rewrite (startswith_truthy "Countries:" _ eq_refl Hs). simpl.
    rewrite (startswith_first_differs "C" "K" "ountries:" "ey:" _ ltac:(done) Hs).
    rewrite (startswith_first_differs "C" "H" "ountries:" "eadline:" _ ltac:(done) Hs).
    rewrite (startswith_first_differs "C" "D" "ountries:" "ate:" _ ltac:(done) Hs).
    rewrite Hs, append_text_data. simpl. unfold get. by rewrite lookup_insert_eq.
Qed.

Lemma nyt_line_not_label cfg fp st line label key :
  (label, key) ∈ plain_labels ->
  is_label_line label line = false ->
  get (data (nyt_line cfg fp st line)) key = get (data st) key.
Proof.
  intros Hl Hs. unfold is_label_line in Hs. rewrite nyt_line_cases. cbv zeta.
  unfold get.
  apply plain_label_cases in Hl as [[-> ->]|[-> ->]]; rewrite ?Hs;
    repeat case_match; rewrite ?append_text_data;
    rewrite ?on_key_other, ?on_date_other, ?set_field_other by done; done.
Qed.

Lemma post_text_label st label key :
  (label, key) ∈ plain_labels ->
  get (data (nyt_post_text st)) key = get (data st) key.
Proof.
  intros Hl. unfold nyt_post_text, get.
  apply plain_label_cases in Hl as [[-> ->]|[-> ->]];
    repeat case_match; simpl; rewrite ?lookup_insert_ne; done.
Qed.

Lemma scan_not_label cfg fp label key ls st :
  (label, key) ∈ plain_labels ->
  Forall (fun l => is_label_line label l = false) ls ->
  get (data (foldl (nyt_line cfg fp) st ls)) key = get (data st) key.
Proof.
  intros Hlk. revert st. induction ls as [|x xs IH]; intros st HF; [done|].
  apply Forall_cons in HF as [Hx HF]. simpl. rewrite IH by done.
  by apply (nyt_line_not_label cfg fp st x label key).
Qed.

(** X3: the headline and the country codes of a record are the values of the
    last [Headline:] and of the last [Countries:] line of the block. *)
Theorem nyt_last_label_wins (block fp : string) (cfg : config)
    (label key : string) (pre post : list string) (line : string) (d : record) :
  (label, key) ∈ plain_labels ->
  nyt_lines block = pre ++ line :: post ->
  is_label_line label line = true ->
  Forall (fun l => is_label_line label l = false) post ->
  (parse_nyt_article block fp cfg).1.1 = Some d ->
  get d key = PStr (line_value line).
Proof.
  intros Hlk Hl Hs Hpost Hd. apply parse_record_state in Hd. subst d.
  rewrite (post_text_label _ label key Hlk), Hl, nyt_scan_app. simpl.
  rewrite (scan_not_label cfg fp label key post _ Hlk Hpost).
  by apply (nyt_line_label cfg fp _ line label key).
Qed.

(** ** The body *)

Lemma append_text_part line st :
  text_part (append_text line st)
  = (in_text_block st,
     if in_text_block st then text_lines st ++ [line] else text_lines st,
     found_start_marker st, found_end_marker st).
Proof.
  unfold append_text, text_part.
  destruct (in_text_block st) eqn:E; simpl; rewrite ?E; reflexivity.
Qed.

Lemma on_key_part fp line v st : text_part (on_key fp line v st) = text_part st.
Proof. unfold on_key, text_part. cbv zeta. repeat case_match; reflexivity. Qed.

Lemma on_date_part v st : text_part (on_date v st) = text_part st.
Proof. unfold on_date, text_part. repeat case_match; reflexivity. Qed.

Lemma text_part_eq st1 st2 :
  text_part st1 = text_part st2 ->
  in_text_block st1 = in_text_block st2 /\ text_lines st1 = text_lines st2
  /\ found_start_marker st1 = found_start_marker st2
  /\ found_end_marker st1 = found_end_marker st2.
Proof. unfold text_part. intros [= -> -> -> ->]. done. Qed.

Lemma append_after st0 line st :
  text_part st0 = text_part st ->
  text_part (append_text line st0)
  = (in_text_block st,
     if in_text_block st then text_lines st ++ [line] else text_lines st,
     found_start_marker st, found_end_marker st).
Proof.
  intros H. rewrite append_text_part.
  by apply text_part_eq in H as (-> & -> & -> & ->).
Qed.

(** What one line does to the text extraction. *)
Lemma nyt_line_part cfg fp st line :
  text_part (nyt_line cfg fp st line)
  = if is_blank_line line then text_part st
    else if is_start_line cfg line
      then (true, text_lines st, true, found_end_marker st)
    else if is_end_line cfg line
      then (false, text_lines st, found_start_marker st, true)
    else (in_text_block st,
          if in_text_block st then text_lines st ++ [line] else text_lines st,
          found_start_marker st, found_end_marker st).
Proof.
  rewrite nyt_line_cases. cbv zeta.
  unfold is_start_line, is_end_line, is_labelled_line, is_blank_line.
  destruct (negb (Py.truthy (Py.strip line))); [done|].
  destruct (Py.startswith "Key:" _).
  { apply append_after, on_key_part. }
  destruct (Py.startswith "Headline:" _).
  { by apply append_after. }
  destruct (Py.startswith "Date:" _).
  { apply append_after, on_date_part. }
  destruct (Py.startswith "Countries:" _).
  { by apply append_after. }
  destruct (Py.startswith (text_start_marker cfg) _); [done|].
  destruct (Py.startswith (text_end_marker cfg) _); [done|].
  simpl. apply append_text_part.
Qed.

(** Outside the text block, lines that are no start marker leave the text
    lines as they are and the block closed. *)
Lemma scan_outside cfg fp ls st :
  in_text_block st = false ->
  Forall (fun l => is_start_line cfg l = false) ls ->
  let st' := foldl (nyt_line cfg fp) st ls in
  in_text_block st' = false /\ text_lines st' = text_lines st
  /\ found_start_marker st' = found_start_marker st.
Proof.
  intros Hin HF. revert st Hin.
  induction HF as [|l ls Hl _ IH]; intros st Hin; simpl; [done|].
  pose proof (nyt_line_part cfg fp st l) as Hp. rewrite Hl in Hp.
  unfold text_part in Hp. rewrite Hin in Hp.
  assert (in_text_block (nyt_line cfg fp st l) = false
          /\ text_lines (nyt_line cfg fp st l) = text_lines st
          /\ found_start_marker (nyt_line cfg fp st l) = found_start_marker st)
    as (Hq1 & Hq2 & Hq3).
  { destruct (is_blank_line l), (is_end_line cfg l);
      injection Hp as H1 H2 H3 _; by rewrite H1, H2, H3. }
  destruct (IH _ Hq1) as (-> & -> & ->). by rewrite Hq2, Hq3.
Qed.

(** Inside the text block, lines that are no end marker are appended unless
    they are blank or a start marker. *)
Lemma scan_inside cfg fp ls st :
  in_text_block st = true ->
  Forall (fun l => is_end_line cfg l = false) ls ->
  let st' := foldl (nyt_line cfg fp) st ls in
  in_text_block st' = true /\ text_lines st' = text_lines st ++ kept_lines cfg ls.
Proof.
  intros Hin HF. revert st Hin.
  induction HF as [|l ls Hl _ IH]; intros st Hin; simpl.
  { by rewrite app_nil_r. }
  pose proof (nyt_line_part cfg fp st l) as Hp. rewrite Hl in Hp.
  unfold text_part in Hp. rewrite Hin in Hp.
  unfold kept_lines. rewrite filter_cons. fold (kept_lines cfg ls).
  destruct (is_blank_line l) eqn:Hb.
  { injection Hp as Hp1 Hp2 _ _. destruct (IH _ Hp1) as [-> ->].
    rewrite Hp2. rewrite decide_False by (intros [? _]; done). done. }
  destruct (is_start_line cfg l) eqn:Hs.
  { injection Hp as Hp1 Hp2 _ _. destruct (IH _ Hp1) as [-> ->].
    rewrite Hp2. rewrite decide_False by (intros [_ ?]; done). done. }
  injection Hp as Hp1 Hp2 _ _.
  destruct (IH _ Hp1) as [-> ->].
  rewrite Hp2, decide_True by done. by rewrite <- app_assoc.
Qed.

Lemma scan_keeps_start cfg fp ls st :
  found_start_marker st = true ->
  found_start_marker (foldl (nyt_line cfg fp) st ls) = true.
Proof.
  revert st. induction ls as [|l ls IH]; intros st F; simpl; [done|].
  apply IH. pose proof (nyt_line_part cfg fp st l) as P. unfold text_part in P.
  repeat case_match; injection P as _ _ P _; congruence.
Qed.

Lemma post_text_body st :
  get (data (nyt_post_text st)) "body"
  = match text_lines st with
    | _ :: _ => PStr (Py.strip (Py.join Py.NL (text_lines st)))
    | [] => if found_start_marker st then PStr EmptyString
            else get (data st) "body"
    end.
Proof.
  unfold nyt_post_text, get.
  destruct (text_lines st) eqn:Ht.
  - destruct (found_start_marker st), (found_end_marker st); simpl;
      rewrite ?Ht; simpl; rewrite ?lookup_insert_eq; try done.
  - simpl. by rewrite lookup_insert_eq.
Qed.

Lemma body_untouched cfg fp ls st :
  data (foldl (nyt_line cfg fp) st ls) !! "body" = data st !! "body".
Proof.
  revert st. induction ls as [|l ls IH]; intros st; simpl; [done|].
  rewrite IH, nyt_line_cases. cbv zeta.
  repeat case_match; rewrite ?append_text_data; try done.
  - by apply on_key_other.
  - by apply set_field_other.
  - by apply on_date_other.
  - by apply set_field_other.
Qed.

(** X4: the body of a record is the text between the start marker line and the
    end marker line: every line between them that is not blank, labelled
    lines included, joined by newlines and stripped.  Lines before the start
    marker and after the end marker are no part of it. *)
Theorem nyt_body_between_markers (block fp : string) (cfg : config)
    (pre text post : list string) (s e : string) (d : record) :
  nyt_lines block = pre ++ s :: text ++ e :: post ->
  Forall (fun l => is_start_line cfg l = false) pre ->
  is_start_line cfg s = true ->
  Forall (fun l => is_end_line cfg l = false) text ->
  is_end_line cfg e = true ->
  Forall (fun l => is_start_line cfg l = false) post ->
  (parse_nyt_article block fp cfg).1.1 = Some d ->
  get d "body" = PStr (Py.strip (Py.join Py.NL (kept_lines cfg text))).
Proof.
  intros Hl Hpre Hs Htext He Hpost Hd.
  apply parse_record_state in Hd. subst d.
  rewrite post_text_body, Hl.
  rewrite nyt_scan_app. simpl. rewrite foldl_app. simpl.
  destruct (scan_outside cfg fp pre (nyt_initial fp) eq_refl Hpre)
    as (_ & T0 & _). fold (nyt_scan cfg fp pre) in T0.
  set (st0 := nyt_scan cfg fp pre) in *.
  pose proof (nyt_line_part cfg fp st0 s) as P1.
  assert (is_blank_line s = false) as Hbs.
  { unfold is_start_line in Hs. by destruct (is_blank_line s). }
  rewrite Hbs, Hs in P1. injection P1 as I1 T1 F1 _.
  set (st1 := nyt_line cfg fp st0 s) in *.
  destruct (scan_inside cfg fp text st1 I1 Htext) as [I2 T2].
  set (st2 := foldl (nyt_line cfg fp) st1 text) in *.
  assert (found_start_marker st2 = true) as F2.
  { apply (scan_keeps_start cfg fp text st1 F1). }
  pose proof (nyt_line_part cfg fp st2 e) as P3.
  assert (is_blank_line e = false /\ is_start_line cfg e = false) as [Hbe Hse].
  { clear -He. unfold is_end_line, is_start_line in *.
    destruct (is_blank_line e), (is_labelled_line e),
      (Py.startswith (text_start_marker cfg) (Py.strip e)); done. }
  rewrite Hbe, Hse, He in P3. injection P3 as I3 T3 F3 _.
  set (st3 := nyt_line cfg fp st2 e) in *.
  destruct (scan_outside cfg fp post st3 I3 Hpost) as (_ & T4 & F4).
  rewrite T4, T3, T2, T1, T0, F4, F3, F2. simpl.
  destruct (kept_lines cfg text); done.
Qed.

(** X5: without a start marker line no text is collected: the body stays null,
    also when the block has an end marker. *)
Theorem nyt_body_without_start_marker (block fp : string) (cfg : config)
    (d : record) :
  Forall (fun l => is_start_line cfg l = false) (nyt_lines block) ->
  (parse_nyt_article block fp cfg).1.1 = Some d ->
  get d "body" = PNone.
Proof.
  intros HF Hd. apply parse_record_state in Hd. subst d.
  rewrite post_text_body.
  destruct (scan_outside cfg fp _ (nyt_initial fp) eq_refl HF) as (_ & T & F).
  fold (nyt_scan cfg fp (nyt_lines block)) in T, F. rewrite T, F. simpl.
  unfold get, nyt_scan. by rewrite body_untouched.
Qed.

(** ** The warning that is never given *)

Lemma warn_partial w st :
  is_partial_text_warning w = false ->
  Forall (fun w => is_partial_text_warning w = false) (warnings st) ->
  Forall (fun w => is_partial_text_warning w = false) (warnings (warn w st)).
Proof. intros Hw HF. simpl. apply Forall_app. split; [done|]. by apply Forall_cons. Qed.

Lemma nyt_line_partial cfg fp st line :
  Forall (fun w => is_partial_text_warning w = false) (warnings st) ->
  Forall (fun w => is_partial_text_warning w = false)
    (warnings (nyt_line cfg fp st line)).
Proof.
  intros HF. rewrite nyt_line_cases. cbv zeta.
  repeat case_match; rewrite ?append_text_warnings; try done.
  - unfold on_key. cbv zeta. repeat case_match; simpl; try done;
      (apply Forall_app; split; [done|]; by apply Forall_cons).
  - unfold on_date. repeat case_match; simpl; try done;
      (apply Forall_app; split; [done|]; by apply Forall_cons).
Qed.

Lemma post_text_partial st :
  Forall (fun w => is_partial_text_warning w = false) (warnings st) ->
  Forall (fun w => is_partial_text_warning w = false) (warnings (nyt_post_text st)).
Proof.
  intros HF. unfold nyt_post_text.
  destruct (text_lines st) eqn:Ht; [|done].
  destruct (found_start_marker st), (found_end_marker st); simpl; rewrite ?Ht;
    simpl; try done; (apply Forall_app; split; [done|]; by apply Forall_cons).
Qed.

(** X6: no warning of the parser reports partial text: the branch that would
    give it runs only when no text line was collected, and then the body it
    tests is empty. *)
Theorem nyt_never_warns_partial_text (block fp : string) (cfg : config) :
  Forall (fun w => is_partial_text_warning w = false)
    (parse_nyt_article block fp cfg).2.
Proof.
  assert (H : Forall (fun w => is_partial_text_warning w = false)
                (warnings (nyt_post_text (nyt_scan cfg fp (nyt_lines block))))).
  { apply post_text_partial. unfold nyt_scan.
    generalize (nyt_lines block). intros ls.
    assert (H0 : Forall (fun w => is_partial_text_warning w = false)
                   (warnings (nyt_initial fp))) by apply Forall_nil_2.
    revert H0. generalize (nyt_initial fp).
    induction ls as [|l ls IH]; intros st H0; simpl; [done|].
    by apply IH, nyt_line_partial. }
  unfold parse_nyt_article. cbv zeta.
  repeat case_match; simpl; try done.
  apply Forall_app. split; [done|]. by apply Forall_cons.
Qed.

(** ** Where a bad-key tuple comes from *)

Lemma last_such {A} (p : A -> bool) (l : list A) :
  existsb p l = true ->
  exists pre x post,
    l = pre ++ x :: post /\ p x = true /\ Forall (fun y => p y = false) post.
Proof.
  induction l as [|a l IH]; [done|]. simpl. intros H.
  destruct (existsb p l) eqn:E.
  - destruct (IH eq_refl) as (pre & x & post & -> & Hx & Hpost).
    by exists (a :: pre), x, post.
  - rewrite orb_false_r in H. exists [], a, l. split_and!; [done..|].
    apply Forall_forall. intros y Hy. destruct (p y) eqn:Ey; [|done].
    assert (existsb p l = true); [|congruence].
    apply existsb_exists. exists y. split; [|done]. by apply list_elem_of_In.
Qed.

Lemma existsb_false_Forall {A} (p : A -> bool) (l : list A) :
  existsb p l = false <-> Forall (fun y => p y = false) l.
Proof.
  induction l as [|a l IH]; simpl; [by split|].
  rewrite orb_false_iff, Forall_cons, IH. done.
Qed.

Lemma scan_bad_key cfg fp ls :
  bad_key_info (nyt_scan cfg fp ls)
  = match last (filter (fun l => is_bad_key_line l = true) ls) with
    | Some line => Some (line_value line, fp, bad_key_reason (line_value line))
    | None => None
    end.
Proof.
  induction ls as [|l ls IH] using rev_ind; [done|].
  rewrite nyt_scan_app, filter_app. simpl.
  rewrite filter_cons, filter_nil.
  destruct (is_key_line l) eqn:Hk.
  - destruct (nyt_line_key cfg fp (nyt_scan cfg fp ls) l Hk) as [_ ->].
    unfold is_bad_key_line. rewrite Hk. simpl.
    destruct (bad_key_value (line_value l)).
    + rewrite decide_True by done. by rewrite last_snoc.
    + rewrite decide_False by done. by rewrite app_nil_r.
  - destruct (nyt_line_not_key cfg fp (nyt_scan cfg fp ls) l Hk) as [_ ->].
    rewrite decide_False; [by rewrite app_nil_r|].
    unfold is_bad_key_line. by rewrite Hk.
Qed.

(** X7: a bad-key tuple always stems from a [Key:] line of the block whose value
    is empty or no UUID, the last such line: it holds the value of that line
    and the path of the file, and its reason is [Empty Key] for the empty
    value and [Invalid UUID] otherwise, never [Malformed Key Line]. *)
Theorem nyt_bad_key_origin (block fp : string) (cfg : config)
    (k p r : string) :
  (parse_nyt_article block fp cfg).1.2 = Some (k, p, r) ->
  p = fp
  /\ (exists pre line post,
        nyt_lines block = pre ++ line :: post
        /\ is_bad_key_line line = true /\ line_value line = k
        /\ Forall (fun l => is_bad_key_line l = false) post)
  /\ (k = EmptyString /\ r = "Empty Key"
      \/ k <> EmptyString /\ is_valid_uuid k = false /\ r = "Invalid UUID").
Proof.
  intros H.
  destruct (parse_nyt_article_result block fp cfg) as [[_ [w E]]|[_ E]];
    rewrite E in H; simpl in H; [done|].
  rewrite post_text_bad, scan_bad_key in H.
  destruct (last _) as [line|] eqn:EL; [|done]. injection H as <- <- <-.
  apply last_Some in EL as [keep EL].
  assert (Hin : line ∈ filter (fun l => is_bad_key_line l = true) (nyt_lines block)).
  { rewrite EL. apply elem_of_app. right. by apply list_elem_of_singleton. }
  apply list_elem_of_filter in Hin as [Hbad Hin].
  split; [done|]. split.
  - assert (Hex : existsb is_bad_key_line (nyt_lines block) = true).
    { apply existsb_exists. exists line. split; [|done]. by apply list_elem_of_In. }
    destruct (last_such _ _ Hex) as (pre & x & post & Hl & Hx & Hpost).
    exists pre, x, post. split_and!; try done.
    assert (Hf : filter (fun l => is_bad_key_line l = true) (nyt_lines block)
                 = filter (fun l => is_bad_key_line l = true) pre ++ [x]).
    { rewrite Hl, filter_app, filter_cons, decide_True by done.
      rewrite (filter_none _ post); [done|].
      intros z Hz Hz'. rewrite Forall_forall in Hpost.
      specialize (Hpost z Hz). congruence. }
    rewrite EL in Hf. apply app_inj_tail in Hf as [_ ->]. done.
  - unfold is_bad_key_line, bad_key_value, bad_key_reason in *.
    apply andb_true_iff in Hbad as [_ Hbad].
    destruct (line_value line) as [|a s] eqn:Ev; [by left|]. right.
    simpl in Hbad. apply negb_true_iff in Hbad. done.
Qed.

(** ** The loop of the worker over the blocks of an NYT file *)

Lemma parse_record_Some block fp cfg :
  has_key_line block = true ->
  exists d, (parse_nyt_article block fp cfg).1.1 = Some d /\ dict_truthy d = true.
Proof.
  intros Hk.
  destruct (parse_nyt_article_result block fp cfg) as [[K _]|[K E]].
  - rewrite post_text_kid in K. apply kid_scan_none in K.
    apply existsb_false_Forall in K. unfold has_key_line in Hk. congruence.
  - rewrite E. eexists. split; [done|]. by apply kid_data_truthy.
Qed.

Lemma parse_bad_Some block fp cfg :
  is_Some (parse_nyt_article block fp cfg).1.2 <-> has_bad_key_line block = true.
Proof.
  unfold has_bad_key_line. split.
  - intros [b H].
    destruct (parse_nyt_article_result block fp cfg) as [[_ [w E]]|[_ E]];
      rewrite E in H; simpl in H; [done|].
    rewrite post_text_bad, scan_bad_key in H.
    destruct (last _) as [line|] eqn:EL; [|done].
    apply last_Some in EL as [keep EL].
    assert (Hin : line ∈ filter (fun l => is_bad_key_line l = true)
                           (nyt_lines block)).
    { rewrite EL. apply elem_of_app. right. by apply list_elem_of_singleton. }
    apply list_elem_of_filter in Hin as [Hbad Hin].
    apply existsb_exists. exists line. split; [|done]. by apply list_elem_of_In.
  - intros Hex.
    assert (Hk : has_key_line block = true).
    { apply existsb_exists in Hex as (l & Hin & Hl). apply existsb_exists.
      exists l. split; [done|]. unfold is_bad_key_line in Hl.
      by apply andb_true_iff in Hl as [? _]. }
    destruct (parse_nyt_article_result block fp cfg) as [[K _]|[K E]].
    + rewrite post_text_kid in K. apply kid_scan_none in K.
      apply existsb_false_Forall in K. unfold has_key_line in Hk. congruence.
    + rewrite E. simpl. rewrite post_text_bad, scan_bad_key.
      destruct (last_such _ _ Hex) as (pre & x & post & Hl & Hx & Hpost).
      rewrite Hl, filter_app, filter_cons, decide_True by done.
      rewrite (filter_none _ post).
      * by rewrite last_snoc.
      * intros z Hz Hz'. rewrite Forall_forall in Hpost.
        specialize (Hpost z Hz). congruence.
Qed.

Lemma has_key_strip block : has_key_line (Py.strip block) = has_key_line block.
Proof. unfold has_key_line. by rewrite nyt_lines_strip. Qed.

Lemma has_bad_key_strip block :
  has_bad_key_line (Py.strip block) = has_bad_key_line block.
Proof. unfold has_bad_key_line. by rewrite nyt_lines_strip. Qed.

Lemma blank_block_no_key block :
  Py.strip block = EmptyString -> has_key_line block = false.
Proof.
  intros H. rewrite <- has_key_strip, H. reflexivity.
Qed.

Lemma nyt_step_counts fp cfg cols acc block :
  let acc' := nyt_step nyt_parser_func fp cfg cols acc block in
  length acc'.1 = (length acc.1 + if has_key_line block then 1 else 0)%nat
  /\ length acc'.2 = (length acc.2 + if has_bad_key_line block then 1 else 0)%nat.
Proof.
  unfold nyt_step, nyt_parser_func. cbv zeta.
  destruct (negb (Py.truthy (Py.strip block))) eqn:Hb.
  { assert (Hs : Py.strip block = EmptyString).
    { by destruct (Py.strip block). }
    rewrite (blank_block_no_key _ Hs).
    assert (has_bad_key_line block = false) as ->.
    { rewrite <- has_bad_key_strip, Hs. reflexivity. }
    lia. }
  rewrite <- (has_key_strip block), <- (has_bad_key_strip block).
  pose proof (parse_bad_Some (Py.strip block) fp cfg) as HB.
  destruct (has_key_line (Py.strip block)) eqn:Hk.
  - destruct (parse_record_Some (Py.strip block) fp cfg Hk) as (d & Hd & Ht).
    destruct (parse_nyt_article (Py.strip block) fp cfg) as [[od ob] w].
    simpl in Hd, HB. subst od. rewrite Ht. simpl.
    rewrite length_app. simpl. split; [done|].
    destruct ob as [b|].
    + rewrite (proj1 HB) by eauto. rewrite length_app. simpl. lia.
    + destruct (has_bad_key_line (Py.strip block)); [|lia].
      destruct (proj2 HB eq_refl) as [? ?]. done.
  - assert (Hn : (parse_nyt_article (Py.strip block) fp cfg).1.1 = None).
    { apply record_none_iff. apply existsb_false_Forall. exact Hk. }
    assert (Hnb : has_bad_key_line (Py.strip block) = false).
    { unfold has_key_line in Hk. rewrite existsb_false_Forall in Hk.
      apply existsb_false_Forall. eapply Forall_impl; [exact Hk|].
      intros l Hl. unfold is_bad_key_line. by rewrite Hl. }
    rewrite Hnb.
    destruct (parse_nyt_article (Py.strip block) fp cfg) as [[od ob] w].
    simpl in Hn. subst od. simpl. lia.
Qed.

(** X8: from the blocks of an NYT file the worker keeps one row for every block
    with a [Key:] line and one bad-key tuple for every block with a [Key:]
    line whose value is empty or no UUID; so there are never more bad-key
    tuples than rows. *)
Theorem nyt_loop_counts (fp : string) (cfg : config) (cols : list string)
    (blocks : list string) :
  let r := foldl (nyt_step nyt_parser_func fp cfg cols) ([], []) blocks in
  length r.1 = length (filter (fun b => has_key_line b = true) blocks)
  /\ length r.2 = length (filter (fun b => has_bad_key_line b = true) blocks)
  /\ (length r.2 <= length r.1)%nat.
Proof.
  cbv zeta.
  assert (G : forall acc,
    let r := foldl (nyt_step nyt_parser_func fp cfg cols) acc blocks in
    length r.1 = (length acc.1
                  + length (filter (fun b => has_key_line b = true) blocks))%nat
    /\ length r.2 = (length acc.2
                     + length (filter (fun b => has_bad_key_line b = true) blocks))%nat).
  { induction blocks as [|b bs IH]; intros acc; simpl.
    { split; lia. }
    destruct (IH (nyt_step nyt_parser_func fp cfg cols acc b)) as [-> ->].
    destruct (nyt_step_counts fp cfg cols acc b) as [-> ->].
    rewrite !filter_cons.
    destruct (has_key_line b), (has_bad_key_line b); simpl; split; lia. }
  destruct (G ([], [])) as [-> ->]. simpl. split_and!; [done..|].
  clear G. induction blocks as [|b bs IH]; [done|]. rewrite !filter_cons.
  destruct (has_bad_key_line b) eqn:Hb.
  - assert (has_key_line b = true) as ->.
    { unfold has_bad_key_line in Hb. apply existsb_exists in Hb as (l & Hin & Hl).
      apply existsb_exists. exists l. split; [done|]. unfold is_bad_key_line in Hl.
      by apply andb_true_iff in Hl as [? _]. }
    rewrite !decide_True by done. simpl. lia.
  - rewrite (decide_False (P := false = true)) by done.
    destruct (decide (has_key_line b = true)); simpl; lia.
Qed.

(** * Further facts about the ProQuest parser *)

Lemma linebreak_isspace c : is_linebreak c = true -> Py.isspace c = true.
Proof. destruct c as [[] [] [] [] [] [] [] []]; vm_compute; congruence. Qed.

Lemma rstrip_truthy a s :
  Py.isspace a = false -> Py.truthy (Py.rstrip (String a s)) = true.
Proof. intros H. simpl. rewrite H. by destruct (Py.rstrip s). Qed.

Lemma strip_head s :
  match Py.strip s with String a _ => Py.isspace a = false | EmptyString => True end.
Proof. apply rstrip_head, lstrip_head. Qed.

(** The first line of a text that starts with a character that is no white
    space is not blank. *)
Lemma first_line_truthy a s :
  Py.isspace a = false ->
  Py.truthy (Py.strip (first_splitline (String a s))) = true.
Proof.
  intros H. simpl. destruct (is_linebreak a) eqn:E.
  { apply linebreak_isspace in E. congruence. }
  unfold Py.strip. simpl. rewrite H. by apply rstrip_truthy.
Qed.

Lemma title_is_string a s :
  Py.isspace a = false ->
  exists t c, (title_and_section (String a s)).1.1 = PStr t
              /\ (title_and_section (String a s)).2 = PStr c.
Proof.
  intros H. unfold title_and_section.
  destruct (Re.search fl_DM _ _).
  - destruct (title_brackets _). simpl. eauto.
  - cbv zeta. rewrite (first_line_truthy a s H).
    destruct (title_brackets _). simpl. eauto.
Qed.

Lemma get_singleton (k : string) (v : pyval) : get ({[ k := v ]} : record) k = v.
Proof. unfold get. by rewrite lookup_singleton_eq. Qed.

(** The fields that are set first and never touched again. *)
Lemma first_fields (text : string) :
  Py.strip text <> EmptyString ->
  get (extract_metadata_from_proquest text) "raw_text_length"
    = PInt (count_nonspace (Py.strip text))
  /\ get (extract_metadata_from_proquest text) "title"
     = (title_and_section (Py.strip text)).1.1
  /\ get (extract_metadata_from_proquest text) "clean_title"
     = (title_and_section (Py.strip text)).2.
Proof.
  intros Hne. split_and!.
  all: cbv beta delta [extract_metadata_from_proquest].
  all: name_let; fold article in Hne |- *.
  all: destruct article as [|a s]; [done|].
  all: change (negb (Py.truthy (String a s))) with false; cbv iota.
  all: name_let.
  all: destruct (title_and_section (String a s)) as [[title sec] clean].
  all: cbv beta iota delta [fst snd].
  all: repeat name_let.
  all: repeat section_step; first [apply get_insert_eq | apply get_singleton].
Qed.

Lemma count_nonspace_nonneg s : 0 <= count_nonspace s.
Proof. induction s as [|c s IH]; simpl; [lia|]. destruct (Py.isspace c); lia. Qed.

Lemma stripped_cases text :
  Py.strip text = EmptyString
  \/ exists a s, Py.strip text = String a s /\ Py.isspace a = false.
Proof.
  pose proof (strip_head text) as H.
  destruct (Py.strip text) as [|a s]; [by left|right; eauto].
Qed.

(** X11: the parser gives the empty dictionary exactly for a blank chunk.  For
    every other chunk the dictionary holds the number of characters of the
    stripped chunk that are no white space, which is positive, and a title
    and a clean title that are strings: the branch that stores a null title
    is never taken. *)
Theorem proquest_record_of_chunk (text : string) :
  (extract_metadata_from_proquest text = ∅ <-> Py.strip text = EmptyString)
  /\ (Py.strip text <> EmptyString ->
      dict_truthy (extract_metadata_from_proquest text) = true
      /\ get (extract_metadata_from_proquest text) "raw_text_length"
         = PInt (count_nonspace (Py.strip text))
      /\ 0 < count_nonspace (Py.strip text)
      /\ (exists t, get (extract_metadata_from_proquest text) "title" = PStr t)
      /\ (exists c, get (extract_metadata_from_proquest text) "clean_title" = PStr c)).
Proof.
  assert (Hfull : Py.strip text <> EmptyString ->
            extract_metadata_from_proquest text <> ∅
            /\ get (extract_metadata_from_proquest text) "raw_text_length"
               = PInt (count_nonspace (Py.strip text))
            /\ 0 < count_nonspace (Py.strip text)
            /\ (exists t, get (extract_metadata_from_proquest text) "title" = PStr t)
            /\ (exists c, get (extract_metadata_from_proquest text) "clean_title"
                          = PStr c)).
  { intros Hne. destruct (first_fields text Hne) as (Hl & Ht & Hc).
    destruct (stripped_cases text) as [E|(a & s & E & Ha)]; [done|].
    destruct (title_is_string a s Ha) as (t & c & Ht' & Hc').
    split_and!.
    - intros E0. rewrite E0 in Hl. done.
    - exact Hl.
    - rewrite E. simpl. rewrite Ha. pose proof (count_nonspace_nonneg s). lia.
    - exists t. by rewrite Ht, E.
    - exists c. by rewrite Hc, E. }
  split.
  - split.
    + intros E0. destruct (Py.strip text) eqn:E; [done|].
      destruct Hfull as [Hne _]; [done|]. by destruct Hne.
    + intros E. cbv beta delta [extract_metadata_from_proquest].
      rewrite E. reflexivity.
  - intros Hne. destruct (Hfull Hne) as (H0 & H1 & H2 & H3 & H4).
    split_and!; try done.
    unfold dict_truthy. by rewrite bool_decide_eq_false_2.
Qed.

(** ** The loop of the worker over the chunks of a ProQuest file *)

Lemma proquest_step_count fp cols acc chunk :
  length (proquest_step proquest_parser_func fp cols acc chunk)
  = (length acc + if nonblank chunk then 1 else 0)%nat.
Proof.
  unfold proquest_step, proquest_parser_func, nonblank. cbv zeta.
  destruct (Py.truthy (Py.strip chunk)) eqn:Ht; simpl; [|lia].
  assert (Hne : Py.strip (Py.strip chunk) <> EmptyString).
  { rewrite strip_idemp. by destruct (Py.strip chunk). }
  assert (Hd : dict_truthy (extract_metadata_from_proquest (Py.strip chunk)) = true).
  { unfold dict_truthy. rewrite bool_decide_eq_false_2; [done|].
    intros E0.
    destruct (first_fields (Py.strip chunk) Hne) as (Hl & _). rewrite E0 in Hl.
    done. }
  rewrite Hd, length_app. reflexivity.
Qed.

(** X12: from the chunks of a ProQuest file the worker keeps one row for every
    chunk that is not blank: with this parser no chunk is dropped for an
    empty result. *)
Theorem proquest_loop_count (fp : string) (cols : list string)
    (chunks : list string) :
  length (foldl (proquest_step proquest_parser_func fp cols) [] chunks)
  = length (filter (fun c => nonblank c = true) chunks).
Proof.
  assert (G : forall acc,
            length (foldl (proquest_step proquest_parser_func fp cols) acc chunks)
            = (length acc + length (filter (fun c => nonblank c = true) chunks))%nat).
  { induction chunks as [|c cs IH]; intros acc; simpl; [lia|].
    rewrite IH, proquest_step_count, filter_cons.
    destruct (nonblank c); simpl; lia. }
  by rewrite G.
Qed.

(** * Further facts about the worker *)

Lemma str_in_elem s l : str_in s l = true <-> s ∈ l.
Proof.
  unfold str_in. rewrite existsb_exists. split.
  - intros (x & Hin & ->%String.eqb_eq). by apply list_elem_of_In.
  - intros H. exists s. split; [by apply list_elem_of_In|apply String.eqb_refl].
Qed.

(** ** What the worker writes *)

(** X13: when the worker returns a result, the file type is one of the two it
    knows, the result names the type and the path of the file it wrote in
    the temporary directory, every row of that file has exactly the target
    columns of the type, the file holds at least one row unless the type
    has no target column, and then it holds none, no other file is touched,
    and a list of bad keys is returned for an NYT file only. *)
Theorem worker_result_shape
    (proquest_parser : string -> outcome record)
    (nyt_parser : string -> string -> config -> outcome nyt_result)
    (env : file_env) (fs fs' : artifacts)
    (file_path file_type temp_dir : string) (cfg : config)
    (proquest_cols nyt_cols : list string) (res : worker_result) :
  process_file_worker_with proquest_parser nyt_parser env fs file_path file_type
    temp_dir cfg proquest_cols nyt_cols = (Some res, fs') ->
  (file_type = "proquest" \/ file_type = "nyt")
  /\ res.1.2 = file_type
  /\ res.1.1 = path_join temp_dir
                 (file_type +:+ "_" +:+ fresh_uuid env +:+ ".parquet")
  /\ (is_Some res.2 <-> file_type = "nyt")
  /\ exists rows,
       fs' = <[res.1.1 := rows]> fs
       /\ (rows = [] <-> target_cols_of file_type proquest_cols nyt_cols = [])
       /\ Forall (fun r => dom r
                           = list_to_set
                               (target_cols_of file_type proquest_cols nyt_cols))
            rows.
Proof.
  unfold process_file_worker_with. intros H.
  destruct (read_content env) as [content|]; [|done].
  destruct (parse_file _ _ _ _ _ _ _ _) as [[parsed bks]|] eqn:EP; [|done].
  destruct parsed as [|r0 parsed]; [done|].
  cbv zeta in H.
  destruct (arrow_ok env); [|done]. cbn [negb] in H.
  destruct (write_ok env); [|done]. cbn [negb] in H.
  injection H as <- <-. cbn [fst snd].
  assert (Hft : file_type = "proquest" \/ file_type = "nyt").
  { unfold parse_file in EP.
    destruct (String.eqb_spec file_type "proquest") as [->|_]; [by left|].
    destruct (String.eqb_spec file_type "nyt") as [->|_]; [by right|]. done. }
  split_and!; try done.
  - destruct Hft as [-> | ->]; simpl; split; try done; by intros [? ?].
  - eexists. split; [reflexivity|].
    fold (target_cols_of file_type proquest_cols nyt_cols).
    unfold from_pydict.
    destruct (target_cols_of file_type proquest_cols nyt_cols) as [|c cols] eqn:EC.
    + split; [done|]. apply Forall_nil_2.
    + split; [done|].
      apply Forall_forall. intros r Hr. apply list_elem_of_In in Hr.
      apply in_map_iff in Hr as (a & <- & _). apply coerce_row_dom.
Qed.

(** ** Rows name the file they come from *)

Lemma proquest_step_path parser fp cols acc chunk :
  "file_path" ∈ cols ->
  Forall (fun r => get r "file_path" = PStr fp) acc ->
  Forall (fun r => get r "file_path" = PStr fp)
    (proquest_step parser fp cols acc chunk).
Proof.
  intros Hc HF. unfold proquest_step. cbv zeta.
  repeat case_match; try done.
  - apply Forall_app. split; [done|]. apply Forall_cons. split; [|done].
    rewrite get_project by done. apply get_insert_eq.
  - assert (str_in "file_path" cols = true) by by apply str_in_elem.
    congruence.
Qed.

Lemma nyt_record_path block fp cfg d :
  (parse_nyt_article block fp cfg).1.1 = Some d ->
  get d "source_filepath" = PStr fp.
Proof.
  intros Hd. apply parse_record_state in Hd. subst d. unfold get.
  rewrite post_text_other by not_in_list.
  unfold nyt_scan. rewrite scan_other by not_in_list. reflexivity.
Qed.

Lemma nyt_step_path fp cfg cols acc block :
  "source_filepath" ∈ cols ->
  Forall (fun r => get r "source_filepath" = PStr fp) acc.1 ->
  Forall (fun r => get r "source_filepath" = PStr fp)
    (nyt_step nyt_parser_func fp cfg cols acc block).1.
Proof.
  intros Hc HF. unfold nyt_step, nyt_parser_func. cbv zeta.
  destruct (negb (Py.truthy (Py.strip block))); [done|].
  destruct (parse_nyt_article (Py.strip block) fp cfg) as [[[d|] b] w] eqn:E;
    [|done].
  destruct (dict_truthy d); [|done]. simpl.
  apply Forall_app. split; [done|]. apply Forall_cons. split; [|done].
  rewrite get_project by done. apply (nyt_record_path (Py.strip block) fp cfg).
  by rewrite E.
Qed.

Lemma parse_file_path content fp ft cfg pcols ncols parsed bks :
  parse_file proquest_parser_func nyt_parser_func content fp ft cfg pcols ncols
    = Some (parsed, bks) ->
  path_column ft ∈ target_cols_of ft pcols ncols ->
  Forall (fun r => get r (path_column ft) = PStr fp) parsed.
Proof.
  unfold parse_file, path_column, target_cols_of. intros H Hc.
  destruct (String.eqb ft "proquest").
  - cbv zeta in H. destruct (Py.split _ content) as [chunks|]; [|done].
    destruct (article_chunks chunks) as [|c0 cs] eqn:EA; [done|].
    injection H as <- _.
    assert (G : forall l acc,
              Forall (fun r => get r "file_path" = PStr fp) acc ->
              Forall (fun r => get r "file_path" = PStr fp)
                (foldl (proquest_step proquest_parser_func fp pcols) acc l)).
    { induction l as [|x l IH]; intros acc HF; simpl; [done|].
      by apply IH, proquest_step_path. }
    by apply (G (c0 :: cs)).
  - destruct (String.eqb ft "nyt"); [|done].
    destruct (Py.split _ content) as [blocks|]; [|done].
    assert (G : forall l acc,
              Forall (fun r => get r "source_filepath" = PStr fp) acc.1 ->
              Forall (fun r => get r "source_filepath" = PStr fp)
                (foldl (nyt_step nyt_parser_func fp cfg ncols) acc l).1).
    { induction l as [|x l IH]; intros acc HF; simpl; [done|].
      by apply IH, nyt_step_path. }
    specialize (G blocks ([], []) (Forall_nil_2 _)).
    destruct (foldl _ _ blocks) as [p b]. injection H as <- _. exact G.
Qed.

Lemma coerce_path_column ft v :
  coerce_value ft (path_column ft) v = v.
Proof.
  unfold coerce_value, path_column.
  destruct (String.eqb ft "proquest") eqn:E.
  - apply String.eqb_eq in E. by subst ft.
  - by rewrite andb_false_r.
Qed.

(** X14: every row the worker writes names the file it was parsed from, in the
    column [file_path] of a ProQuest row and [source_filepath] of an NYT row,
    when that column is among the target columns. *)
Theorem worker_rows_name_their_file (env : file_env) (fs fs' : artifacts)
    (file_path file_type temp_dir : string) (cfg : config)
    (proquest_cols nyt_cols : list string) (res : worker_result) :
  process_file_worker env fs file_path file_type temp_dir cfg proquest_cols nyt_cols
    = (Some res, fs') ->
  path_column file_type ∈ target_cols_of file_type proquest_cols nyt_cols ->
  exists rows,
    fs' !! res.1.1 = Some rows
    /\ rows <> []
    /\ Forall (fun r => get r (path_column file_type) = PStr file_path) rows.
Proof.
  unfold process_file_worker, process_file_worker_with. intros H Hc.
  destruct (read_content env) as [content|]; [|done].
  destruct (parse_file _ _ _ _ _ _ _ _) as [[parsed bks]|] eqn:EP; [|done].
  pose proof (parse_file_path _ _ _ _ _ _ _ _ EP Hc) as HF.
  destruct parsed as [|r0 parsed]; [done|].
  cbv zeta in H.
  destruct (arrow_ok env); [|done]. cbn [negb] in H.
  destruct (write_ok env); [|done]. cbn [negb] in H.
  injection H as <- <-. cbn [fst snd].
  eexists. split; [apply lookup_insert_eq|].
  fold (target_cols_of file_type proquest_cols nyt_cols).
  unfold from_pydict.
  destruct (target_cols_of file_type proquest_cols nyt_cols) as [|c cols] eqn:EC;
    [by apply elem_of_nil in Hc|].
  split; [done|].
  apply Forall_forall. intros r Hr. apply list_elem_of_In in Hr.
  apply in_map_iff in Hr as (a & <- & Ha).
  rewrite get_coerce_row by done. rewrite coerce_path_column.
  rewrite Forall_forall in HF. apply HF. by apply list_elem_of_In.
Qed.

(** ** A worker without a result *)

(** X15: a worker that returns no result touches at most the path of the
    file it failed to write: every other file of the temporary directory is
    as before; unless the write itself failed, the directory is unchanged;
    and after a failed write the path holds nothing when the file was
    removed, and what the write left there when the removal failed too. *)
Theorem worker_without_result_touches_one_path
    (proquest_parser : string -> outcome record)
    (nyt_parser : string -> string -> config -> outcome nyt_result)
    (env : file_env) (fs fs' : artifacts)
    (file_path file_type temp_dir : string) (cfg : config)
    (proquest_cols nyt_cols : list string) :
  process_file_worker_with proquest_parser nyt_parser env fs file_path file_type
    temp_dir cfg proquest_cols nyt_cols = (None, fs') ->
  let temp_filepath :=
    path_join temp_dir (file_type +:+ "_" +:+ fresh_uuid env +:+ ".parquet") in
  (forall p, p <> temp_filepath -> fs' !! p = fs !! p)
  /\ (fs' = fs
      \/ write_ok env = false
         /\ fs' !! temp_filepath = left_behind env
         /\ (left_behind env = None -> fs' = delete temp_filepath fs)
         /\ (forall rows, left_behind env = Some rows ->
               fs' = <[temp_filepath := rows]> fs)).
Proof.
  unfold process_file_worker_with. intros H.
  destruct (read_content env) as [content|]; [|injection H as <-; by split; [|left]].
  destruct (parse_file _ _ _ _ _ _ _ _) as [[parsed bks]|];
    [|injection H as <-; by split; [|left]].
  destruct parsed as [|r0 parsed]; [injection H as <-; by split; [|left]|].
  cbv zeta in H.
  destruct (arrow_ok env); cbn [negb] in H; [|injection H as <-; by split; [|left]].
  destruct (write_ok env); cbn [negb] in H; [done|].
  injection H as <-. cbv zeta.
  destruct (left_behind env) as [rows|].
  - split; [intros p Hp; by rewrite lookup_insert_ne|right].
    split_and!; [done|apply lookup_insert_eq|done|by intros ? [= <-]].
  - split; [intros p Hp; by rewrite lookup_delete_ne|right].
    split_and!; [done|apply lookup_delete_eq|done|done].
Qed.

(** * Further facts about the bulk load *)

Lemma extends_refl d : extends d d.
Proof. by split_and!. Qed.

Lemma extends_trans d1 d2 d3 : extends d1 d2 -> extends d2 d3 -> extends d1 d3.
Proof.
  intros (A1 & B1 & C1 & D1) (A2 & B2 & C2 & D2). split_and!.
  - by etrans.
  - by etrans.
  - by etrans.
  - congruence.
Qed.

Lemma load_outcome_extends eng fs f files d t' :
  load_outcome eng fs f files d = Some t' ->
  exists rows, t' = get_table f d ++ assign_ids (max_id (get_table f d)) rows
               /\ insert_allowed (get_table f d)
                    (assign_ids (max_id (get_table f d)) rows) = true.
Proof.
  unfold load_outcome. intros H.
  destruct (existsb _ _); [done|].
  destruct (_ !! _); [by destruct (read_parquet fs files)|].
  destruct (read_parquet fs files) as [rows|]; [|done]. cbv zeta in H.
  destruct (id_sum_ok _ _); [|done]. cbn [andb] in H.
  destruct (insert_allowed _ _) eqn:E; [|done].
  injection H as <-. eauto.
Qed.

Lemma load_result_extends eng fs f files d :
  extends d (load_result eng fs f files d).2.
Proof.
  unfold load_result. destruct files as [|x xs]; [apply extends_refl|].
  destruct (load_outcome _ _ _ _ _) as [t'|] eqn:E; [|apply extends_refl].
  apply load_outcome_extends in E as (rows & -> & _).
  destruct f; simpl; split_and!; try done; by apply prefix_app_r.
Qed.

Lemma foldl_insert_or_ignore_prefix now bks rows :
  rows `prefix_of` foldl (insert_or_ignore now) rows bks.
Proof.
  revert rows. induction bks as [|b bks IH]; intros rows; simpl; [done|].
  etrans; [|apply IH]. unfold insert_or_ignore.
  case_bool_decide; [done|]. by apply prefix_app_r.
Qed.

Lemma persist_result_extends eng bks d : extends d (persist_result eng bks d).
Proof.
  unfold persist_result. destruct bks as [|b bks]; [apply extends_refl|].
  destruct (_ || _); [apply extends_refl|].
  unfold executemany_bad_keys. split_and!; try done.
  apply foldl_insert_or_ignore_prefix.
Qed.

Lemma insert_allowed_NoDup (t new : table) :
  insert_allowed t new = true ->
  NoDup t.*1 -> NoDup (t ++ new).*1.
Proof.
  unfold insert_allowed. intros [Hall Hnd]%andb_true_iff Ht.
  apply bool_decide_eq_true in Hnd. rewrite fmap_app. apply NoDup_app.
  split_and!; [done| |done].
  intros i Hi Hi'. apply list_elem_of_fmap in Hi' as ([i' r] & -> & Hin).
  rewrite forallb_forall in Hall. apply list_elem_of_In in Hin.
  specialize (Hall _ Hin). simpl in Hall.
  apply andb_true_iff in Hall as [_ Hall]. apply negb_true_iff in Hall.
  apply bool_decide_eq_false in Hall. done.
Qed.

Lemma insert_allowed_range (t new : table) :
  insert_allowed t new = true ->
  Forall (fun i => 0 <= i <= UBIGINT_MAX) t.*1 ->
  Forall (fun i => 0 <= i <= UBIGINT_MAX) (t ++ new).*1.
Proof.
  unfold insert_allowed. intros [Hall _]%andb_true_iff Ht.
  rewrite fmap_app. apply Forall_app. split; [done|].
  apply Forall_forall. intros i ([i' r] & -> & Hin)%list_elem_of_fmap.
  rewrite forallb_forall in Hall. apply list_elem_of_In in Hin.
  specialize (Hall _ Hin). simpl in Hall.
  apply andb_true_iff in Hall as [Hall _].
  apply andb_true_iff in Hall as [H0 H1]. apply Z.leb_le in H0, H1. done.
Qed.

Lemma load_result_constraints eng fs f files d :
  constraints_hold d -> constraints_hold (load_result eng fs f files d).2.
Proof.
  intros [Ht Hb]. unfold load_result. destruct files as [|x xs]; [done|].
  destruct (load_outcome _ _ _ _ _) as [t'|] eqn:E; [|done].
  apply load_outcome_extends in E as (rows & -> & Hok). simpl.
  split.
  - intros g. destruct (decide (g = f)) as [->|Hne].
    + rewrite get_set_table. destruct (Ht f) as [Hn Hr].
      split; [by apply insert_allowed_NoDup|by apply insert_allowed_range].
    + assert (g = other f) as -> by (destruct g, f; done).
      rewrite get_set_table_other. apply Ht.
  - destruct f; exact Hb.
Qed.

Lemma persist_result_constraints eng bks d :
  constraints_hold d -> constraints_hold (persist_result eng bks d).
Proof.
  intros [Ht Hb]. split.
  - intros f. rewrite get_table_persist. apply Ht.
  - unfold persist_result. destruct bks as [|b bks]; [done|].
    destruct (_ || _); [done|].
    unfold executemany_bad_keys, set_bad_keys. cbn [bad_keys].
    by apply executemany_NoDup.
Qed.

(** The database a run leaves is the one it found, or the one the three
    transactions of the bulk load leave. *)
Lemma load_articles_parallel_result eng envs temp_dir cfg cols files db :
  (load_articles_parallel eng envs temp_dir cfg cols files db).2 = db
  \/ exists fs results,
       (load_articles_parallel eng envs temp_dir cfg cols files db).2
       = persist_result eng (bad_keys_of results)
           (load_result eng fs NYT (files_of "nyt" results)
              (load_result eng fs ProQuest (files_of "proquest" results) db).2).2.
Proof.
  unfold load_articles_parallel.
  destruct files as [|f0 files]; [by left|].
  destruct cols as [[[|p pc] [|n nc]]|]; try by left.
  cbv zeta. destruct (run_workers _ _ _ _ _ _) as [[|r0 results] fs]; [by left|].
  right. exists fs, (r0 :: results).
  pose proof (bulk_load_result eng fs (r0 :: results) db) as E. cbv zeta in E.
  rewrite E. reflexivity.
Qed.

(** X17: a run only adds rows: whatever the files hold and whichever statement
    fails, the rows that the two article tables and the bad-key table held
    before are still there afterwards, unchanged and in the same place, and
    no temporary table is left behind. *)
Theorem run_only_appends (eng : engine) (envs : string -> file_env)
    (temp_dir : string) (cfg : config) (cols : option (list string * list string))
    (files_to_process : list (string * string)) (db : database) :
  extends db
    (load_articles_parallel eng envs temp_dir cfg cols files_to_process db).2.
Proof.
  destruct (load_articles_parallel_result eng envs temp_dir cfg cols
              files_to_process db) as [-> | (fs & results & ->)].
  - apply extends_refl.
  - eapply extends_trans; [|apply persist_result_extends].
    eapply extends_trans; [|apply load_result_extends].
    apply load_result_extends.
Qed.

(** X18: a run keeps the constraints of the tables: when the identifiers of the
    two article tables are unique and in the range of the column and the
    bad-key triples are unique before, they are so afterwards. *)
Theorem run_keeps_constraints (eng : engine) (envs : string -> file_env)
    (temp_dir : string) (cfg : config) (cols : option (list string * list string))
    (files_to_process : list (string * string)) (db : database) :
  constraints_hold db ->
  constraints_hold
    (load_articles_parallel eng envs temp_dir cfg cols files_to_process db).2.
Proof.
  intros H.
  destruct (load_articles_parallel_result eng envs temp_dir cfg cols
              files_to_process db) as [-> | (fs & results & ->)]; [done|].
  by apply persist_result_constraints, load_result_constraints,
    load_result_constraints.
Qed.

(** * Further facts about the reader *)

Lemma In_elem {A} (x : A) (l : list A) : In x l <-> x ∈ l.
Proof. symmetry. apply list_elem_of_In. Qed.

Lemma add_fallbacks_spec (l acc : list string) :
  let r := foldl (fun acc enc =>
                    if negb (str_in (Py.lower enc) (map Py.lower acc))
                    then acc ++ [enc] else acc) acc l in
  (NoDup (map Py.lower acc) -> NoDup (map Py.lower r))
  /\ acc `prefix_of` r
  /\ forall f, f ∈ l -> Py.lower f ∈ map Py.lower r.
Proof.
  revert acc. induction l as [|enc l IH]; intros acc; cbn [foldl].
  { split_and!; [done..|]. intros f Hf. by apply elem_of_nil in Hf. }
  cbv zeta in IH |- *.
  set (acc' := if negb (str_in (Py.lower enc) (map Py.lower acc))
               then acc ++ [enc] else acc).
  destruct (IH acc') as (IH1 & IH2 & IH3).
  assert (Hin : Py.lower enc ∈ map Py.lower acc').
  { subst acc'. destruct (str_in _ _) eqn:E; cbn [negb].
    - by apply str_in_elem.
    - rewrite map_app. apply elem_of_app. right. by left. }
  assert (Hpre : acc `prefix_of` acc').
  { subst acc'. destruct (negb _); [by apply prefix_app_r|done]. }
  split_and!.
  - intros Hnd. apply IH1. subst acc'.
    destruct (str_in _ _) eqn:E; cbn [negb]; [done|].
    rewrite map_app. apply NoDup_app. split_and!; [done| |by apply NoDup_singleton].
    intros x Hx Hx'. apply list_elem_of_singleton in Hx'. subst x.
    apply str_in_elem in Hx. congruence.
  - by etrans.
  - intros f [->|Hf]%elem_of_cons; [|by apply IH3].
    destruct IH2 as [k ->]. rewrite map_app. apply elem_of_app. by left.
Qed.

(** X16: the encodings the reader tries are distinct also when the case of their
    names is ignored, so none is tried twice; UTF-8 comes first; and each of
    the three fallbacks and the detected encoding is among them, under its
    own or a differently cased name. *)
Theorem reader_tries_each_encoding_once (det : option string) :
  NoDup (map Py.lower (encodings_to_try det))
  /\ head (encodings_to_try det) = Some "utf-8"
  /\ (forall f, f ∈ ENCODING_FALLBACKS ->
        Py.lower f ∈ map Py.lower (encodings_to_try det))
  /\ (forall enc, det = Some enc ->
        Py.lower enc ∈ map Py.lower (encodings_to_try det)).
Proof.
  unfold encodings_to_try. cbv zeta.
  set (acc := match det with
              | Some enc => if negb (String.eqb (Py.lower enc) "utf-8")
                            then ["utf-8"] ++ [enc] else ["utf-8"]
              | None => ["utf-8"]
              end).
  destruct (add_fallbacks_spec ENCODING_FALLBACKS acc) as (H1 & [k H2] & H3).
  assert (Hacc : NoDup (map Py.lower acc) /\ exists t, acc = "utf-8" :: t).
  { subst acc. destruct det as [enc|].
    - destruct (String.eqb_spec (Py.lower enc) "utf-8") as [E|E]; cbn [negb].
      + split; [|by eexists]. change (NoDup ["utf-8"]). apply NoDup_singleton.
      + split; [|by eexists]. change (NoDup ["utf-8"; Py.lower enc]).
        apply NoDup_cons. split; [|apply NoDup_singleton].
        intros Hx%list_elem_of_singleton. congruence.
    - split; [|by eexists]. change (NoDup ["utf-8"]). apply NoDup_singleton. }
  destruct Hacc as [Hnd [t Ht]].
  split_and!.
  - by apply H1.
  - rewrite H2, Ht. reflexivity.
  - exact H3.
  - intros enc ->. rewrite H2, map_app. apply elem_of_app. left.
    subst acc. destruct (String.eqb_spec (Py.lower enc) "utf-8") as [E|E];
      cbn [negb].
    + rewrite E. by left.
    + right. by left.
Qed.

(** * Further facts about the validation of keys *)

Lemma hex_or_hyphen_plain c :
  is_hex_digit c || Ascii.eqb c "-" = true ->
  Py.isspace c = false /\ is_brace c = false /\ c <> "u"%char.
Proof. each_char c; vm_compute; intros H; split_and!; congruence. Qed.

Lemma hex_plain c :
  is_hex_digit c = true ->
  Py.isspace c = false /\ c <> "_"%char /\ c <> "+"%char /\ c <> "-"%char
  /\ c <> "x"%char /\ c <> "X"%char
  /\ exists v, hex_val c = Some v /\ 0 <= v < 16.
Proof.
  each_char c; vm_compute; intros H; try discriminate H;
    split_and!; try congruence; eexists; (split; [reflexivity|done]).
Qed.

(** Removing a text whose first character does not occur changes nothing. *)
Lemma remove_go_absent (a : ascii) (old s : string) :
  Py.forallb_str (fun c => negb (Ascii.eqb c a)) s = true ->
  Py.remove_go (String a old) 0 s = s.
Proof.
  induction s as [|c s IH]; [done|]. cbn [Py.forallb_str Py.remove_go].
  intros [Hc Hs]%andb_true_iff. apply negb_true_iff, Ascii.eqb_neq in Hc.
  cbn [String.prefix]. destruct (ascii_dec a c) as [->|_]; [done|].
  by rewrite IH.
Qed.

Lemma forallb_str_impl (p q : ascii -> bool) s :
  (forall c, p c = true -> q c = true) ->
  Py.forallb_str p s = true -> Py.forallb_str q s = true.
Proof.
  intros Hpq. induction s as [|c s IH]; [done|]. simpl.
  intros [Hc Hs]%andb_true_iff. rewrite (Hpq _ Hc). by apply IH.
Qed.

Lemma lstrip_by_none p s :
  Py.forallb_str (fun c => negb (p c)) s = true -> Py.lstrip_by p s = s.
Proof.
  destruct s as [|c s]; [done|]. simpl. intros [Hc _]%andb_true_iff.
  apply negb_true_iff in Hc. by rewrite Hc.
Qed.

Lemma rstrip_by_none p s :
  Py.forallb_str (fun c => negb (p c)) s = true -> Py.rstrip_by p s = s.
Proof.
  induction s as [|c s IH]; [done|]. simpl. intros [Hc Hs]%andb_true_iff.
  apply negb_true_iff in Hc. rewrite IH, Hc by done. by destruct s.
Qed.

Lemma rstrip_none s :
  Py.forallb_str (fun c => negb (Py.isspace c)) s = true -> Py.rstrip s = s.
Proof.
  induction s as [|c s IH]; [done|]. simpl. intros [Hc Hs]%andb_true_iff.
  apply negb_true_iff in Hc. rewrite IH, Hc by done. by destruct s.
Qed.

Lemma strip_none s :
  Py.forallb_str (fun c => negb (Py.isspace c)) s = true -> Py.strip s = s.
Proof.
  intros H. unfold Py.strip.
  assert (Py.lstrip s = s) as ->; [|by apply rstrip_none].
  destruct s as [|c s]; [done|]. simpl in *.
  apply andb_true_iff in H as [Hc _]. apply negb_true_iff in Hc. by rewrite Hc.
Qed.

(** Removing the hyphens leaves the hexadecimal digits. *)
Lemma remove_hyphens_hex s :
  Py.forallb_str (fun c => is_hex_digit c || Ascii.eqb c "-") s = true ->
  Py.forallb_str is_hex_digit (Py.remove_all "-" s) = true.
Proof.
  unfold Py.remove_all. induction s as [|c s IH]; [done|].
  cbn [Py.forallb_str Py.remove_go String.prefix String.length Nat.sub].
  intros [Hc Hs]%andb_true_iff.
  destruct (ascii_dec "-" c) as [<-|Hne].
  - destruct s; by apply IH.
  - cbn [Py.forallb_str]. rewrite IH by done.
    apply orb_true_iff in Hc as [->|Hc%Ascii.eqb_eq]; [done|congruence].
Qed.

Lemma digits16_step acc b c s v :
  hex_val c = Some v -> c <> "_"%char ->
  digits16 acc b (String c s) = digits16 (16 * acc + v) true s.
Proof.
  intros Hv Hc. each_char c; try (by destruct Hc); cbn [digits16]; by rewrite Hv.
Qed.

Lemma digits16_hex s acc b :
  Py.forallb_str is_hex_digit s = true ->
  0 <= acc ->
  (s <> EmptyString \/ b = true) ->
  exists v, digits16 acc b s = Some v
            /\ 0 <= v < (acc + 1) * 16 ^ Z.of_nat (String.length s).
Proof.
  revert acc b. induction s as [|c s IH]; intros acc b Hs Hacc Hb.
  - destruct Hb as [Hb | Hb]; [done|subst b]. exists acc. split; [done|]. simpl. lia.
  - cbn [Py.forallb_str] in Hs. apply andb_true_iff in Hs as [Hc Hs].
    destruct (hex_plain c Hc) as (_ & Hu & _ & _ & _ & _ & v & Hv & Hr).
    rewrite (digits16_step acc b c s v Hv Hu).
    destruct (IH (16 * acc + v) true Hs ltac:(lia) ltac:(by right))
      as (w & -> & Hw).
    exists w. split; [done|].
    cbn [String.length]. rewrite Nat2Z.inj_succ, Z.pow_succ_r by lia.
    nia.
Qed.

Lemma int16_hex s :
  Py.forallb_str is_hex_digit s = true ->
  int16 s = match digits16 0 false s with Some v => Some (1 * v) | None => None end.
Proof.
  intros Hs. unfold int16.
  rewrite strip_none
    by (eapply forallb_str_impl; [|exact Hs];
        intros c Hc; by destruct (hex_plain c Hc) as [-> _]).
  destruct s as [|c1 s]; [done|].
  cbn [Py.forallb_str] in Hs. apply andb_true_iff in Hs as [H1 Hs].
  destruct (hex_plain c1 H1) as (_ & _ & Hp & Hm & _).
  each_char c1; try discriminate H1; try (by destruct Hp); try (by destruct Hm);
    try reflexivity.
  destruct s as [|c2 s]; [done|].
  cbn [Py.forallb_str] in Hs. apply andb_true_iff in Hs as [H2 Hs].
  destruct (hex_plain c2 H2) as (_ & _ & _ & _ & Hx & HX & _).
  each_char c2; try discriminate H2; try (by destruct Hx); try (by destruct HX);
    reflexivity.
Qed.

Lemma length_truthy s n : String.length s = S n -> Py.truthy s = true.
Proof. by destruct s. Qed.

(** X10: every key made of hexadecimal digits and hyphens that has 32 digits is
    accepted, wherever its hyphens stand. *)
Theorem hex_digits_and_hyphens_are_valid (key_str : string) :
  Py.forallb_str (fun c => is_hex_digit c || Ascii.eqb c "-") key_str = true ->
  String.length (Py.remove_all "-" key_str) = 32%nat ->
  is_valid_uuid key_str = true.
Proof.
  intros Hs Hlen. unfold is_valid_uuid.
  assert (Ht : Py.truthy key_str = true).
  { destruct key_str; [done|done]. }
  rewrite Ht. cbn [negb]. unfold uuid_of_hex. cbv zeta.
  unfold Py.remove_all.
  rewrite (remove_go_absent "u" "rn:")
    by (eapply forallb_str_impl; [|exact Hs]; intros c Hc;
        destruct (hex_or_hyphen_plain c Hc) as (_ & _ & Hu);
        by apply negb_true_iff, Ascii.eqb_neq).
  rewrite (remove_go_absent "u" "uid:")
    by (eapply forallb_str_impl; [|exact Hs]; intros c Hc;
        destruct (hex_or_hyphen_plain c Hc) as (_ & _ & Hu);
        by apply negb_true_iff, Ascii.eqb_neq).
  rewrite lstrip_by_none, rstrip_by_none
    by (eapply forallb_str_impl; [|exact Hs]; intros c Hc;
        destruct (hex_or_hyphen_plain c Hc) as (_ & -> & _); done).
  fold (Py.remove_all "-" key_str).
  rewrite Hlen. cbn [Nat.eqb negb].
  pose proof (remove_hyphens_hex key_str Hs) as Hhex.
  rewrite (int16_hex _ Hhex).
  destruct (digits16_hex (Py.remove_all "-" key_str) 0 false Hhex ltac:(lia))
    as (v & -> & Hv).
  { left. intros E. rewrite E in Hlen. done. }
  rewrite Hlen in Hv.
  assert (0 <= 1 * v < 2 ^ 128) as [H0 H1].
  { change (16 ^ Z.of_nat 32) with (2 ^ 128) in Hv. lia. }
  apply Z.leb_le in H0. apply Z.ltb_lt in H1. by rewrite H0, H1.
Qed.

(** X9: the date of eight digits that the parser wrote as [YYYY-MM-DD] is
    stored as that calendar date when year, month and day are those of a
    day of the calendar, and as null otherwise: a month above twelve, a day
    that the month does not have, and the year 0000 are all stored as
    null. *)
Theorem nyt_date_as_stored (v : string) :
  is_8_digits v = true ->
  let y := int_of_digits (Py.take 4 v) in
  let m := int_of_digits (Py.take 2 (Py.drop 4 v)) in
  let d := int_of_digits (Py.drop 6 v) in
  coerce_value "nyt" "publication_date" (PStr (format_date v))
  = if (1 <=? y) && (1 <=? m) && (m <=? 12) && (1 <=? d) && (d <=? days_in_month y m)
    then PDate y m d else PNone.
Proof.
  intros H8.
  destruct (eight_digits_shape v H8) as (c1 & c2 & c3 & c4 & c5 & c6 & c7 & c8 & -> & HF).
  cbv [format_date Py.take Py.drop String.append]. unfold coerce_value.
  change (String.eqb "nyt" "nyt" && String.eqb "publication_date" "publication_date")
    with true. cbv iota.
  pose proof (strptime_date_digits c1 c2 c3 c4 c5 c6 c7 c8 HF) as E.
  cbv zeta in E. unfold two_digits in E. rewrite E.
  by destruct (_ && _).
Qed.

(** * Facts about the merging of configurations *)

Lemma merge_config_nil target : merge_config target [] = target.
Proof. reflexivity. Qed.

Lemma merge_config_cons target key value rest :
  merge_config target ((key, value) :: rest)
  = merge_config (merge_item target key value) rest.
Proof.
  unfold merge_config, merge_item. cbn [merge_value].
  destruct value as [v|sv]; [done|]. by destruct (dict_get key target) as [[|]|].
Qed.

Lemma dict_get_set_eq key v d : dict_get key (dict_set key v d) = Some v.
Proof.
  induction d as [|[k x] d IH]; simpl.
  - by rewrite String.eqb_refl.
  - destruct (String.eqb k key) eqn:E; simpl; by rewrite E.
Qed.

Lemma dict_get_set_ne key k v d :
  key <> k -> dict_get k (dict_set key v d) = dict_get k d.
Proof.
  intros Hne. induction d as [|[k' x] d IH]; simpl.
  - by apply String.eqb_neq in Hne as ->.
  - destruct (String.eqb_spec k' key) as [->|E]; simpl.
    + by apply String.eqb_neq in Hne as ->.
    + by rewrite IH.
Qed.

Lemma dict_get_None key d : key ∉ keys d -> dict_get key d = None.
Proof.
  induction d as [|[k x] d IH]; [done|]. simpl. intros Hk.
  apply not_elem_of_cons in Hk as [Hne Hk].
  apply not_eq_sym, String.eqb_neq in Hne. rewrite Hne. by apply IH.
Qed.

Lemma dict_get_Some key d x : dict_get key d = Some x -> key ∈ keys d.
Proof.
  induction d as [|[k y] d IH]; [done|]. simpl.
  destruct (String.eqb_spec k key) as [->|E]; intros H.
  - by left.
  - right. by apply IH.
Qed.

Lemma merge_item_get_eq target key value :
  dict_get key (merge_item target key value)
  = Some match value, dict_get key target with
         | CDict sv, Some (CDict sub) => CDict (merge_config sub sv)
         | _, _ => value
         end.
Proof.
  unfold merge_item. destruct value as [v|sv]; [apply dict_get_set_eq|].
  destruct (dict_get key target) as [[|]|]; apply dict_get_set_eq.
Qed.

Lemma merge_item_get_ne target key value k :
  key <> k -> dict_get k (merge_item target key value) = dict_get k target.
Proof.
  intros Hne. unfold merge_item. destruct value as [v|sv].
  - by apply dict_get_set_ne.
  - destruct (dict_get key target) as [[|]|]; by apply dict_get_set_ne.
Qed.

Lemma merge_config_get (target source : cdict) (k : string) :
  NoDup (keys source) ->
  dict_get k (merge_config target source)
  = match dict_get k source with
    | None => dict_get k target
    | Some (CDict sv) =>
        match dict_get k target with
        | Some (CDict sub) => Some (CDict (merge_config sub sv))
        | _ => Some (CDict sv)
        end
    | Some v => Some v
    end.
Proof.
  revert target. induction source as [|[key value] rest IH]; intros target Hnd.
  { reflexivity. }
  apply NoDup_cons in Hnd as [Hkey Hnd].
  rewrite merge_config_cons, IH by done. cbn [dict_get].
  destruct (String.eqb_spec key k) as [->|Hne].
  - rewrite (dict_get_None k rest Hkey), merge_item_get_eq.
    destruct value as [v|sv]; [done|].
    by destruct (dict_get k target) as [[|]|].
  - rewrite merge_item_get_ne by done. reflexivity.
Qed.

Lemma keys_dict_set key v d :
  keys (dict_set key v d)
  = if bool_decide (key ∈ keys d) then keys d else keys d ++ [key].
Proof.
  induction d as [|[k x] d IH]; [done|]. simpl.
  destruct (String.eqb_spec k key) as [->|Hne]; simpl.
  - rewrite bool_decide_eq_true_2; [done|]. by left.
  - rewrite IH. destruct (bool_decide (key ∈ keys d)) eqn:E.
    + apply bool_decide_eq_true in E. rewrite bool_decide_eq_true_2; [done|].
      by right.
    + apply bool_decide_eq_false in E. rewrite bool_decide_eq_false_2; [done|].
      intros [?|?]%elem_of_cons; [congruence|done].
Qed.

Lemma keys_merge_item target key value :
  keys (merge_item target key value)
  = if bool_decide (key ∈ keys target) then keys target else keys target ++ [key].
Proof.
  unfold merge_item. destruct value as [v|sv]; [apply keys_dict_set|].
  destruct (dict_get key target) as [[|]|]; apply keys_dict_set.
Qed.

Lemma filter_agree {A} (P Q : A -> Prop) `{forall x, Decision (P x)}
    `{forall x, Decision (Q x)} (l : list A) :
  (forall x, x ∈ l -> P x <-> Q x) -> filter P l = filter Q l.
Proof.
  induction l as [|a l IH]; intros HPQ; [done|]. rewrite !filter_cons.
  rewrite IH by (intros x Hx; apply HPQ; by right).
  destruct (decide (P a)) as [HP|HP], (decide (Q a)) as [HQ|HQ]; try done.
  - destruct HQ. apply HPQ; [by left|done].
  - destruct HP. apply HPQ; [by left|done].
Qed.

(** X20: the merge keeps the keys of the target in their order and puts the keys
    that only the source has after them, in the order of the source. *)
Theorem merge_config_keys (target source : cdict) :
  NoDup (keys source) ->
  keys (merge_config target source)
  = keys target ++ filter (fun k => k ∉ keys target) (keys source).
Proof.
  revert target. induction source as [|[key value] rest IH]; intros target Hnd.
  { simpl. by rewrite app_nil_r. }
  apply NoDup_cons in Hnd as [Hkey Hnd].
  rewrite merge_config_cons, IH, keys_merge_item by done.
  cbn [keys map fst]. rewrite filter_cons.
  destruct (bool_decide (key ∈ keys target)) eqn:E.
  - apply bool_decide_eq_true in E. rewrite decide_False by (intros ?; done).
    done.
  - apply bool_decide_eq_false in E. rewrite decide_True by done.
    rewrite <- app_assoc. cbn [app]. f_equal. f_equal.
    apply filter_agree. intros k Hk.
    rewrite elem_of_app, list_elem_of_singleton.
    split; [tauto|]. intros Hn [?| ->]; done.
Qed.

Lemma keys_unique_items items :
  keys_unique (CDict items) = true ->
  NoDup (keys items)
  /\ forall k x, dict_get k items = Some x -> keys_unique x = true.
Proof.
  cbn [keys_unique]. intros [Hnd Hall]%andb_true_iff.
  apply bool_decide_eq_true in Hnd. split; [done|]. clear Hnd.
  induction items as [|[k' y] items IH]; [done|].
  apply andb_true_iff in Hall as [Hy Hall].
  intros k x. simpl. destruct (String.eqb k' k); [by intros [= <-]|].
  by apply IH.
Qed.

(** A value that is no dictionary wins at any depth, on trees. *)
Lemma tree_source_wins (path : list string) (target source : cdict)
    (v : string) :
  keys_unique (CDict source) = true ->
  lookup_path path (CDict source) = Some (CScalar v) ->
  lookup_path path (CDict (merge_config target source)) = Some (CScalar v).
Proof.
  revert target source. induction path as [|k path IH]; intros target source Hu Hl.
  { done. }
  cbn [lookup_path] in Hl |- *.
  destruct (keys_unique_items source Hu) as [Hnd Hsub].
  rewrite merge_config_get by done.
  destruct (dict_get k source) as [[s|sv]|] eqn:E; [done| |done].
  specialize (Hsub k _ E).
  destruct (dict_get k target) as [[t|sub]|]; [done| |done].
  by apply (IH sub sv).
Qed.

Lemma silent_on_lookup path v : silent_on path v = true -> lookup_path path v = None.
Proof.
  revert v. induction path as [|k path IH]; intros v H; [done|].
  destruct v as [s|items]; [done|]. cbn [silent_on lookup_path] in *.
  destruct (dict_get k items); [by apply IH|done].
Qed.

(** What the source says nothing about is kept, on trees. *)
Lemma tree_keeps_target (path : list string) (target source : cdict) :
  keys_unique (CDict source) = true ->
  silent_on path (CDict source) = true ->
  lookup_path path (CDict (merge_config target source))
  = lookup_path path (CDict target).
Proof.
  revert target source. induction path as [|k path IH]; intros target source Hu Hs.
  { done. }
  cbn [lookup_path silent_on] in Hs |- *.
  destruct (keys_unique_items source Hu) as [Hnd Hsub].
  rewrite merge_config_get by done.
  destruct (dict_get k source) as [x|] eqn:E; [|done].
  specialize (Hsub k _ E).
  destruct x as [s|sv]; [by destruct path|].
  destruct (dict_get k target) as [[t|sub]|].
  - rewrite (silent_on_lookup _ _ Hs). by destruct path.
  - by apply IH.
  - by rewrite (silent_on_lookup _ _ Hs).
Qed.

(** * Facts about the merge on dictionaries as objects *)

Lemma hdict_get_set_eq key v d : hdict_get key (hdict_set key v d) = Some v.
Proof.
  induction d as [|[k x] d IH]; simpl.
  - by rewrite String.eqb_refl.
  - destruct (String.eqb k key) eqn:E; simpl; by rewrite E.
Qed.

Lemma hdict_get_set_ne key k v d :
  key <> k -> hdict_get k (hdict_set key v d) = hdict_get k d.
Proof.
  intros Hne. induction d as [|[k' x] d IH]; simpl.
  - by apply String.eqb_neq in Hne as ->.
  - destruct (String.eqb_spec k' key) as [->|E]; simpl.
    + by apply String.eqb_neq in Hne as ->.
    + by rewrite IH.
Qed.

Lemma hdict_get_elem k x d : hdict_get k d = Some x -> (k, x) ∈ d.
Proof.
  induction d as [|[k' y] d IH]; [done|]. simpl.
  destruct (String.eqb_spec k' k) as [->|E]; intros H.
  - injection H as ->. left.
  - right. by apply IH.
Qed.

Lemma hdict_get_None k d : k ∉ d.*1 -> hdict_get k d = None.
Proof.
  induction d as [|[k' y] d IH]; [done|]. simpl. intros Hk.
  apply not_elem_of_cons in Hk as [Hne Hk].
  apply not_eq_sym, String.eqb_neq in Hne. rewrite Hne. by apply IH.
Qed.

Lemma hdict_elem_get k x d : NoDup d.*1 -> (k, x) ∈ d -> hdict_get k d = Some x.
Proof.
  induction d as [|[k' y] d IH]; [by intros _ ?%elem_of_nil|]. simpl.
  intros [Hk Hnd]%NoDup_cons [E|Hin]%elem_of_cons.
  - injection E as -> ->. by rewrite String.eqb_refl.
  - destruct (String.eqb_spec k' k) as [->|_]; [|by apply IH].
    destruct Hk. apply list_elem_of_fmap. by exists (k, x).
Qed.

Lemma hdict_keys_set key v d :
  (hdict_set key v d).*1
  = if bool_decide (key ∈ d.*1) then d.*1 else d.*1 ++ [key].
Proof.
  induction d as [|[k x] d IH]; [done|]. cbn [hdict_set].
  destruct (String.eqb_spec k key) as [->|Hne]; rewrite !fmap_cons; cbn [fst].
  - rewrite bool_decide_eq_true_2; [done|]. by left.
  - rewrite IH. destruct (bool_decide (key ∈ d.*1)) eqn:E.
    + apply bool_decide_eq_true in E. rewrite bool_decide_eq_true_2; [done|].
      by right.
    + apply bool_decide_eq_false in E. rewrite bool_decide_eq_false_2; [done|].
      intros [?|?]%elem_of_cons; [congruence|done].
Qed.

Lemma hdict_set_NoDup key v d : NoDup d.*1 -> NoDup (hdict_set key v d).*1.
Proof.
  intros Hnd. rewrite hdict_keys_set. case_bool_decide as E; [done|].
  apply NoDup_app. split_and!; [done| |apply NoDup_singleton].
  intros k Hk ->%list_elem_of_singleton. done.
Qed.

(** ** Items and the trees they stand for *)

Lemma aligned_get (E : string * hvalue -> string * cvalue -> Prop) k items titems :
  (forall kx kt, E kx kt -> kx.1 = kt.1) ->
  Forall2 E items titems ->
  match hdict_get k items, dict_get k titems with
  | Some x, Some t => E (k, x) (k, t)
  | None, None => True
  | _, _ => False
  end.
Proof.
  intros Hkey HF. induction HF as [|[k1 x] [k2 t] items titems HE HF IH]; [done|].
  pose proof (Hkey _ _ HE) as Hk. simpl in Hk. subst k2. simpl.
  destruct (String.eqb_spec k1 k) as [->|_]; done.
Qed.

Lemma Forall2_impl_elem {A B} (E E' : A -> B -> Prop) l k :
  Forall2 E l k -> (forall x y, x ∈ l -> E x y -> E' x y) -> Forall2 E' l k.
Proof.
  intros HF. induction HF as [|x y l k HE HF IH]; intros H; [done|].
  apply Forall2_cons. split; [apply H; [left|done]|].
  apply IH. intros x' y' Hx. apply H. by right.
Qed.

Lemma aligned_set (E E' : string * hvalue -> string * cvalue -> Prop)
    k x t items titems :
  (forall kx kt, E kx kt -> kx.1 = kt.1) ->
  NoDup items.*1 ->
  Forall2 E items titems ->
  (forall kx kt, kx.1 <> k -> E kx kt -> E' kx kt) ->
  E' (k, x) (k, t) ->
  Forall2 E' (hdict_set k x items) (dict_set k t titems).
Proof.
  intros Hkey Hnd HF Hother Hnew.
  induction HF as [|[k1 y] [k2 u] items titems HE HF IH]; simpl.
  { by apply Forall2_cons. }
  pose proof (Hkey _ _ HE) as Hk. simpl in Hk. subst k2.
  apply NoDup_cons in Hnd as [Hk1 Hnd].
  destruct (String.eqb_spec k1 k) as [->|Hne].
  - apply Forall2_cons. split; [done|].
    apply (Forall2_impl_elem E); [done|]. intros kx kt Hin. apply Hother.
    intros <-. apply Hk1. apply list_elem_of_fmap. by exists kx.
  - apply Forall2_cons. split; [by apply Hother|by apply IH].
Qed.

Lemma hdict_set_same k x d : hdict_get k d = Some x -> hdict_set k x d = d.
Proof.
  induction d as [|[k' y] d IH]; [done|]. simpl.
  destruct (String.eqb_spec k' k) as [->|_].
  - by intros [= ->].
  - intros H. by rewrite IH.
Qed.

(** ** Reading the store *)

Lemma read_ref n h a t :
  read (S n) h (HRef a) = Some t
  <-> exists items titems,
        t = CDict titems /\ h !! a = Some items
        /\ Forall2 (fun kx kt => kx.1 = kt.1 /\ read n h kx.2 = Some kt.2)
             items titems.
Proof.
  cbn [read]. split.
  - destruct (h !! a) as [items|]; [|done].
    destruct (mapM _ items) as [titems|] eqn:E; [|done]. intros [= <-].
    exists items, titems. split_and!; [done..|].
    apply mapM_Some in E. eapply Forall2_impl; [exact E|].
    intros [k x] [k' u]. simpl. destruct (read n h x); [|done]. by intros [= -> ->].
  - intros (items & titems & -> & -> & HF).
    assert (mapM (fun kx => pair kx.1 <$> read n h kx.2) items = Some titems) as ->;
      [|done].
    apply mapM_Some. eapply Forall2_impl; [exact HF|].
    intros [k x] [k' u]. simpl. by intros [-> ->].
Qed.

Lemma read_ref_dict n h a t :
  read n h (HRef a) = Some t -> exists titems, t = CDict titems.
Proof.
  destruct n; [done|]. intros (items & titems & -> & _)%read_ref. eauto.
Qed.

Lemma read_scalar n h s t : read n h (HScalar s) = Some t -> t = CScalar s.
Proof. destruct n; by intros [= <-]. Qed.

Lemma reach_child n h a items kx b :
  h !! a = Some items -> kx ∈ items -> b ∈ reach n h kx.2 ->
  b ∈ reach (S n) h (HRef a).
Proof.
  intros Ha Hin Hb. cbn [reach]. rewrite Ha. right.
  apply list_elem_of_In, in_flat_map. exists kx.
  split; by apply list_elem_of_In.
Qed.

Lemma reach_ref_inv n h a b :
  b ∈ reach (S n) h (HRef a) ->
  b = a \/ exists items kx, h !! a = Some items /\ kx ∈ items /\ b ∈ reach n h kx.2.
Proof.
  cbn [reach]. intros [->|Hb]%elem_of_cons; [by left|right].
  apply list_elem_of_In, in_flat_map in Hb as (kx & Hin & Hb).
  destruct (h !! a) as [items|]; [|done].
  exists items, kx. split_and!; [done|by apply list_elem_of_In..].
Qed.

Lemma mapM_ext_elem {A B} (f g : A -> option B) l :
  (forall x, x ∈ l -> f x = g x) -> mapM f l = mapM g l.
Proof.
  induction l as [|x l IH]; intros H; [done|]. cbn.
  rewrite (H x) by left. rewrite IH; [done|]. intros y Hy. apply H. by right.
Qed.

Lemma flat_map_ext_elem {A B} (f g : A -> list B) l :
  (forall x, x ∈ l -> f x = g x) -> flat_map f l = flat_map g l.
Proof.
  induction l as [|x l IH]; intros H; [done|]. cbn.
  rewrite (H x) by left. rewrite IH; [done|]. intros y Hy. apply H. by right.
Qed.

(** What is read depends on the dictionaries passed through only. *)
Lemma read_reach_frame n h h' v :
  (forall a, a ∈ reach n h v -> h' !! a = h !! a) ->
  read n h' v = read n h v /\ reach n h' v = reach n h v.
Proof.
  revert v. induction n as [|n IH]; intros [s|a] H; try done.
  assert (Ha : h' !! a = h !! a) by (apply H; left).
  cbn [read reach]. rewrite Ha. destruct (h !! a) as [items|] eqn:E; [|done].
  assert (G : forall kx, kx ∈ items ->
            read n h' kx.2 = read n h kx.2 /\ reach n h' kx.2 = reach n h kx.2).
  { intros kx Hin. apply IH. intros b Hb. apply H. by eapply reach_child. }
  split.
  - f_equal. apply mapM_ext_elem. intros kx Hin. by rewrite (proj1 (G kx Hin)).
  - f_equal. apply flat_map_ext_elem. intros kx Hin. apply (G kx Hin).
Qed.

(** ** The places of the items of a dictionary *)

Lemma slot_cons n h k1 y items k :
  slot n h ((k1, y) :: items) k
  = if String.eqb k1 k then reach n h y else slot n h items k.
Proof. unfold slot. simpl. by destruct (String.eqb k1 k). Qed.

Lemma slot_flat n h items k b :
  b ∈ slot n h items k -> b ∈ flat_map (fun kx => reach n h kx.2) items.
Proof.
  unfold slot. destruct (hdict_get k items) as [x|] eqn:E; [|by intros ?%elem_of_nil].
  intros Hb. apply hdict_get_elem in E.
  apply list_elem_of_In, in_flat_map. exists (k, x). split; by apply list_elem_of_In.
Qed.

Lemma slots_disjoint n h items k k' b :
  NoDup (flat_map (fun kx => reach n h kx.2) items) ->
  k <> k' -> b ∈ slot n h items k -> b ∉ slot n h items k'.
Proof.
  induction items as [|[k1 y] items IH]; [by intros _ _ ?%elem_of_nil|].
  cbn [flat_map]. intros (Hy & Hd & Hnd)%NoDup_app Hne. rewrite !slot_cons.
  cbn [snd] in *.
  destruct (String.eqb k1 k) eqn:E1, (String.eqb k1 k') eqn:E2.
  - apply String.eqb_eq in E1, E2. congruence.
  - intros Hb Hb'%slot_flat. by apply (Hd b).
  - intros Hb%slot_flat Hb'. by apply (Hd b).
  - by apply IH.
Qed.

Lemma slot_NoDup n h items k :
  NoDup (flat_map (fun kx => reach n h kx.2) items) -> NoDup (slot n h items k).
Proof.
  induction items as [|[k1 y] items IH]; [intros _; apply NoDup_nil_2|].
  cbn [flat_map]. intros (Hy & Hd & Hnd)%NoDup_app. rewrite slot_cons.
  destruct (String.eqb k1 k); [done|by apply IH].
Qed.

Lemma Forall2_elem_l {A B} (E : A -> B -> Prop) l k :
  Forall2 E l k -> Forall2 (fun x y => x ∈ l /\ E x y) l k.
Proof.
  intros HF. induction HF as [|x y l k HE HF IH]; [done|].
  apply Forall2_cons. split; [split; [left|done]|].
  eapply Forall2_impl; [exact IH|]. intros x' y' [? ?]. split; [by right|done].
Qed.

Lemma merge_config_app target s1 s2 :
  merge_config target (s1 ++ s2) = merge_config (merge_config target s1) s2.
Proof.
  revert target. induction s1 as [|[k v] s1 IH]; intros target; [done|].
  cbn [app]. by rewrite !merge_config_cons, IH.
Qed.

Lemma merge_loop_unfold merge target source size todo i h :
  merge_loop merge target source size todo i h
  = match h !! source, h !! target with
    | Some items, Some titems =>
        if negb (length items =? size)%nat then MergeRaised h
        else
          match todo, items !! i with
          | S todo', Some (key, value) =>
              match value, hdict_get key titems with
              | HRef sv, Some (HRef tsub) =>
                  match merge tsub sv h with
                  | Merged h' => merge_loop merge target source size todo' (S i) h'
                  | MergeRaised h' => MergeRaised h'
                  end
              | _, _ =>
                  merge_loop merge target source size todo' (S i)
                    (<[target := hdict_set key value titems]> h)
              end
          | _, _ => Merged h
          end
    | _, _ => MergeRaised h
    end.
Proof. by destruct todo. Qed.

(** ** One call of the merge, the calls inside it being as they should *)

Section merge_loop_facts.

Variable n : nat.

Hypothesis IHn : merge_heap_refines n.

Variables (h0 : heap) (target source : nat) (titems0 sitems0 : hdict).

Hypothesis Hwf0 : heap_wf h0.

Hypothesis Ht0 : h0 !! target = Some titems0.

Hypothesis Hs0 : h0 !! source = Some sitems0.

Hypothesis Hun : unshared (S n) h0 target source.

Local Abbreviation Rt := (reach (S n) h0 (HRef target)).

Local Abbreviation Rs := (reach (S n) h0 (HRef source)).

Local Abbreviation place := (slot n h0 titems0).

Lemma target_in_Rt : target ∈ Rt.
Proof. left. Qed.

Lemma source_in_Rs : source ∈ Rs.
Proof. left. Qed.

Lemma Rt_not_Rs a : a ∈ Rt -> a ∉ Rs.
Proof. apply Hun. Qed.

Lemma Rs_not_Rt a : a ∈ Rs -> a ∉ Rt.
Proof. intros Hs Ht. by apply (Rt_not_Rs a). Qed.

Lemma places_NoDup :
  NoDup (flat_map (fun kx => reach n h0 kx.2) titems0)
  /\ target ∉ flat_map (fun kx => reach n h0 kx.2) titems0.
Proof.
  destruct Hun as [Hnd _]. cbn [reach] in Hnd. rewrite Ht0 in Hnd. simpl in Hnd.
  by apply NoDup_cons in Hnd as [? ?].
Qed.

Lemma place_spec k a : a ∈ place k -> a ∈ Rt /\ a <> target /\ a ∉ Rs.
Proof.
  intros Ha%slot_flat. destruct places_NoDup as [_ Ht].
  assert (a ∈ Rt) by (cbn [reach]; rewrite Ht0; by right).
  split_and!; [done| |by apply Rt_not_Rs]. by intros ->.
Qed.

Lemma source_value_spec k v a :
  (k, v) ∈ sitems0 -> a ∈ reach n h0 v -> a ∈ Rs /\ (a ∉ Rt) /\ a <> target.
Proof.
  intros Hin Ha.
  assert (a ∈ Rs) by (by eapply (reach_child n h0 source sitems0 (k, v))).
  split_and!; [done|by apply Rs_not_Rt|]. intros ->.
  by apply (Rs_not_Rt target), target_in_Rt.
Qed.

Lemma merging_key h passed kx kt :
  merging n h0 h Rs titems0 passed kx kt -> kx.1 = kt.1.
Proof. by intros [? _]. Qed.

(** An item reads as before after a change at [target] or at the place of
    another key. *)
Lemma merging_other passed h h1 k kx kt :
  kx.1 <> k ->
  merging n h0 h Rs titems0 passed kx kt ->
  (forall a, a <> target -> a ∉ place k -> h1 !! a = h !! a) ->
  merging n h0 h1 Rs titems0 (passed ++ [k]) kx kt.
Proof.
  intros Hne (Hkey & Hread & Hcase) Hsame.
  assert (Hav : forall a, a ∈ Rs \/ a ∈ place kx.1 -> a <> target /\ a ∉ place k).
  { intros a [Ha|Ha].
    - split; [intros ->; by apply (Rs_not_Rt target), target_in_Rt|].
      intros Hp%place_spec. by destruct Hp as (_ & _ & ?).
    - split; [by apply place_spec in Ha as (_ & ? & _)|].
      by apply (slots_disjoint n h0 titems0 kx.1 k); [apply places_NoDup|..]. }
  assert (Hr : forall a, a ∈ reach n h kx.2 -> a ∈ Rs \/ a ∈ place kx.1).
  { destruct (decide (kx.1 ∈ passed)) as [Hp|Hp]; [done|].
    destruct Hcase as [Hg Hfr]. intros a Ha. right.
    assert (Hp0 : place kx.1 = reach n h0 kx.2) by (unfold slot; by rewrite Hg).
    rewrite Hp0 in Hfr |- *.
    by rewrite (proj2 (read_reach_frame n h0 h kx.2 Hfr)) in Ha. }
  destruct (read_reach_frame n h h1 kx.2) as [Er Ec].
  { intros a Ha. by apply Hsame; apply (Hav a), Hr. }
  split_and!; [done|by rewrite Er|].
  destruct (decide (kx.1 ∈ passed)) as [Hp|Hp].
  - rewrite decide_True by (apply elem_of_app; by left). by rewrite Ec.
  - rewrite decide_False.
    2:{ intros [?|?%list_elem_of_singleton]%elem_of_app; done. }
    destruct Hcase as [Hg Hfr]. split; [done|]. intros a Ha.
    rewrite <- (Hfr a Ha). apply Hsame; apply (Hav a); by right.
Qed.

(** A value of the source reads in the store of the loop as at the start. *)
Lemma source_value_read passed h tt k v :
  merge_inv n h0 target source titems0 passed h tt ->
  (k, v) ∈ sitems0 ->
  read n h v = read n h0 v /\ reach n h v = reach n h0 v.
Proof.
  intros (_ & Hframe & _) Hin. apply read_reach_frame. intros a Ha.
  apply Hframe. by apply (source_value_spec k v a).
Qed.

Lemma source_kept passed h tt :
  merge_inv n h0 target source titems0 passed h tt -> h !! source = Some sitems0.
Proof.
  intros (_ & Hframe & _). rewrite Hframe; [done|]. apply Rs_not_Rt, source_in_Rs.
Qed.

(** The step [target[key] = value]. *)
Lemma merge_step_set passed h tt items k v tv :
  merge_inv n h0 target source titems0 passed h tt ->
  h !! target = Some items ->
  (k, v) ∈ sitems0 ->
  read n h0 v = Some tv ->
  merge_inv n h0 target source titems0 (passed ++ [k])
    (<[target := hdict_set k v items]> h) (dict_set k tv tt).
Proof.
  intros Hinv Hti Hin Hv.
  destruct (source_value_read passed h tt k v Hinv Hin) as [Hrv Hcv].
  destruct Hinv as (Hwf & Hframe & items' & Hti' & HF).
  assert (items' = items) as -> by congruence.
  assert (Hnd : NoDup items.*1) by by apply (Hwf target).
  split_and!.
  - intros a its. destruct (decide (a = target)) as [->|Hne].
    + rewrite lookup_insert_eq. intros [= <-]. by apply hdict_set_NoDup.
    + rewrite lookup_insert_ne by done. apply Hwf.
  - intros a Ha. rewrite lookup_insert_ne; [by apply Hframe|].
    intros <-. apply Ha, target_in_Rt.
  - exists (hdict_set k v items). split; [apply lookup_insert_eq|].
    apply (aligned_set (merging n h0 h Rs titems0 passed)); [by intros ? ? [? _]|done..| |].
    + intros kx kt Hne HE. apply (merging_other passed h); [done..|].
      intros a Hat _. by rewrite lookup_insert_ne.
    + destruct (read_reach_frame n h (<[target := hdict_set k v items]> h) v)
        as [Er Ec].
      { intros a Ha. rewrite lookup_insert_ne; [done|]. intros <-.
        rewrite Hcv in Ha. by apply (source_value_spec k v target) in Ha as (_ & _ & ?). }
      unfold merging. cbn [fst snd]. split_and!; [done|by rewrite Er, Hrv|].
      rewrite decide_True by (apply elem_of_app; right; left).
      intros a Ha. left. rewrite Ec, Hcv in Ha.
      by apply (source_value_spec k v a).
Qed.

(** The step [merge_config(target[key], value)]. *)
Lemma merge_step_rec passed h tt items k sv tsub tv :
  merge_inv n h0 target source titems0 passed h tt ->
  h !! target = Some items ->
  (k, HRef sv) ∈ sitems0 ->
  k ∉ passed ->
  read n h0 (HRef sv) = Some tv ->
  hdict_get k items = Some (HRef tsub) ->
  exists h1,
    merge_heap n tsub sv h = Merged h1
    /\ merge_inv n h0 target source titems0 (passed ++ [k]) h1 (merge_item tt k tv).
Proof.
  intros Hinv Hti Hin Hk Hv Hg.
  destruct (source_value_read passed h tt k (HRef sv) Hinv Hin) as [Hrv Hcv].
  destruct Hinv as (Hwf & Hframe & items' & Hti' & HF).
  assert (items' = items) as -> by congruence.
  assert (Hnd : NoDup items.*1) by by apply (Hwf target).
  pose proof (aligned_get _ k items tt (merging_key h passed) HF) as Hget.
  rewrite Hg in Hget. destruct (dict_get k tt) as [tx|] eqn:Ed; [|done].
  destruct Hget as (_ & Hrx & Hcase). cbn [fst snd] in Hrx, Hcase.
  rewrite decide_False in Hcase by done. destruct Hcase as [Hg0 Hfr].
  assert (Hp0 : place k = reach n h0 (HRef tsub)) by (unfold slot; by rewrite Hg0).
  assert (Hcx : reach n h (HRef tsub) = place k).
  { rewrite Hp0. apply read_reach_frame. by rewrite <- Hp0. }
  destruct (read_ref_dict _ _ _ _ Hrx) as [tsubitems ->].
  destruct (read_ref_dict _ _ _ _ Hv) as [svitems ->].
  destruct (IHn h tsub sv tsubitems svitems) as (h1 & Hm & Hwf1 & Hr1 & Hf1 & Hc1).
  { done. }
  { done. }
  { by rewrite Hrv. }
  { split.
    - rewrite Hcx. apply slot_NoDup, places_NoDup.
    - intros a. rewrite Hcx, Hcv. intros Ha%place_spec Hs.
      apply (source_value_spec k (HRef sv) a) in Hs; [|done].
      by destruct Ha as (? & _), Hs as (_ & ? & _). }
  rewrite Hcx in Hf1.
  exists h1. split; [done|].
  assert (merge_item tt k (CDict svitems)
          = dict_set k (CDict (merge_config tsubitems svitems)) tt) as ->.
  { unfold merge_item. by rewrite Ed. }
  split_and!.
  - done.
  - intros a Ha. rewrite Hf1; [by apply Hframe|].
    intros Hp%place_spec. by destruct Hp as (? & _).
  - exists items. split.
    { rewrite Hf1; [done|]. intros Hp%place_spec. by destruct Hp as (_ & ? & _). }
    rewrite <- (hdict_set_same k (HRef tsub) items Hg).
    apply (aligned_set (merging n h0 h Rs titems0 passed)); [by intros ? ? [? _]|done..| |].
    + intros kx kt Hne HE. apply (merging_other passed h); [done..|].
      intros a _ Ha. by apply Hf1.
    + unfold merging. cbn [fst snd]. split_and!; [done..|].
      rewrite decide_True by (apply elem_of_app; right; left).
      intros a [Ha|Ha]%Hc1.
      * right. by rewrite <- Hcx.
      * left. rewrite Hcv in Ha. by apply (source_value_spec k (HRef sv) a).
Qed.

(** The loop, from any item on. *)
Lemma merge_loop_spec rest : forall passed srest h tt,
  sitems0 = passed ++ rest ->
  Forall2 (fun kx kt => kx.1 = kt.1 /\ read n h0 kx.2 = Some kt.2) rest srest ->
  merge_inv n h0 target source titems0 passed.*1 h tt ->
  exists h',
    merge_loop (merge_heap n) target source (length sitems0) (length rest)
      (length passed) h = Merged h'
    /\ merge_inv n h0 target source titems0 sitems0.*1 h' (merge_config tt srest).
Proof.
  induction rest as [|[k v] rest IH]; intros passed srest h tt Hs HF Hinv;
    pose proof (source_kept _ _ _ Hinv) as Hsrc;
    pose proof Hinv as (_ & _ & items & Hti & _);
    rewrite merge_loop_unfold, Hsrc, Hti, Nat.eqb_refl; cbn [negb].
  - apply Forall2_nil_inv_l in HF as ->. rewrite app_nil_r in Hs. subst passed.
    exists h. done.
  - apply Forall2_cons_inv_l in HF as ([k' tv] & srest' & [Hk Hv] & HF & ->).
    cbn [fst snd] in Hk, Hv. subst k'.
    assert (Hin : (k, v) ∈ sitems0).
    { rewrite Hs. apply elem_of_app. right. left. }
    assert (Hnk : k ∉ passed.*1).
    { assert (Hnd : NoDup sitems0.*1) by by apply (Hwf0 source).
      rewrite Hs, fmap_app in Hnd. apply NoDup_app in Hnd as (_ & Hd & _).
      intros Hp. apply (Hd k Hp). left. }
    assert (sitems0 !! length passed = Some (k, v)) as ->.
    { rewrite Hs. by apply list_lookup_middle. }
    rewrite merge_config_cons.
    assert (Hnext : forall h1,
              merge_inv n h0 target source titems0 (passed.*1 ++ [k]) h1
                (merge_item tt k tv) ->
              exists h',
                merge_loop (merge_heap n) target source (length sitems0)
                  (length rest) (S (length passed)) h1 = Merged h'
                /\ merge_inv n h0 target source titems0 sitems0.*1 h'
                     (merge_config (merge_item tt k tv) srest')).
    { intros h1 Hinv1.
      replace (S (length passed)) with (length (passed ++ [(k, v)]))
        by (rewrite length_app; simpl; lia).
      apply IH; [by rewrite <- app_assoc|done|by rewrite fmap_app]. }
    assert (Hset : merge_item tt k tv = dict_set k tv tt ->
              exists h',
                merge_loop (merge_heap n) target source (length sitems0)
                  (length rest) (S (length passed))
                  (<[target := hdict_set k v items]> h) = Merged h'
                /\ merge_inv n h0 target source titems0 sitems0.*1 h'
                     (merge_config (merge_item tt k tv) srest')).
    { intros E. apply Hnext. rewrite E. by apply merge_step_set. }
    destruct v as [sc|sv].
    { apply Hset. apply read_scalar in Hv as ->. done. }
    pose proof Hinv as (_ & _ & items' & Hti' & HFi).
    assert (items' = items) as -> by congruence.
    pose proof (aligned_get _ k items tt (merging_key h passed.*1) HFi) as Hget.
    destruct (hdict_get k items) as [[xs|tsub]|] eqn:Eg.
    + apply Hset. destruct (dict_get k tt) as [tx|] eqn:Ed; [|done].
      destruct Hget as (_ & Hrx & _). cbn [snd] in Hrx.
      apply read_scalar in Hrx as ->. unfold merge_item. rewrite Ed.
      by destruct tv.
    + destruct (merge_step_rec passed.*1 h tt items k sv tsub tv)
        as (h1 & -> & Hinv1); [done..|].
      by apply Hnext.
    + apply Hset. destruct (dict_get k tt) as [tx|] eqn:Ed; [done|].
      unfold merge_item. rewrite Ed. by destruct tv.
Qed.

End merge_loop_facts.

Lemma Forall2_elem_ex {A B} (E : A -> B -> Prop) l k x :
  Forall2 E l k -> x ∈ l -> exists y, y ∈ k /\ E x y.
Proof.
  intros HF. induction HF as [|x' y' l k HE HF IH]; [by intros ?%elem_of_nil|].
  intros [->|Hin]%elem_of_cons.
  - exists y'. split; [left|done].
  - destruct (IH Hin) as (y & ? & ?). exists y. split; [by right|done].
Qed.

Lemma merge_heap_refines_all n : merge_heap_refines n.
Proof.
  induction n as [|n IHn]; intros h target source t s Hwf Hrt Hrs Hun; [done|].
  apply read_ref in Hrt as (titems0 & t' & [= <-] & Ht0 & HFt).
  apply read_ref in Hrs as (sitems0 & s' & [= <-] & Hs0 & HFs).
  cbn [merge_heap]. rewrite Hs0. cbn [default].
  destruct (merge_loop_spec n IHn h target source titems0 sitems0 Hwf Ht0 Hs0 Hun
              sitems0 [] s h t) as (h' & Hm & Hwf' & Hframe & items & Hti & HF).
  { done. }
  { done. }
  { split_and!; [done..|]. exists titems0. split; [done|].
    apply Forall2_elem_l in HFt. eapply Forall2_impl; [exact HFt|].
    intros [k x] [k' u] (Hin & Hk & Hr). split_and!; [done..|].
    rewrite decide_False by apply not_elem_of_nil.
    split; [|done]. cbn [fst snd]. apply hdict_elem_get; [by apply (Hwf target)|done]. }
  exists h'. split_and!; [done..| |done|].
  - apply read_ref. exists items, (merge_config t s). split_and!; [done..|].
    eapply Forall2_impl; [exact HF|]. by intros kx kt (? & ? & _).
  - intros a [->|(items' & kx & Hti' & Hin & Ha)]%reach_ref_inv; [left; left|].
    assert (items' = items) as -> by congruence.
    destruct (Forall2_elem_ex _ _ _ _ HF Hin) as (kt & _ & _ & _ & Hcase).
    assert (Hpl : forall b, b ∈ slot n h titems0 kx.1 -> b ∈ reach (S n) h (HRef target)).
    { intros b Hb. by apply (place_spec n h target source titems0 Ht0 Hun kx.1). }
    destruct (decide (kx.1 ∈ sitems0.*1)).
    + destruct (Hcase a Ha) as [?|?]; [by right|left; by apply Hpl].
    + destruct Hcase as [Hg Hfr]. left. apply Hpl.
      assert (Hp0 : slot n h titems0 kx.1 = reach n h kx.2) by (unfold slot; by rewrite Hg).
      rewrite Hp0 in Hfr |- *.
      by rewrite (proj2 (read_reach_frame n h h' kx.2 Hfr)) in Ha.
Qed.

(** X19: on two dictionaries of the store where no dictionary reachable from
    [target] is shared, neither inside [target] nor with [source],
    [merge_config] returns, the tree of [target] is then the merge of the
    two trees, [source] reads as before, the keys of every dictionary are
    still distinct, and no dictionary outside [target] has changed. *)
Theorem merge_heap_unshared (n : nat) (h : heap) (target source : nat)
    (t s : cdict) :
  heap_wf h ->
  read n h (HRef target) = Some (CDict t) ->
  read n h (HRef source) = Some (CDict s) ->
  unshared n h target source ->
  exists h',
    merge_heap n target source h = Merged h'
    /\ heap_wf h'
    /\ read n h' (HRef target) = Some (CDict (merge_config t s))
    /\ read n h' (HRef source) = Some (CDict s)
    /\ forall a, a ∉ reach n h (HRef target) -> h' !! a = h !! a.
Proof.
  intros Hwf Hrt Hrs Hun.
  destruct (merge_heap_refines_all n h target source t s Hwf Hrt Hrs Hun)
    as (h' & Hm & Hwf' & Hr & Hframe & _).
  exists h'. split_and!; [done..| |done].
  rewrite <- Hrs. apply read_reach_frame. intros a Ha. apply Hframe.
  intros Ht. by apply (proj2 Hun a).
Qed.

(** ** Paths *)

Lemma read_path_lookup path : forall n h v t,
  read n h v = Some t -> read_path n h path v = lookup_path path t.
Proof.
  unfold read_path.
  induction path as [|k path IH]; intros n h v t Hr.
  { cbn [heap_path lookup_path length]. by rewrite Nat.sub_0_r. }
  destruct v as [s|a].
  { apply read_scalar in Hr as ->. done. }
  destruct n as [|n]; [done|].
  apply read_ref in Hr as (items & titems & -> & Ha & HF).
  cbn [heap_path lookup_path length]. rewrite Ha.
  pose proof (aligned_get _ k items titems (fun _ _ H => proj1 H) HF) as Hget.
  destruct (hdict_get k items) as [x|], (dict_get k titems) as [tx|]; try done.
  destruct Hget as [_ Hx]. cbn [snd] in Hx.
  change (S n - S (length path))%nat with (n - length path)%nat.
  by apply IH.
Qed.

Lemma heap_path_scalar path n h v t s :
  read n h v = Some t ->
  heap_path h path v = Some (HScalar s) <-> lookup_path path t = Some (CScalar s).
Proof.
  intros Hr. rewrite <- (read_path_lookup path n h v t Hr). unfold read_path.
  destruct (heap_path h path v) as [[s'|a]|]; [|split; [done|]|done].
  - destruct (n - length path)%nat; cbn [read]; split; by intros [= ->].
  - intros [? [=]]%read_ref_dict.
Qed.

Lemma read_keys_unique n : forall h v t,
  heap_wf h -> read n h v = Some t -> keys_unique t = true.
Proof.
  induction n as [|n IH]; intros h [s|a] t Hwf Hr;
    try (by apply read_scalar in Hr as ->); [done|].
  apply read_ref in Hr as (items & titems & -> & Ha & HF).
  cbn [keys_unique]. apply andb_true_iff. split.
  - apply bool_decide_eq_true.
    assert (map fst titems = items.*1) as ->; [|by apply (Hwf a)].
    clear Ha. induction HF as [|kx kt items titems [Hk _] HF IHF]; [done|].
    cbn. by rewrite Hk, IHF.
  - clear Ha. induction HF as [|kx [k u] items titems [_ Hu] HF IHF]; [done|].
    apply andb_true_iff. split; [by apply (IH h kx.2)|done].
Qed.

(** X21: on such dictionaries, a value that is no dictionary wins at any
    depth: where [source] holds such a value at the end of a path of keys,
    [target] holds it there after the merge, whatever it held before. *)
Theorem merge_heap_source_wins (n : nat) (h : heap) (target source : nat)
    (t s : cdict) (path : list string) (v : string) :
  heap_wf h ->
  read n h (HRef target) = Some (CDict t) ->
  read n h (HRef source) = Some (CDict s) ->
  unshared n h target source ->
  heap_path h path (HRef source) = Some (HScalar v) ->
  exists h',
    merge_heap n target source h = Merged h'
    /\ heap_path h' path (HRef target) = Some (HScalar v).
Proof.
  intros Hwf Hrt Hrs Hun Hp.
  destruct (merge_heap_refines_all n h target source t s Hwf Hrt Hrs Hun)
    as (h' & Hm & Hwf' & Hr & _).
  exists h'. split; [done|].
  apply (heap_path_scalar path n h' (HRef target) _ v Hr).
  apply tree_source_wins.
  - by apply (read_keys_unique n h (HRef source)).
  - by apply (heap_path_scalar path n h (HRef source) _ v Hrs).
Qed.

(** X22: on such dictionaries, what the source says nothing about is kept:
    at a path along which [source] lacks a key, a reader finds in [target]
    after the merge what it found before. *)
Theorem merge_heap_keeps_target (n : nat) (h : heap) (target source : nat)
    (t s : cdict) (path : list string) :
  heap_wf h ->
  read n h (HRef target) = Some (CDict t) ->
  read n h (HRef source) = Some (CDict s) ->
  unshared n h target source ->
  silent_on path (CDict s) = true ->
  exists h',
    merge_heap n target source h = Merged h'
    /\ read_path n h' path (HRef target) = read_path n h path (HRef target).
Proof.
  intros Hwf Hrt Hrs Hun Hp.
  destruct (merge_heap_refines_all n h target source t s Hwf Hrt Hrs Hun)
    as (h' & Hm & Hwf' & Hr & _).
  exists h'. split; [done|].
  rewrite (read_path_lookup path n h' _ _ Hr), (read_path_lookup path n h _ _ Hrt).
  apply tree_keeps_target; [|done].
  by apply (read_keys_unique n h (HRef source)).
Qed.

Lemma merge_loop_raises merge target source size todo i h items titems key sv tsub h' :
  h !! source = Some items -> h !! target = Some titems ->
  length items = size -> items !! i = Some (key, HRef sv) ->
  hdict_get key titems = Some (HRef tsub) ->
  merge tsub sv h = MergeRaised h' ->
  merge_loop merge target source size (S todo) i h = MergeRaised h'.
Proof.
  intros Hs Ht <- Hi Hg Hm.
  by rewrite merge_loop_unfold, Hs, Ht, Nat.eqb_refl, Hi, Hg, Hm.
Qed.

(** X23: when dictionaries are shared, the merge changes what it was not
    asked to change, or raises: with one dictionary under two keys of
    [target], a merge that names one of the keys changes what both hold,
    where the merge of the two trees changes one; a source that is a
    dictionary inside [target] grows while the loop runs over it, and the
    merge raises; and on dictionaries that hold themselves the merge raises
    at every depth that the interpreter allows. *)
Theorem merge_heap_shared (depth : nat) :
  (exists h' t s,
     merge_heap 3 0 10 shared_heap = Merged h'
     /\ read 3 h' (HRef 0)
        = Some (CDict [ ("proquest", CDict [("recursive", CScalar "False")]);
                        ("nyt", CDict [("recursive", CScalar "False")]) ])
     /\ read 3 shared_heap (HRef 0) = Some (CDict t)
     /\ read 3 shared_heap (HRef 10) = Some (CDict s)
     /\ merge_config t s
        = [ ("proquest", CDict [("recursive", CScalar "True")]);
            ("nyt", CDict [("recursive", CScalar "False")]) ])
  /\ (exists h',
        merge_heap 3 0 10 nested_heap = MergeRaised h'
        /\ h' !! 10%nat = Some [ ("loading", HRef 11); ("enabled", HScalar "True") ])
  /\ merge_heap depth 0 10 cyclic_heap = MergeRaised cyclic_heap.
Proof.
  split_and!.
  - eexists _, _, _. split_and!; [vm_compute; reflexivity..].
  - eexists. split; vm_compute; reflexivity.
  - assert (H0 : cyclic_heap !! 0%nat = Some [("self", HRef 0)])
      by (vm_compute; reflexivity).
    assert (H10 : cyclic_heap !! 10%nat = Some [("self", HRef 10)])
      by (vm_compute; reflexivity).
    induction depth as [|depth IH]; [done|].
    cbn [merge_heap]. rewrite H10.
    by apply (merge_loop_raises _ _ _ _ _ _ _ _ _ "self" 10%nat 0%nat _ H10 H0).
Qed.

(** * The further facts on concrete inputs *)

Lemma some_default {A} (d : A) (x : option A) :
  match x with Some _ => true | None => false end = true -> x = Some (default d x).
Proof. by destruct x. Qed.

Lemma pair_some_default {A B} (d : A) (p : option A * B) :
  match p.1 with Some _ => true | None => false end = true ->
  p = (Some (default d p.1), p.2).
Proof. by destruct p as [[a|] b]. Qed.

Lemma nyt_valid_block_record :
  (parse_nyt_article nyt_valid_block "nyt_2012.txt" default_config).1.1
  = Some (default ∅
            (parse_nyt_article nyt_valid_block "nyt_2012.txt" default_config).1.1).
Proof. apply some_default. vm_compute. reflexivity. Qed.

Lemma nyt_record_columns_witness :
  size (default ∅
          (parse_nyt_article nyt_valid_block "nyt_2012.txt" default_config).1.1)
  = 20%nat.
Proof.
  exact (proj1 (proj2 (nyt_record_columns nyt_valid_block "nyt_2012.txt"
                         default_config _ nyt_valid_block_record))).
Defined.

Lemma nyt_block_with_valid_keys_witness :
  exists d w,
    parse_nyt_article nyt_valid_block "nyt_2012.txt" default_config = (Some d, None, w)
    /\ get d "nyt_internal_id" = PStr "12345678-1234-5678-1234-567812345678".
Proof.
  assert (Hl : nyt_lines nyt_valid_block
               = [] ++ valid_key_line
                 :: [ "Headline: X"; "Countries: US;FR"; "Date: 20120101";
                      ">>>>>>>>>>>>>>>>>>>>>>"; "Two were killed."; " ";
                      "Headline: inside"; "<<<<<<<<<<<<<<<<<<<<<<"; "Trailer" ])
    by (vm_compute; reflexivity).
  destruct (nyt_block_with_valid_keys nyt_valid_block "nyt_2012.txt" default_config
              _ _ _ Hl) as (d & w & Hp & Hk & _).
  - vm_compute. reflexivity.
  - repeat constructor.
  - rewrite Hl. repeat constructor.
  - exists d, w. split; [exact Hp|]. exact Hk.
Defined.

Lemma nyt_last_label_wins_witness :
  get (default ∅
         (parse_nyt_article nyt_valid_block "nyt_2012.txt" default_config).1.1)
    "headline"
  = PStr (line_value "Headline: inside").
Proof.
  apply (nyt_last_label_wins nyt_valid_block "nyt_2012.txt" default_config
           "Headline:" "headline"
           [ valid_key_line; "Headline: X"; "Countries: US;FR"; "Date: 20120101";
             ">>>>>>>>>>>>>>>>>>>>>>"; "Two were killed."; " " ]
           [ "<<<<<<<<<<<<<<<<<<<<<<"; "Trailer" ]).
  - repeat constructor.
  - vm_compute. reflexivity.
  - vm_compute. reflexivity.
  - repeat constructor.
  - exact nyt_valid_block_record.
Defined.

Lemma nyt_body_between_markers_witness :
  get (default ∅
         (parse_nyt_article nyt_valid_block "nyt_2012.txt" default_config).1.1)
    "body"
  = PStr (Py.strip (Py.join Py.NL
            (kept_lines default_config
               [ "Two were killed."; " "; "Headline: inside" ]))).
Proof.
  apply (nyt_body_between_markers nyt_valid_block "nyt_2012.txt" default_config
           [ valid_key_line; "Headline: X"; "Countries: US;FR"; "Date: 20120101" ]
           [ "Two were killed."; " "; "Headline: inside" ]
           [ "Trailer" ]
           ">>>>>>>>>>>>>>>>>>>>>>" "<<<<<<<<<<<<<<<<<<<<<<").
  - vm_compute. reflexivity.
  - repeat constructor.
  - vm_compute. reflexivity.
  - repeat constructor.
  - vm_compute. reflexivity.
  - repeat constructor.
  - exact nyt_valid_block_record.
Defined.

Lemma nyt_body_without_start_marker_witness :
  get (default ∅
         (parse_nyt_article nyt_unopened_block "nyt_2012.txt" default_config).1.1)
    "body"
  = PNone.
Proof.
  assert (Hl : nyt_lines nyt_unopened_block
               = [ valid_key_line; "Two were killed."; "<<<<<<<<<<<<<<<<<<<<<<" ])
    by (vm_compute; reflexivity).
  apply (nyt_body_without_start_marker nyt_unopened_block "nyt_2012.txt"
           default_config).
  - rewrite Hl. repeat constructor.
  - apply some_default. vm_compute. reflexivity.
Defined.

Lemma nyt_bad_key_origin_witness :
  exists pre line post,
    nyt_lines nyt_example_block = pre ++ line :: post
    /\ is_bad_key_line line = true /\ line_value line = "not-a-uuid".
Proof.
  destruct (nyt_bad_key_origin nyt_example_block "nyt_2012.txt" default_config
              "not-a-uuid" "nyt_2012.txt" "Invalid UUID")
    as (_ & (pre & line & post & Hl & Hb & Hv & _) & _).
  - vm_compute. reflexivity.
  - exists pre, line, post. split_and!; assumption.
Defined.

Lemma nyt_example_run :
  process_file_worker nyt_example_env ∅ "nyt_2012.txt" "nyt" "tmp" default_config
    ["title"] nyt_example_cols
  = (Some (default (EmptyString, EmptyString, None)
             (process_file_worker nyt_example_env ∅ "nyt_2012.txt" "nyt" "tmp"
                default_config ["title"] nyt_example_cols).1),
     (process_file_worker nyt_example_env ∅ "nyt_2012.txt" "nyt" "tmp"
        default_config ["title"] nyt_example_cols).2).
Proof.
  refine (pair_some_default _
            (process_file_worker nyt_example_env ∅ "nyt_2012.txt" "nyt" "tmp"
               default_config ["title"] nyt_example_cols) _).
  vm_compute. reflexivity.
Qed.

Lemma nyt_example_run_with :
  process_file_worker_with proquest_parser_func nyt_parser_func nyt_example_env ∅
    "nyt_2012.txt" "nyt" "tmp" default_config ["title"] nyt_example_cols
  = (Some (default (EmptyString, EmptyString, None)
             (process_file_worker_with proquest_parser_func nyt_parser_func
                nyt_example_env ∅ "nyt_2012.txt" "nyt" "tmp" default_config
                ["title"] nyt_example_cols).1),
     (process_file_worker_with proquest_parser_func nyt_parser_func
        nyt_example_env ∅ "nyt_2012.txt" "nyt" "tmp" default_config
        ["title"] nyt_example_cols).2).
Proof.
  refine (pair_some_default _
            (process_file_worker_with proquest_parser_func nyt_parser_func
               nyt_example_env ∅ "nyt_2012.txt" "nyt" "tmp" default_config
               ["title"] nyt_example_cols) _).
  vm_compute. reflexivity.
Qed.

Lemma nyt_example_run_no_cols :
  process_file_worker_with proquest_parser_func nyt_parser_func nyt_example_env ∅
    "nyt_2012.txt" "nyt" "tmp" default_config ["title"] []
  = (Some (default (EmptyString, EmptyString, None)
             (process_file_worker_with proquest_parser_func nyt_parser_func
                nyt_example_env ∅ "nyt_2012.txt" "nyt" "tmp" default_config
                ["title"] []).1),
     (process_file_worker_with proquest_parser_func nyt_parser_func
        nyt_example_env ∅ "nyt_2012.txt" "nyt" "tmp" default_config
        ["title"] []).2).
Proof.
  refine (pair_some_default _
            (process_file_worker_with proquest_parser_func nyt_parser_func
               nyt_example_env ∅ "nyt_2012.txt" "nyt" "tmp" default_config
               ["title"] []) _).
  vm_compute. reflexivity.
Qed.

Lemma worker_result_shape_witness :
  (exists rows,
     (process_file_worker_with proquest_parser_func nyt_parser_func
        nyt_example_env ∅ "nyt_2012.txt" "nyt" "tmp" default_config
        ["title"] nyt_example_cols).2
     = <[(default (EmptyString, EmptyString, None)
            (process_file_worker_with proquest_parser_func nyt_parser_func
               nyt_example_env ∅ "nyt_2012.txt" "nyt" "tmp" default_config
               ["title"] nyt_example_cols).1).1.1 := rows]> ∅
     /\ rows <> [])
  /\ (process_file_worker_with proquest_parser_func nyt_parser_func
        nyt_example_env ∅ "nyt_2012.txt" "nyt" "tmp" default_config
        ["title"] []).2
     = <[(default (EmptyString, EmptyString, None)
            (process_file_worker_with proquest_parser_func nyt_parser_func
               nyt_example_env ∅ "nyt_2012.txt" "nyt" "tmp" default_config
               ["title"] []).1).1.1 := []]> ∅.
Proof.
  split.
  - destruct (worker_result_shape proquest_parser_func nyt_parser_func
                nyt_example_env ∅ _ "nyt_2012.txt" "nyt" "tmp" default_config
                ["title"] nyt_example_cols _ nyt_example_run_with)
      as (_ & _ & _ & _ & rows & Hfs & Hiff & _).
    exists rows. split; [exact Hfs|].
    intros E. apply Hiff in E. discriminate E.
  - destruct (worker_result_shape proquest_parser_func nyt_parser_func
                nyt_example_env ∅ _ "nyt_2012.txt" "nyt" "tmp" default_config
                ["title"] [] _ nyt_example_run_no_cols)
      as (_ & _ & _ & _ & rows & Hfs & Hiff & _).
    rewrite (proj2 Hiff eq_refl) in Hfs. exact Hfs.
Defined.

Lemma pair_none {A B} (p : option A * B) :
  match p.1 with None => true | Some _ => false end = true -> p = (None, p.2).
Proof. by destruct p as [[a|] b]. Qed.

Lemma nyt_failing_run :
  process_file_worker_with proquest_parser_func nyt_parser_func nyt_failing_env
    example_fs "nyt_2012.txt" "nyt" "tmp" default_config ["title"] nyt_example_cols
  = (None,
     (process_file_worker_with proquest_parser_func nyt_parser_func nyt_failing_env
        example_fs "nyt_2012.txt" "nyt" "tmp" default_config ["title"]
        nyt_example_cols).2).
Proof.
  refine (pair_none
            (process_file_worker_with proquest_parser_func nyt_parser_func
               nyt_failing_env example_fs "nyt_2012.txt" "nyt" "tmp" default_config
               ["title"] nyt_example_cols) _).
  vm_compute. reflexivity.
Qed.

Lemma nyt_partial_run :
  process_file_worker_with proquest_parser_func nyt_parser_func nyt_partial_env
    example_fs "nyt_2012.txt" "nyt" "tmp" default_config ["title"] nyt_example_cols
  = (None,
     (process_file_worker_with proquest_parser_func nyt_parser_func nyt_partial_env
        example_fs "nyt_2012.txt" "nyt" "tmp" default_config ["title"]
        nyt_example_cols).2).
Proof.
  refine (pair_none
            (process_file_worker_with proquest_parser_func nyt_parser_func
               nyt_partial_env example_fs "nyt_2012.txt" "nyt" "tmp" default_config
               ["title"] nyt_example_cols) _).
  vm_compute. reflexivity.
Qed.

Lemma worker_without_result_touches_one_path_witness :
  (forall p,
     p <> path_join "tmp" ("nyt" +:+ "_" +:+ fresh_uuid nyt_failing_env +:+ ".parquet") ->
     (process_file_worker_with proquest_parser_func nyt_parser_func nyt_failing_env
        example_fs "nyt_2012.txt" "nyt" "tmp" default_config ["title"]
        nyt_example_cols).2 !! p
     = example_fs !! p)
  /\ (forall p,
     p <> path_join "tmp" ("nyt" +:+ "_" +:+ fresh_uuid nyt_partial_env +:+ ".parquet") ->
     (process_file_worker_with proquest_parser_func nyt_parser_func nyt_partial_env
        example_fs "nyt_2012.txt" "nyt" "tmp" default_config ["title"]
        nyt_example_cols).2 !! p
     = example_fs !! p).
Proof.
  split.
  - exact (proj1 (worker_without_result_touches_one_path proquest_parser_func
                    nyt_parser_func nyt_failing_env example_fs _ "nyt_2012.txt"
                    "nyt" "tmp" default_config ["title"] nyt_example_cols
                    nyt_failing_run)).
  - exact (proj1 (worker_without_result_touches_one_path proquest_parser_func
                    nyt_parser_func nyt_partial_env example_fs _ "nyt_2012.txt"
                    "nyt" "tmp" default_config ["title"] nyt_example_cols
                    nyt_partial_run)).
Defined.

Lemma worker_rows_name_their_file_witness :
  exists rows,
    rows <> []
    /\ Forall (fun r => get r "source_filepath" = PStr "nyt_2012.txt") rows.
Proof.
  destruct (worker_rows_name_their_file nyt_example_env ∅ _ "nyt_2012.txt" "nyt"
              "tmp" default_config ["title"] nyt_example_cols _ nyt_example_run)
    as (rows & _ & Hne & HF).
  - repeat constructor.
  - exists rows. split; [exact Hne|exact HF].
Defined.

Lemma run_keeps_constraints_witness :
  constraints_hold
    (load_articles_parallel sound_engine (fun _ => nyt_example_env) "tmp"
       default_config (Some (["id"; "title"], "id" :: nyt_example_cols))
       [("nyt_2012.txt", "nyt")] example_db).2.
Proof.
  apply run_keeps_constraints. split.
  - intros f. destruct f; split.
    + apply NoDup_nil_2.
    + apply Forall_nil_2.
    + apply NoDup_singleton.
    + apply Forall_cons. split; [vm_compute; split; discriminate|apply Forall_nil_2].
  - apply NoDup_nil_2.
Defined.

Lemma nyt_date_as_stored_witness :
  coerce_value "nyt" "publication_date" (PStr (format_date "20120230")) = PNone.
Proof.
  etrans; [apply (nyt_date_as_stored "20120230")|]; vm_compute; reflexivity.
Defined.

Lemma hex_digits_and_hyphens_are_valid_witness :
  is_valid_uuid "1-2345678123456781234567812345678-" = true.
Proof.
  apply hex_digits_and_hyphens_are_valid.
  - vm_compute. reflexivity.
  - vm_compute. reflexivity.
Defined.

Lemma example_source_keys : NoDup (keys example_source).
Proof.
  apply NoDup_cons. split; [|apply NoDup_singleton].
  intros H%list_elem_of_singleton. discriminate H.
Qed.

Lemma merge_config_keys_witness :
  keys (merge_config example_target example_source)
  = keys example_target
    ++ filter (fun k => k ∉ keys example_target) (keys example_source).
Proof. exact (merge_config_keys example_target example_source example_source_keys). Defined.

Lemma example_heap_wf : heap_wf example_heap.
Proof.
  intros a items Ha.
  assert (H : map_Forall (fun _ items => NoDup items.*1) example_heap)
    by (apply (bool_decide_unpack _); vm_compute; exact I).
  by apply (H a).
Qed.

Lemma example_heap_unshared : unshared 3 example_heap 0 10.
Proof.
  split.
  - apply (bool_decide_unpack _). vm_compute. exact I.
  - apply Forall_forall. apply (bool_decide_unpack _). vm_compute. exact I.
Qed.

Lemma example_heap_target :
  read 3 example_heap (HRef 0) = Some (CDict example_target).
Proof. vm_compute. reflexivity. Qed.

Lemma example_heap_source :
  read 3 example_heap (HRef 10) = Some (CDict example_source).
Proof. vm_compute. reflexivity. Qed.

Lemma merge_heap_unshared_witness :
  exists h',
    merge_heap 3 0 10 example_heap = Merged h'
    /\ read 3 h' (HRef 0) = Some (CDict (merge_config example_target example_source))
    /\ read 3 h' (HRef 10) = Some (CDict example_source).
Proof.
  destruct (merge_heap_unshared 3 example_heap 0 10 example_target example_source
              example_heap_wf example_heap_target example_heap_source
              example_heap_unshared)
    as (h' & Hm & _ & Ht & Hs & _).
  exists h'. split_and!; assumption.
Defined.

Lemma merge_heap_source_wins_witness :
  exists h',
    merge_heap 3 0 10 example_heap = Merged h'
    /\ heap_path h' ["loading"; "nyt"; "recursive"] (HRef 0)
       = Some (HScalar "False").
Proof.
  apply (merge_heap_source_wins 3 example_heap 0 10 example_target example_source
           ["loading"; "nyt"; "recursive"] "False"
           example_heap_wf example_heap_target example_heap_source
           example_heap_unshared).
  vm_compute. reflexivity.
Defined.

Lemma merge_heap_keeps_target_witness :
  exists h',
    merge_heap 3 0 10 example_heap = Merged h'
    /\ read_path 3 h' ["loading"; "nyt"; "enabled"] (HRef 0)
       = read_path 3 example_heap ["loading"; "nyt"; "enabled"] (HRef 0).
Proof.
  apply (merge_heap_keeps_target 3 example_heap 0 10 example_target example_source
           ["loading"; "nyt"; "enabled"]
           example_heap_wf example_heap_target example_heap_source
           example_heap_unshared).
  vm_compute. reflexivity.
Defined.
